(** * FLIM: marker-based kernel synthesis of [flim/models/lcn/_creator.py]

    A shallow embedding of the network builder of the FLIM repository
    (Feature Learning from Image Markers): patch extraction at marker
    pixels, per-label clustering, kernel normalisation, reduction to a
    requested channel count, duplicate-filter pruning and the handling of
    the architecture's parameter dictionaries by [_build_module].

    Conventions.
    - A NumPy / torch tensor is an [ndarray]: its shape and its elements in
      row-major order.  Floating-point numbers are idealised as reals.
    - A Python exception is an [Err] of the [result] type; the assertion
      that raised it is kept apart from errors of the libraries.
    - scikit-learn's [KMeans] and [PCA] and the random draws are parameters
      of the development, constrained only by the shape of what they
      return. *)

From Stdlib Require Import ZArith List Reals Lra Lia Bool Sorted Permutation.
From stdpp Require Import base option list gmap strings.

Set Warnings "-register-all".
Open Scope Z_scope.

(** ** Exceptions *)

Inductive error : Type :=
| AssertOutChannelsOrMarkers  (* "`out_channels` or `markers` must be defined." *)
| AssertKernelsPerMarker      (* "The number of kernels per marker is not enough ..." *)
| AssertNotEnoughKernels      (* "Not enough kernels were generated!!!" *)
| AssertWeightsShape          (* "Weights with ... is not correct." *)
| AssertSimilarityRange       (* "Similarity must be in range (0, 1]" *)
| AssertNoOperation           (* 'Layer does not have an operation.' *)
| AssertNoParams              (* 'Layer does not have operation params.' *)
| KeyError                    (* a dictionary without the key *)
| NotImplemented              (* the decoder on 3D images *)
| LibraryError.               (* raised inside Python, NumPy, scikit-image,
                                 scikit-learn or torch *)

Inductive result (A : Type) : Type :=
| Ok (a : A)
| Err (e : error).
Arguments Ok {A} a.
Arguments Err {A} e.

#[global] Instance result_ret : MRet result := fun _ a => Ok a.
#[global] Instance result_bind : MBind result := fun _ _ f r =>
  match r with
  | Ok a => f a
  | Err e => Err e
  end.
#[global] Instance result_fmap : FMap result := fun _ _ f r =>
  match r with
  | Ok a => Ok (f a)
  | Err e => Err e
  end.

Definition of_option {A : Type} (e : error) (o : option A) : result A :=
  match o with
  | Some a => Ok a
  | None => Err e
  end.

(** ** Tensors *)

Record ndarray (A : Type) : Type := NdArray {
  shape : list nat;
  data : list A
}.
Arguments NdArray {A} shape data.
Arguments shape {A} _.
Arguments data {A} _.

Definition prod_nat (l : list nat) : nat := fold_right Nat.mul 1%nat l.

Definition ndim {A : Type} (t : ndarray A) : nat := length (shape t).

(** All the multi-indices below [axes], the last axis varying fastest. *)
Fixpoint cartesian (axes : list (list nat)) : list (list nat) :=
  match axes with
  | [] => [[]]
  | a :: rest => flat_map (fun i => map (cons i) (cartesian rest)) a
  end.

(** Position of the multi-index [idx] in the row-major layout of [shp]. *)
Fixpoint flat_index (shp idx : list nat) : nat :=
  match shp, idx with
  | n :: shp', i :: idx' => (i * prod_nat shp' + flat_index shp' idx')%nat
  | _, _ => 0%nat
  end.

(** [chunks n d l]: the [n] consecutive rows of width [d] of [l]. *)
Definition chunks {A : Type} (n d : nat) (l : list A) : list (list A) :=
  map (fun i => firstn d (skipn (i * d) l)) (seq 0 n).

(** [t.squeeze()]: the axes of extent 1 disappear, the elements stay. *)
Definition squeeze {A : Type} (t : ndarray A) : ndarray A :=
  NdArray (List.filter (fun n => negb (n =? 1)%nat) (shape t)) (data t).

(** [t.reshape(t.shape[0], -1)] as the list of its rows; a 0-dimensional
    array has no first axis. *)
Definition rows_of {A : Type} (t : ndarray A) : result (list (list A)) :=
  match shape t with
  | [] => Err LibraryError
  | n :: rest => Ok (chunks n (prod_nat rest) (data t))
  end.

(** [np.where(m != 0)]: the multi-indices of the non-zero entries in
    row-major order, each with the entry found there. *)
Definition nonzero (m : ndarray Z) : list (list nat * Z) :=
  List.filter (fun iv => negb (snd iv =? 0))
         (combine (cartesian (map (seq 0) (shape m))) (data m)).

(** [np.arange(0, stop, step)] for integers; a zero step is refused. *)
Definition arange (stop step : Z) : result (list nat) :=
  if step =? 0 then Err LibraryError
  else if (step <? 0) || (stop <=? 0) then Ok []
  else Ok (map (fun i => (i * Z.to_nat step)%nat)
               (seq 0 (Z.to_nat ((stop + step - 1) / step)))).

(** [a.max()]; an empty array has no maximum. *)
Definition max_list (l : list Z) : result Z :=
  match l with
  | [] => Err LibraryError
  | x :: l' => Ok (fold_left Z.max l' x)
  end.

(** [indices[k]] for [indices = np.where(m != 0)]: the [k]-th coordinate
    of every non-zero entry; the tuple has one array per axis of [m]. *)
Definition coordinate (k : nat) (m : ndarray Z) : result (list nat) :=
  if (k <? ndim m)%nat then Ok (map (fun iv => nth k (fst iv) 0%nat) (nonzero m))
  else Err LibraryError.

(** A loop that stops at the first exception. *)
Fixpoint mapR {A B : Type} (f : A → result B) (l : list A) : result (list B) :=
  match l with
  | [] => Ok []
  | a :: l' => b ← f a ; bs ← mapR f l' ; Ok (b :: bs)
  end.

(** ** [_prepare_markers]

    Coordinates and labels of each label image.  The labels are shifted by
    one only when the image's largest label is above 1. *)
Definition prepare_markers_image (m : ndarray Z)
  : result (list nat * list nat * list Z) :=
  let indices := nonzero m in
  max_label ← max_list (data m) ;
  let labels := if 1 <? max_label then map (fun iv => snd iv - 1) indices
                else map snd indices in
  xs ← coordinate 0 m ;
  ys ← coordinate 1 m ;
  Ok (xs, ys, labels).

Definition _prepare_markers (markers : list (ndarray Z))
  : result (list (list nat * list nat * list Z)) :=
  mapR prepare_markers_image markers.

(** ** [_generate_patches] *)

Section PatchSampler.
Context {A : Type} (zero : A).

Definition nd_get (t : ndarray A) (idx : list nat) : A :=
  nth (flat_index (shape t) idx) (data t) zero.

(** [np.pad(image, padding, mode='constant', constant_values=0)[idx]],
    [pads] being the width added before (and after) each axis. *)
Definition pad_get (image : ndarray A) (pads idx : list nat) : A :=
  if forallb (fun ipn => let '(i, p, n) := ipn in (p <=? i)%nat && (i <? p + n)%nat)
             (combine (combine idx pads) (shape image))
  then nd_get image (zip_with Nat.sub idx pads)
  else zero.

(** The window of the padded image that starts at [origin], read at the
    offsets [offs] of each axis. *)
Definition window (image : ndarray A) (pads origin : list nat)
           (offs : list (list nat)) : list A :=
  map (fun off => pad_get image pads (zip_with Nat.add origin off))
      (cartesian offs).

(** The body of the loop over [zip(images, markers)] for an image whose
    marker array is not empty: the patches (flattened) and labels of the
    image.  [dk] is the dilated kernel size, [offs] the offsets kept of
    each spatial axis of a window. *)
Definition patches_of_image (in_channels : nat) (dk : list nat)
           (offs : list (list nat)) (image : ndarray A)
           (image_markers : ndarray Z) : result (list (list A) * list Z) :=
  let rank := length dk in
  let pads := map (fun k => k / 2)%nat dk ++ [0%nat] in
  let patches_shape := dk ++ [in_channels] in
  (* np.pad needs one pair of widths per axis of the image *)
  if negb (ndim image =? length pads)%nat then Err LibraryError else
  let padded_shape := zip_with (fun n p => n + 2 * p)%nat (shape image) pads in
  (* view_as_windows: the window is neither empty nor larger than the array *)
  if negb (forallb (fun wn => (1 <=? fst wn)%nat && (fst wn <=? snd wn)%nat)
                   (combine patches_shape padded_shape))
  then Err LibraryError else
  let windows_along_channels :=
    (nth rank (shape image) 0 - in_channels + 1)%nat in
  markers_x ← coordinate 0 image_markers ;
  markers_y ← coordinate 1 image_markers ;
  (* the 3D branch reads [markers_z = indices[1]] *)
  let coords :=
    if (rank =? 2)%nat then zip_with (fun x y => [x; y]) markers_x markers_y
    else zip_with (fun x y => [x; y; y]) markers_x markers_y in
  let labels := map (fun iv => snd iv - 1) (nonzero image_markers) in
  let mask :=
    map (fun xyz => forallb (fun cn => (fst cn <? snd cn)%nat)
                            (combine xyz (shape image))) coords in
  let kept := combine mask (combine coords labels) in
  let kept := map snd (List.filter fst kept) in
  let generated_patches :=
    flat_map (fun cl =>
                map (fun o => window image pads (fst cl ++ [o])
                                     (offs ++ [seq 0 in_channels]))
                    (seq 0 windows_along_channels)) kept in
  Ok (generated_patches, map snd kept).

(** [len(image_markers) == 0]: the extent of the first axis; a
    0-dimensional array has no length. *)
Definition len {B : Type} (t : ndarray B) : result nat :=
  match shape t with
  | [] => Err LibraryError
  | n :: _ => Ok n
  end.

Fixpoint patches_loop (in_channels : nat) (dk : list nat) (offs : list (list nat))
         (pairs : list (ndarray A * ndarray Z))
         (acc : option (list (list A) * list Z))
  : result (option (list (list A) * list Z)) :=
  match pairs with
  | [] => Ok acc
  | (image, image_markers) :: rest =>
      n ← len image_markers ;
      if (n =? 0)%nat then patches_loop in_channels dk offs rest acc
      else
        '(generated_patches, labels) ←
            patches_of_image in_channels dk offs image image_markers ;
        patches_loop in_channels dk offs rest
          (Some match acc with
                | None => (generated_patches, labels)
                | Some (all_patches, all_labels) =>
                    (all_patches ++ generated_patches, all_labels ++ labels)
                end)
  end.

(** The patches around the marked pixels of every image, squeezed, and
    the label of every marked pixel.  [kernel_size] and [dilation] are
    the per-axis lists that [_build_module] passes, of length 2 (2D
    images, [H, W, C]) or 3 (3D images, [D, H, W, C]); other lengths are
    outside this model and reported as an error. *)
Definition _generate_patches (images : list (ndarray A))
           (markers : list (ndarray Z)) (in_channels : nat)
           (kernel_size dilation : list Z) : result (ndarray A * list Z) :=
  let rank := length kernel_size in
  if negb (((rank =? 2)%nat || (rank =? 3)%nat) && (length dilation =? rank)%nat)
  then Err LibraryError else
  let dilated_kernel_size :=
    zip_with (fun k d => k + (d - 1) * (k - 1)) kernel_size dilation in
  (* a negative padding is refused by np.pad, an empty window by
     view_as_windows *)
  if negb (forallb (fun k => 1 <=? k) dilated_kernel_size)
  then Err LibraryError else
  let dk := map Z.to_nat dilated_kernel_size in
  offs ←
    (if existsb (fun d => 1 <? d) dilation
     then mapR (fun kd => arange (fst kd) (snd kd))
               (combine dilated_kernel_size dilation)
     else Ok (map (seq 0) dk)) ;
  acc ← patches_loop in_channels dk offs (combine images markers) None ;
  match acc with
  | None => Err LibraryError  (* [None.squeeze()] *)
  | Some (all_patches, all_labels) =>
      Ok (squeeze (NdArray (length all_patches :: map length offs ++ [in_channels])
                           (concat all_patches)),
          all_labels)
  end.
End PatchSampler.

(** ** [_kmeans_roots] *)

(** [np.unique]: the distinct values in ascending order. *)
Fixpoint insert_unique (x : Z) (l : list Z) : list Z :=
  match l with
  | [] => [x]
  | y :: l' => if x <? y then x :: l
               else if x =? y then l
               else y :: insert_unique x l'
  end.

Definition np_unique (l : list Z) : list Z := fold_right insert_unique [] l.

(** [a.reshape(-1, *rest)]: the extent of the first axis is what the
    number of elements leaves for it. *)
Definition reshape_rows {A : Type} (rest : list nat) (elements : list A)
  : result (ndarray A) :=
  let d := prod_nat rest in
  if (d =? 0)%nat || negb (length elements mod d =? 0)%nat
  then Err LibraryError
  else Ok (NdArray ((length elements / d)%nat :: rest) elements).

Section Clustering.
Context {A : Type}.

(** [KMeans(n_clusters=k, max_iter=100, tol=0.001).fit(X).cluster_centers_]. *)
Variable KMeans : nat → list (list A) → list (list A).

(** scikit-learn refuses a number of clusters below 1 or above the
    number of samples. *)
Definition kmeans_cluster_centers (n_clusters : Z) (X : list (list A))
  : result (list (list A)) :=
  if (n_clusters <? 1) || (Z.of_nat (length X) <? n_clusters)
  then Err LibraryError
  else Ok (KMeans (Z.to_nat n_clusters) X).

(** [patches[label == labels]] on the rows of [patches]. *)
Definition rows_with_label (rows : list (list A)) (labels : list Z) (label : Z)
  : list (list A) :=
  map fst (List.filter (fun rl => label =? snd rl) (combine rows labels)).

(** The body of the loop over [possible_labels]. *)
Definition roots_of_label (n_clusters_per_label : Z) (rows : list (list A))
           (labels : list Z) (label : Z) : result (list (list A)) :=
  let patches_of_label := rows_with_label rows labels label in
  if n_clusters_per_label <? Z.of_nat (length patches_of_label)
  then kmeans_cluster_centers n_clusters_per_label patches_of_label
  else Ok patches_of_label.

Definition _kmeans_roots (patches : ndarray A) (labels : list Z)
           (n_clusters_per_label : Z) : result (ndarray A) :=
  rows ← rows_of patches ;
  (* the boolean mask has one entry per row *)
  if negb (length rows =? length labels)%nat then Err LibraryError else
  let possible_labels := np_unique labels in
  per_label ← mapR (roots_of_label n_clusters_per_label rows labels)
                   possible_labels ;
  match possible_labels with
  | [] => Err LibraryError  (* [None.reshape] *)
  | _ => reshape_rows (tail (shape patches)) (concat (concat per_label))
  end.
End Clustering.

(** ** Kernel synthesis: [_calculate_convNd_weights], [_initialize_convNd_weights] *)

Definition sum_R (l : list R) : R := fold_right Rplus 0%R l.

(** [np.linalg.norm] of a vector. *)
Definition l2_norm (v : list R) : R := sqrt (sum_R (map (fun x => x * x)%R v)).

(** [a.reshape(a.shape[0], -1)]; NumPy cannot infer the width when the
    first axis is empty. *)
Definition reshape_2d {A : Type} (t : ndarray A) : result (list (list A)) :=
  match shape t with
  | [] => Err LibraryError
  | n :: rest =>
      if (n =? 0)%nat then Err LibraryError
      else Ok (chunks n (prod_nat rest) (data t))
  end.

(** The position of [k] in [perm]. *)
Fixpoint index_of (k : nat) (perm : list nat) : nat :=
  match perm with
  | [] => 0%nat
  | p :: perm' => if (p =? k)%nat then 0%nat else S (index_of k perm')
  end.

(** [a.transpose(perm)]: axis [j] of the result is axis [perm[j]] of [a]. *)
Definition transpose {A : Type} (zero : A) (perm : list nat) (t : ndarray A)
  : result (ndarray A) :=
  if negb (length perm =? ndim t)%nat then Err LibraryError else
  let new_shape := map (fun p => nth p (shape t) 0%nat) perm in
  Ok (NdArray new_shape
        (map (fun idx =>
                nd_get zero t (map (fun k => nth (index_of k perm) idx 0%nat)
                                   (seq 0 (ndim t))))
             (cartesian (map (seq 0) new_shape)))).

Section Synthesis.
Local Open Scope R_scope.

(** [KMeans(...).fit(X).cluster_centers_], [PCA(n_components=k).fit(X).components_]
    and [n] draws of [np.random.rand] / [torch.rand]. *)
Variable KMeans : nat → list (list R) → list (list R).
Variable PCA_components : nat → list (list R) → list (list R).
Variable rand : nat → list R.

(** Sums over the leading axes, one per position of the trailing axes
    ([keepdims=True] keeps them ready for broadcasting). *)
Definition column_sums (period : nat) (rows : list (list R)) : list R :=
  fold_right (zip_with Rplus) (repeat 0 period) rows.

Definition mean_over_leading (period : nat) (rows : list (list R)) : list R :=
  map (fun s => s / INR (length rows)) (column_sums period rows).

Definition std_over_leading (period : nat) (rows : list (list R)) : list R :=
  let mean := mean_over_leading period rows in
  map sqrt (mean_over_leading period
              (map (fun row => zip_with (fun x m => (x - m) * (x - m)) row mean) rows)).

(** [(patches - patches.mean(axis, keepdims=True)) /
     (patches.std(axis, keepdims=True) + default_std)]
    for [axis = tuple(range(n_axes))]. *)
Definition standardize (n_axes : nat) (default_std : R) (patches : ndarray R)
  : result (ndarray R) :=
  if (ndim patches <? n_axes)%nat then Err LibraryError else
  let period := prod_nat (skipn n_axes (shape patches)) in
  let rows := chunks (prod_nat (firstn n_axes (shape patches))) period (data patches) in
  let mean_by_channel := mean_over_leading period rows in
  let std_by_channel := std_over_leading period rows in
  Ok (NdArray (shape patches)
        (concat (map (fun row =>
                        zip_with (fun x ms => (x - fst ms) / (snd ms + default_std))
                                 row (combine mean_by_channel std_by_channel))
                     rows))).

(** [kernel / (norm + 0.00001)]. *)
Definition normalize_kernel (kernel : list R) : list R :=
  map (fun x => x / (l2_norm kernel + 1 / 100000)) kernel.

Definition _calculate_convNd_weights (images : list (ndarray R))
           (markers : list (ndarray Z)) (in_channels : nat)
           (kernel_size dilation : list Z) (number_of_kernels_per_marker : Z)
           (default_std : R) : result (ndarray R) :=
  '(patches, labels) ← _generate_patches 0 images markers in_channels
                                         kernel_size dilation ;
  patches ← standardize (length kernel_size) default_std patches ;
  kernel_weights ← _kmeans_roots KMeans patches labels number_of_kernels_per_marker ;
  let kernels_shape := shape kernel_weights in
  kernels ← reshape_2d kernel_weights ;
  Ok (NdArray kernels_shape (concat (map normalize_kernel kernels))).

(** [_select_kernels_with_pca] *)
Definition _select_kernels_with_pca (kernels : ndarray R) (k : Z)
  : result (ndarray R) :=
  kernels_flatted ← reshape_2d kernels ;
  let n := Z.of_nat (length kernels_flatted) in
  let d := Z.of_nat (prod_nat (tail (shape kernels))) in
  let k := if ((n <? k) || (d <? k))%Z then Z.min n d else k in
  (* scikit-learn refuses a negative number of components *)
  if (k <? 0)%Z then Err LibraryError else
  reshape_rows (tail (shape kernels))
               (concat (PCA_components (Z.to_nat k) kernels_flatted)).

(** [_enforce_norm]: every kernel divided by its norm, then centred. *)
Definition enforce_norm_kernel (kernel : list R) : list R :=
  let normalized := map (fun x => x / l2_norm kernel) kernel in
  let mean := sum_R normalized / INR (length normalized) in
  map (fun x => x - mean) normalized.

Definition _enforce_norm (kernels : ndarray R) : result (ndarray R) :=
  flattened_kernels ← reshape_2d kernels ;
  Ok (NdArray (shape kernels) (concat (map enforce_norm_kernel flattened_kernels))).

(** An array of the given extents filled by the random generator; a
    negative extent is refused. *)
Definition random_array (dims : list Z) : result (ndarray R) :=
  if negb (forallb (fun n => 0 <=? n)%Z dims) then Err LibraryError
  else let shp := map Z.to_nat dims in
       Ok (NdArray shp (rand (prod_nat shp))).

Definition _create_random_kernels (n : Z) (in_channels : nat)
           (kernel_size : list Z) : result (ndarray R) :=
  random_array (n :: Z.of_nat in_channels :: kernel_size).

Definition _create_random_pca_kernels (n k : Z) (in_channels : nat)
           (kernel_size : list Z) : result (ndarray R) :=
  let kernel_size :=
    match kernel_size with
    | [s] => [s; s]
    | _ => kernel_size
    end in
  kernels ← _create_random_kernels n in_channels kernel_size ;
  kernels ← _enforce_norm kernels ;
  _select_kernels_with_pca kernels k.

(** The reduction of the marker path to the requested number of
    kernels: the assertion, then PCA or a second clustering of the
    kernels under the single label 1. *)
Definition reduce_to_out_channels (out_channels : option Z)
           (kernels_weights : ndarray R) : result (ndarray R) :=
  n ← len kernels_weights ;
  match out_channels with
  | None => Ok kernels_weights
  | Some oc =>
      if (Z.of_nat n <? oc)%Z then Err AssertNotEnoughKernels
      else if ((oc <? Z.of_nat n) &&
               (oc <? Z.of_nat (prod_nat (tail (shape kernels_weights)))))%Z
      then _select_kernels_with_pca kernels_weights oc
      else if (oc <? Z.of_nat n)%Z
      then _kmeans_roots KMeans kernels_weights (repeat 1%Z n) oc
      else Ok kernels_weights
  end.

(** The kernels of the marker path before their number is looked at:
    [_calculate_convNd_weights], then the channel axis moved to the
    front of each kernel. *)
Definition marker_kernels (images : list (ndarray R)) (markers : list (ndarray Z))
           (in_channels : nat) (kernel_size dilation : list Z)
           (number_of_kernels_per_marker : option Z) (default_std : R)
  : result (ndarray R) :=
  nkpm ← of_option LibraryError number_of_kernels_per_marker ;
  kernels_weights ← _calculate_convNd_weights images markers in_channels
                      kernel_size dilation nkpm default_std ;
  if (ndim kernels_weights =? 4)%nat
  then transpose 0 [0; 3; 1; 2]%nat kernels_weights
  else transpose 0 [0; 4; 3; 1; 2]%nat kernels_weights.

Definition _initialize_convNd_weights (images : option (list (ndarray R)))
           (markers : option (list (ndarray Z))) (in_channels : nat)
           (out_channels : option Z) (kernel_size dilation : list Z)
           (number_of_kernels_per_marker : option Z)
           (use_random_kernels : bool) (default_std : R)
  : result (ndarray R) :=
  if use_random_kernels then
    oc ← of_option LibraryError out_channels ;
    _create_random_pca_kernels (oc * 10) oc in_channels kernel_size
  else
    match images, markers with
    | Some images, Some markers =>
        kernels_weights ← marker_kernels images markers in_channels kernel_size
                            dilation number_of_kernels_per_marker default_std ;
        reduce_to_out_channels out_channels kernels_weights
    | _, _ =>
        oc ← of_option LibraryError out_channels ;
        random_array (oc :: Z.of_nat in_channels :: kernel_size)
    end.
End Synthesis.

(** ** Duplicate-filter pruning: [_compute_similarity_matrix], [_remove_similar_filters] *)

(** A value of a [params] dictionary of the architecture. *)
Inductive pyval : Type :=
| PInt (n : Z)
| PBool (b : bool)
| PList (l : list Z)
| PStr (s : string)
| PNone.

#[global] Instance pyval_eq_dec : EqDecision pyval.
Proof. solve_decision. Defined.

(** A convolution layer: the arguments of its constructor and its weight. *)
Record conv_layer : Type := ConvLayer {
  conv_in_channels : nat;
  conv_out_channels : Z;
  conv_kernel_size : list Z;
  conv_stride : pyval;
  conv_padding : pyval;
  conv_dilation : list Z;
  conv_groups : Z;
  conv_bias : bool;
  conv_padding_mode : string;
  conv_weight : ndarray R
}.

(** [any(s != 1 for s in stride)] on the tuple the constructor makes of
    [stride]: a number is repeated for every axis, an iterable is taken
    entry by entry. *)
Definition strided (stride : pyval) : bool :=
  match stride with
  | PInt n => negb (n =? 1)
  | PBool b => negb b
  | PList l => existsb (fun s => negb (s =? 1)) l
  | PStr s => negb (bool_decide (s = ""))
  | PNone => true
  end.

(** The constructor refuses a padding given as a string unless it is
    ['valid'] or ['same'], and ['same'] on a strided convolution. *)
Definition bad_padding_string (stride padding : pyval) : bool :=
  match padding with
  | PStr p => negb (bool_decide (p ∈ ["same"; "valid"]))
              || (bool_decide (p = "same") && strided stride)
  | _ => false
  end.

(** The checks of the constructor of [nn.Conv2d] / [nn.Conv3d]; the weight
    it allocates is replaced by the caller. *)
Definition nn_ConvNd (in_channels : nat) (out_channels : Z) (kernel_size : list Z)
           (stride padding : pyval) (dilation : list Z) (groups : Z) (bias : bool)
           (padding_mode : string) (weight : ndarray R) : result conv_layer :=
  if (groups <=? 0) || negb (Z.of_nat in_channels mod groups =? 0)
     || negb (out_channels mod groups =? 0)
     || bad_padding_string stride padding
     || negb (bool_decide (padding_mode ∈ ["zeros"; "reflect"; "replicate"; "circular"]))
     || (out_channels <? 0) || negb (forallb (fun k => 0 <=? k) kernel_size)
  then Err LibraryError
  else Ok (ConvLayer in_channels out_channels kernel_size stride padding dilation
                     groups bias padding_mode weight).

Section Pruning.
Local Open Scope R_scope.

(** [np.inner] of two vectors. *)
Definition inner (u v : list R) : R := sum_R (zip_with Rmult u v).

(** [squareform(pdist(filters, metric=np.inner))]: [pdist] evaluates the
    metric on every pair [i < j] of rows, [squareform] mirrors these
    values and leaves the diagonal at 0; without a pair it is the 1 x 1
    zero matrix. *)
Definition similarity (filters : list (list R)) (i j : nat) : R :=
  if (i <? j)%nat then inner (nth i filters []) (nth j filters [])
  else if (j <? i)%nat then inner (nth j filters []) (nth i filters [])
  else 0.

(** [filters.detach().flatten(1)]: needs a second axis. *)
Definition flatten_1 (filters : ndarray R) : result (list (list R)) :=
  match shape filters with
  | n :: d :: rest => Ok (chunks n (prod_nat (d :: rest)) (data filters))
  | _ => Err LibraryError
  end.

Definition _compute_similarity_matrix (filters : ndarray R)
  : result (list (list R)) :=
  _filters ← flatten_1 filters ;
  let n := length _filters in
  Ok (if (n <=? 1)%nat then [[0]]
      else map (fun i => map (similarity _filters i) (seq 0 n)) (seq 0 n)).

Definition Rleb (x y : R) : bool := if Rle_dec x y then true else false.
Definition Rltb (x y : R) : bool := if Rlt_dec x y then true else false.

(** One turn of the loop: [keep_filter[np.where(similarity_matrix[i] >=
    similarity_level)] = False] when filter [i] is still kept. *)
Definition prune_step (similarity_matrix : list (list R)) (similarity_level : R)
           (keep_filter : list bool) (i : nat) : list bool :=
  if nth i keep_filter false then
    let mask := map (Rleb similarity_level) (nth i similarity_matrix []) in
    zip_with (fun k m => k && negb m) keep_filter mask
  else keep_filter.

Definition keep_filters (similarity_matrix : list (list R)) (similarity_level : R)
           (n : nat) : list bool :=
  fold_left (prune_step similarity_matrix similarity_level) (seq 0 n) (repeat true n).

(** The first half of [_remove_similar_filters]: the assertion, the
    similarity matrix, the loop and [filters[keep_filter]]. *)
Definition selected_filters (filters : ndarray R) (similarity_level : R)
  : result (list (list R)) :=
  if negb (Rltb 0 similarity_level && Rleb similarity_level 1)
  then Err AssertSimilarityRange else
  similarity_matrix ← _compute_similarity_matrix filters ;
  rows ← flatten_1 filters ;
  let keep_filter := keep_filters similarity_matrix similarity_level (length rows) in
  Ok (map snd (List.filter fst (combine keep_filter rows))).

Definition _remove_similar_filters (layer : conv_layer) (similarity_level : R)
  : result conv_layer :=
  let filters := conv_weight layer in
  selected_filters ← selected_filters filters similarity_level ;
  let out_channels := length selected_filters in
  (* [bias=layer.bias]: the truth value of a bias tensor exists only
     when it has a single element *)
  if conv_bias layer && negb (conv_out_channels layer =? 1)%Z
  then Err LibraryError else
  nn_ConvNd (conv_in_channels layer) (Z.of_nat out_channels)
            (conv_kernel_size layer) (conv_stride layer) (conv_padding layer)
            [1; 1]%Z 1 (conv_bias layer) "zeros"
            (NdArray (out_channels :: tail (shape filters))
                     (concat selected_filters)).
End Pruning.

(** ** The convolution leaf of [LCNCreator._build_module] *)

(** Python's truth value. *)
Definition truthy (v : pyval) : bool :=
  match v with
  | PInt n => negb (n =? 0)
  | PBool b => b
  | PList l => negb (bool_decide (l = []))
  | PStr s => negb (bool_decide (s = ""))
  | PNone => false
  end.

(** A value used as an integer ([bool] is a subclass of [int]). *)
Definition as_int (v : pyval) : result Z :=
  match v with
  | PInt n => Ok n
  | PBool b => Ok (Z.b2z b)
  | _ => Err LibraryError
  end.

(** A value used as an integer where only an integer makes the code go
    on: anything else ends in a [TypeError] of the callee. *)
Definition int_of (v : pyval) : option Z :=
  match v with
  | PInt n => Some n
  | PBool b => Some (Z.b2z b)
  | _ => None
  end.

(** [if isinstance(v, int): v = [v] * (3 if is_3d else 2)] *)
Definition per_axis (is_3d : bool) (v : pyval) : pyval :=
  match v with
  | PInt n => PList (repeat n (if is_3d then 3 else 2)%nat)
  | PBool b => PList (repeat (Z.b2z b) (if is_3d then 3 else 2)%nat)
  | _ => v
  end.

(** A kernel size or dilation used as the list of integers it has to be:
    the source fails on anything else when NumPy or torch receives it. *)
Definition as_list (v : pyval) : result (list Z) :=
  match v with
  | PList l => Ok l
  | _ => Err LibraryError
  end.

(** [d.get(key, None)], with a stored [None] read as the default. *)
Definition get_or_none (params : gmap string pyval) (key : string) : option pyval :=
  match params !! key with
  | Some PNone => None
  | o => o
  end.

(** [math.ceil(a / b)]; a division by zero has no ceiling. *)
Definition ceil_div (a b : Z) : result Z :=
  if b =? 0 then Err LibraryError else Ok (- ((- a) / b)).

(** [np.array(markers).max()] *)
Definition markers_max (markers : list (ndarray Z)) : result Z :=
  max_list (concat (map data markers)).

(** The clusters per label used when the leaf has markers and no
    [number_of_kernels_per_marker]:
    [math.ceil(operation_params["out_channels"] / np.array(markers).max())]. *)
Definition default_kernels_per_marker (operation_params : gmap string pyval)
           (markers : list (ndarray Z)) : result Z :=
  out_channels ← of_option KeyError (operation_params !! "out_channels") ;
  out_channels ← as_int out_channels ;
  max_label ← markers_max markers ;
  ceil_div out_channels max_label.

(** [a or b] evaluates [b] only when [a] is false. *)
Definition py_or (a : bool) (b : result bool) : result bool :=
  if a then Ok true else b.

(** [f'feature_extractor.{key}.weight'] *)
Definition weight_key (key : string) : string :=
  "feature_extractor." +:+ key +:+ ".weight".

Section ConvLeaf.
Variable KMeans : nat → list (list R) → list (list R).
Variable PCA_components : nat → list (list R) → list (list R).
Variable rand : nat → list R.

(** The second operand of the assertion on the kernels per marker:
    [number_of_kernels_per_marker * np.array(markers).max() >= out_channels]. *)
Definition enough_kernels_per_marker (number_of_kernels_per_marker : option Z)
           (markers : option (list (ndarray Z))) (out_channels : option pyval)
  : result bool :=
  n ← of_option LibraryError number_of_kernels_per_marker ;
  markers ← of_option LibraryError markers ;
  max_label ← markers_max markers ;
  out_channels ← of_option LibraryError out_channels ;
  out_channels ← as_int out_channels ;
  Ok (out_channels <=? n * max_label).

(** [if out_channels is not None:
       assert out_channels is not None or (...), "The number of kernels
       per marker is not enough ..."] *)
Definition kernels_per_marker_guard (number_of_kernels_per_marker : option Z)
           (markers : option (list (ndarray Z))) (out_channels : option pyval)
  : result unit :=
  if bool_decide (is_Some out_channels) then
    py_or (bool_decide (is_Some out_channels))
          (enough_kernels_per_marker number_of_kernels_per_marker
                                     markers out_channels)
    ≫= λ holds : bool, if holds then Ok tt else Err AssertKernelsPerMarker
  else Ok tt.

(** The branch of [_build_module] for ["conv2d"] and ["conv3d"], from the
    reading of the parameters to [last_conv_layer_out_channels =
    layer.out_channels]. *)
Definition build_conv_leaf (key : string) (is_3d : bool)
           (operation_params : gmap string pyval)
           (images : option (list (ndarray R)))
           (markers : option (list (ndarray Z)))
           (state_dict : option (gmap string (ndarray R)))
           (last_conv_layer_out_channels : nat) (default_std : R)
           (remove_similar_filters : bool) (similarity_level : R)
  : result conv_layer :=
  let number_of_kernels_per_marker :=
    get_or_none operation_params "number_of_kernels_per_marker" in
  let use_random_kernels :=
    default (PBool false) (operation_params !! "use_random_kernels") in
  kernel_size ← of_option KeyError (operation_params !! "kernel_size") ;
  let stride := default (PInt 0) (operation_params !! "stride") in
  let padding := default (PInt 0) (operation_params !! "padding") in
  let padding_mode := default (PStr "zeros") (operation_params !! "padding_mode") in
  let dilation := default (PInt 0) (operation_params !! "dilation") in
  let groups := default (PInt 1) (operation_params !! "groups") in
  let bias := default (PBool false) (operation_params !! "bias") in
  let out_channels := get_or_none operation_params "out_channels" in
  if negb (bool_decide (is_Some out_channels) || bool_decide (is_Some markers))
  then Err AssertOutChannelsOrMarkers else
  let in_channels := last_conv_layer_out_channels in
  dilation ← as_list (per_axis is_3d dilation) ;
  let padding := per_axis is_3d padding in
  kernel_size ← as_list (per_axis is_3d kernel_size) ;
  number_of_kernels_per_marker ←
    match markers with
    | Some markers =>
        if bool_decide (is_Some (operation_params !! "number_of_kernels_per_marker"))
        then Ok (number_of_kernels_per_marker ≫= int_of)
        else Some <$> default_kernels_per_marker operation_params markers
    | None => Ok (number_of_kernels_per_marker ≫= int_of)
    end ;
  out_channels ←
    match state_dict with
    | Some state_dict =>
        if bool_decide (images = None ∨ markers = None)
        then weight ← of_option KeyError (state_dict !! weight_key key) ;
             n ← len weight ;
             Ok (Some (PInt (Z.of_nat n)))
        else Ok out_channels
    | None => Ok out_channels
    end ;
  _ ← kernels_per_marker_guard number_of_kernels_per_marker markers out_channels ;
  out_channels ←
    match out_channels with
    | Some v => Some <$> as_int v
    | None => Ok None
    end ;
  weights ← _initialize_convNd_weights KMeans PCA_components rand images markers
              in_channels out_channels kernel_size dilation
              number_of_kernels_per_marker (truthy use_random_kernels) default_std ;
  n ← len weights ;
  if negb match out_channels with
          | Some oc => Z.of_nat n =? oc
          | None => true
          end
  then Err AssertWeightsShape else
  let out_channels := default (Z.of_nat n) out_channels in
  groups ← as_int groups ;
  padding_mode ← (match padding_mode with
                  | PStr m => Ok m
                  | _ => Err LibraryError
                  end) ;
  layer ← nn_ConvNd in_channels out_channels kernel_size stride padding dilation
                    groups (truthy bias) padding_mode weights ;
  if remove_similar_filters
  then _remove_similar_filters layer similarity_level
  else Ok layer.
End ConvLeaf.

(** ** The architecture and what a build writes into it *)

(** An entry of the architecture: a module (it has a ["type"], except
    possibly at the top) with its layers in declared order, or a leaf with
    its operation tag and its [params] dictionary; either may carry
    ["inputs"], the names of the outputs it is fed with. *)
Inductive layer_config : Type :=
| Module (type : option string) (layers : list (string * layer_config))
         (inputs : option (list string))
| Layer (operation : option string) (params : option (gmap string pyval))
        (inputs : option (list string)).

(** [layer_config['inputs']], when the entry has the key. *)
Definition inputs_of (layer_config : layer_config) : option (list string) :=
  match layer_config with
  | Module _ _ inputs => inputs
  | Layer _ _ inputs => inputs
  end.

(** The keys of [__operations__]. *)
Definition __operations__ : list string :=
  ["max_pool2d"; "max_pool3d"; "avg_pool2d"; "avg_pool3d"; "conv2d"; "conv3d";
   "relu"; "linear"; "marker_based_norm"; "m_norm2d"; "m_norm3d";
   "batch_norm2d"; "batch_norm3d"; "dropout"; "adap_avg_pool3d"; "unfold";
   "fold"; "decoder"].

Definition is_pooling (operation : string) : bool :=
  bool_decide (operation ∈ ["max_pool2d"; "avg_pool2d"; "max_pool3d"; "avg_pool3d"]).

Definition is_3d_pooling (operation : string) : bool :=
  bool_decide (operation ∈ ["max_pool3d"; "avg_pool3d"]).

(** What the builder does besides writing into the architecture, in the
    order it does it.  The layers, the replay of the images and the shape
    bookkeeping live in the state that handles these events. *)
Inductive build_event : Type :=
| EnterModule (module_name : option string) (type : option string)
| MergeSkipInputs (new_module_name : string)
| SubmoduleBuilt (new_module_name key : string)
| PoolingReplay (operation : string) (stride padding kernel_size : pyval)
                (same_size_params : gmap string pyval)
| FlattenAdded
| LayerBuilt (new_module_name key operation : string)
             (operation_params : gmap string pyval)
| ExitModule.

Definition linear_key (key : string) : string :=
  "classifier." +:+ key +:+ "._linear.weight".

Section Assembler.
Context {State : Type}.
Variable handle : State → build_event → result State.
(** [np.prod(self._output_shape)] *)
Variable output_shape_prod : State → Z.
Variable state_dict : option (gmap string (ndarray R)).

(** The pooling branch: the layer is first built and replayed with
    [stride = 1] and [padding = kernel_size // 2], then built from the
    parameters written back. *)
Definition build_pooling (new_module_name key operation : string)
           (operation_params : gmap string pyval) (st : State)
  : result (State * gmap string pyval) :=
  let is_3d := is_3d_pooling operation in
  stride ← of_option KeyError (operation_params !! "stride") ;
  kernel_size ← of_option KeyError (operation_params !! "kernel_size") ;
  let padding :=
    match operation_params !! "padding" with
    | Some padding => per_axis is_3d padding
    | None => PList (repeat 0 (if is_3d then 3 else 2)%nat)
    end in
  let kernel_size := per_axis is_3d kernel_size in
  k_sizes ← as_list kernel_size ;
  let operation_params := <["stride" := PInt 1]> operation_params in
  let operation_params :=
    <["padding" := PList (map (fun k_size => k_size / 2) k_sizes)]> operation_params in
  st ← handle st (PoolingReplay operation stride padding kernel_size operation_params) ;
  let operation_params := <["stride" := stride]> operation_params in
  let operation_params := <["padding" := padding]> operation_params in
  st ← handle st (LayerBuilt new_module_name key operation operation_params) ;
  Ok (st, operation_params).

(** The linear branch. *)
Definition build_linear (new_module_name key operation : string)
           (operation_params : gmap string pyval) (st : State)
  : result (State * gmap string pyval) :=
  in_features ← of_option KeyError (operation_params !! "in_features") ;
  '(st, operation_params) ←
    (if bool_decide (in_features = PInt (-1))
     then st' ← handle st FlattenAdded ;
          Ok (st', <["in_features" := PInt (output_shape_prod st)]> operation_params)
     else Ok (st, operation_params)) ;
  operation_params ←
    match state_dict with
    | Some state_dict =>
        weights ← of_option KeyError (state_dict !! linear_key key) ;
        match shape weights with
        | n0 :: n1 :: _ =>
            Ok (<["out_features" := PInt (Z.of_nat n0)]>
                  (<["in_features" := PInt (Z.of_nat n1)]> operation_params))
        | _ => Err LibraryError
        end
    | None => Ok operation_params
    end ;
  st ← handle st (LayerBuilt new_module_name key operation operation_params) ;
  Ok (st, operation_params).

(** A leaf: [_assert_params], the lookup of the operation, then the
    branch of the operation.  Only the pooling and the linear branch
    assign to [operation_params]. *)
Definition build_leaf (new_module_name key : string) (operation : option string)
           (params : option (gmap string pyval)) (st : State)
  : result (State * gmap string pyval) :=
  operation ← of_option AssertNoOperation operation ;
  operation_params ← of_option AssertNoParams params ;
  if negb (bool_decide (operation ∈ __operations__)) then Err KeyError else
  if is_pooling operation
  then build_pooling new_module_name key operation operation_params st
  else if bool_decide (operation = "linear")
  then build_linear new_module_name key operation operation_params st
  else st ← handle st (LayerBuilt new_module_name key operation operation_params) ;
       Ok (st, operation_params).

(** [_build_module]: the depth-first walk.  It returns the state and the
    architecture as the build leaves it. *)
Fixpoint _build_module (module_name : option string) (module_arch : layer_config)
         (st : State) {struct module_arch} : result (State * layer_config) :=
  match module_arch with
  | Layer _ _ _ => Err KeyError  (* [module_arch['layers']] *)
  | Module type layers_arch inputs =>
      st ← handle st (EnterModule module_name type) ;
      '(st, layers_arch) ←
        (fix build_layers (layers : list (string * layer_config)) (st : State)
           : result (State * list (string * layer_config)) :=
           match layers with
           | [] => Ok (st, [])
           | (key, layer_config) :: rest =>
               let new_module_name :=
                 match module_name with
                 | None => key
                 | Some name => name +:+ "." +:+ key
                 end in
               st ← handle st (MergeSkipInputs new_module_name) ;
               '(st, layer_config) ←
                 match layer_config with
                 | Module (Some _) _ _ =>
                     '(st, built) ← _build_module (Some new_module_name) layer_config st ;
                     st ← handle st (SubmoduleBuilt new_module_name key) ;
                     Ok (st, built)
                 | Module None _ _ => Err AssertNoOperation
                 | Layer operation params inputs =>
                     '(st, params) ← build_leaf new_module_name key operation params st ;
                     Ok (st, Layer operation (Some params) inputs)
                 end ;
               '(st, rest) ← build_layers rest st ;
               Ok (st, (key, layer_config) :: rest)
           end) layers_arch st ;
      st ← handle st ExitModule ;
      Ok (st, Module type layers_arch inputs)
  end.
End Assembler.

(** ** Vocabulary of the properties *)

(** Induction on an architecture, with the layers of a module. *)
Fixpoint layer_config_induction (P : layer_config → Prop)
         (Hmodule : ∀ type layers inputs, Forall (fun kl => P (snd kl)) layers →
                                          P (Module type layers inputs))
         (Hlayer : ∀ operation params inputs, P (Layer operation params inputs))
         (c : layer_config) {struct c} : P c :=
  match c with
  | Module type layers inputs =>
      Hmodule type layers inputs
        ((fix layers_induction (ls : list (string * layer_config))
            : Forall (fun kl => P (snd kl)) ls :=
            match ls with
            | [] => List.Forall_nil _
            | kl :: ls' =>
                @List.Forall_cons _ _ kl ls'
                  (match kl as kl0 return P (snd kl0) with
                   | (_, c') => layer_config_induction P Hmodule Hlayer c'
                   end)
                  (layers_induction ls')
            end) layers)
  | Layer operation params inputs => Hlayer operation params inputs
  end.

(** A tensor has as many elements as its shape says. *)
Definition well_formed {A : Type} (t : ndarray A) : Prop :=
  length (data t) = prod_nat (shape t).

(** A label handed out by the patch extraction is a marker value minus
    one, whatever the largest marker value is. *)
Definition shifted_label (markers : list (ndarray Z)) (l : Z) : Prop :=
  ∃ v, In v (concat (map data markers)) ∧ v ≠ 0 ∧ l = v - 1.


(** The number of marked pixels (patches) that carry [label]. *)
Definition marked_pixels (labels : list Z) (label : Z) : nat :=
  length (List.filter (Z.eqb label) labels).

(** The number of kernels a label contributes: the clusters per label when
    it has more patches than that, else one per patch. *)
Definition kernels_of_label (n_clusters_per_label : Z) (labels : list Z)
           (label : Z) : nat :=
  if n_clusters_per_label <? Z.of_nat (marked_pixels labels label)
  then Z.to_nat n_clusters_per_label
  else marked_pixels labels label.

(** The block of kernels of a label, for at least one cluster per label:
    the centres of k-means when the label has more patches than clusters,
    else its patches. *)
Definition block_of_label {A : Type} (KMeans : nat → list (list A) → list (list A))
           (n_clusters_per_label : Z) (rows : list (list A))
           (labels : list Z) (label : Z) : list (list A) :=
  if n_clusters_per_label <? Z.of_nat (marked_pixels labels label)
  then KMeans (Z.to_nat n_clusters_per_label) (rows_with_label rows labels label)
  else rows_with_label rows labels label.

(** The entry [similarity_matrix[i][j]]. *)
Definition entry (M : list (list R)) (i j : nat) : R := nth j (nth i M []) 0%R.

(** A matrix whose first [n] rows have [n] entries. *)
Definition square (n : nat) (M : list (list R)) : Prop :=
  ∀ i, (i < n)%nat → length (nth i M []) = n.

(** [filters[keep_filter]] *)
Definition select {A : Type} (keep : list bool) (rows : list A) : list A :=
  map snd (List.filter fst (combine keep rows)).

(** All the filters of a layer have Euclidean norm 1. *)
Definition unit_norm (filters : ndarray R) : Prop :=
  ∀ rows, flatten_1 filters = Ok rows → Forall (fun v => l2_norm v = 1%R) rows.

(** The [padding] a pooling leaf ends with: the per-axis form of the one it
    had, zeros when it had none. *)
Definition pooling_padding (operation : string) (operation_params : gmap string pyval)
  : pyval :=
  match operation_params !! "padding" with
  | Some padding => per_axis (is_3d_pooling operation) padding
  | None => PList (repeat 0 (if is_3d_pooling operation then 3 else 2)%nat)
  end.

(** Whether a build is given a [state_dict]. *)
Definition resumed (state_dict : option (gmap string (ndarray R))) : bool :=
  match state_dict with Some _ => true | None => false end.

(** The params of a leaf after a build, from those before it. *)
Definition params_after (on_resume : bool) (operation : string)
           (before after : gmap string pyval) : Prop :=
  if is_pooling operation
  then after = <["padding" := pooling_padding operation before]> before
  else if bool_decide (operation = "linear")
  then (∀ k, k ≠ "in_features" → k ≠ "out_features" → after !! k = before !! k)
       ∧ (on_resume = false → before !! "in_features" ≠ Some (PInt (-1)) →
          after = before)
  else after = before.

(** The architecture after a build, from the one before it: the same
    modules, names, operation tags and inputs; only params move, as
    [params_after] says. *)
Inductive built_from (on_resume : bool) : layer_config → layer_config → Prop :=
| built_module (type : option string) (before after : list (string * layer_config))
               (inputs : option (list string)) :
    Forall2 (fun b a => fst b = fst a ∧ built_from on_resume (snd b) (snd a))
            before after →
    built_from on_resume (Module type before inputs) (Module type after inputs)
| built_leaf (operation : string) (before after : gmap string pyval)
             (inputs : option (list string)) :
    params_after on_resume operation before after →
    built_from on_resume (Layer (Some operation) (Some before) inputs)
               (Layer (Some operation) (Some after) inputs).

(** The operation tags of an architecture, in declared order. *)
Fixpoint operation_tags (c : layer_config) : list (option string) :=
  match c with
  | Module _ layers _ => flat_map (fun kl => operation_tags (snd kl)) layers
  | Layer operation _ _ => [operation]
  end.

(** ** Sample inputs *)

(** The tensor of the given shape filled with 0. *)
Definition zeros (shp : list nat) : ndarray R :=
  NdArray shp (repeat 0%R (prod_nat shp)).

(** Stand-ins for the libraries: [KMeans] and [PCA] that return the first
    [k] rows, a random generator that draws zeros. *)
Definition first_rows (k : nat) (X : list (list R)) : list (list R) := firstn k X.

Definition no_draws (n : nat) : list R := repeat 0%R n.

(** Two black images of shape [1 x 1 x 2], each with its pixel marked with
    label 1. *)
Definition black_images : list (ndarray R) :=
  [NdArray [1; 1; 2]%nat [0; 0]%R; NdArray [1; 1; 2]%nat [0; 0]%R].

Definition black_markers : list (ndarray Z) :=
  [NdArray [1; 1]%nat [1]; NdArray [1; 1]%nat [1]].

(** Two unit-norm filters with inner product 3/5, and four with inner
    products 3/5 (0 and 1), 4/5 (1 and 2, 1 and 3) and less than 1/2
    elsewhere. *)
Definition two_filters : ndarray R :=
  NdArray [2; 2; 1; 1]%nat [1; 0; 3 / 5; 4 / 5]%R.

Definition four_filters : ndarray R :=
  NdArray [4; 3; 1; 1]%nat
          [3 / 5; 0; 4 / 5;   1; 0; 0;   4 / 5; 3 / 5; 0;   4 / 5; - (3 / 5); 0]%R.

(** A saved weight of 4 kernels for a leaf declared with 8 channels. *)
Definition saved_state : gmap string (ndarray R) :=
  <["feature_extractor.conv1.weight" := zeros [4; 3; 3; 3]%nat]> ∅.

Definition conv1_params : gmap string pyval :=
  <["kernel_size" := PInt 3]>
    (<["out_channels" := PInt 8]>
       (<["stride" := PInt 1]> (<["dilation" := PInt 1]> ∅))).

Definition conv1_resumed : conv_layer :=
  ConvLayer 3 4 [3; 3] (PInt 1) (PList [0; 0]) [1; 1] 1 false "zeros"
            (NdArray [4; 3; 3; 3]%nat (no_draws 108)).

(** A module with a convolution, a pooling leaf that gives no padding and a
    linear classifier that leaves [in_features] to the builder (48 for an
    input of shape [9 x 9 x 3]); a build state that records nothing. *)
Definition pool_params : gmap string pyval :=
  <["kernel_size" := PInt 3]> (<["stride" := PInt 2]> ∅).

Definition linear_params : gmap string pyval :=
  <["in_features" := PInt (-1)]> (<["out_features" := PInt 2]> ∅).

Definition small_arch : layer_config :=
  Module None [("conv1", Layer (Some "conv2d") (Some conv1_params) None);
               ("pool", Layer (Some "max_pool2d") (Some pool_params) None);
               ("fc", Layer (Some "linear") (Some linear_params) None)]
         None.

Definition small_arch_built : layer_config :=
  Module None [("conv1", Layer (Some "conv2d") (Some conv1_params) None);
               ("pool", Layer (Some "max_pool2d")
                              (Some (<["padding" := PList [0; 0]]> pool_params)) None);
               ("fc", Layer (Some "linear")
                            (Some (<["in_features" := PInt 48]> linear_params)) None)]
         None.

Definition no_state (st : unit) (event : build_event) : result unit := Ok tt.

(** The name that [state_dict()] of the network gives to the weight of a
    convolution of the feature extractor: the keys under which the layer
    and the modules around it were added ([module.add_module(key, ...)]),
    below [LCN.feature_extractor]. *)
Definition saved_weight_name (path : list string) : string :=
  "feature_extractor." +:+ String.concat "." path +:+ ".weight".

(** A build state that records the events of the build in their order. *)
Definition recorded (st : list build_event) (event : build_event)
  : result (list build_event) :=
  Ok (st ++ [event]).

(** A feature extractor with a convolution [conv1] and a sub-module
    [block] that has a convolution [conv1] of its own, and the weights that
    a network of this architecture saves: 4 kernels for the first
    convolution, 6 for the one inside [block]. *)
Definition nested_arch : layer_config :=
  Module (Some "sequential")
         [("conv1", Layer (Some "conv2d") (Some conv1_params) None);
          ("block", Module (Some "sequential")
                      [("conv1", Layer (Some "conv2d") (Some conv1_params) None)]
                      None)]
         None.

Definition nested_state : gmap string (ndarray R) :=
  <[saved_weight_name ["conv1"] := zeros [4; 3; 3; 3]%nat]>
    (<[saved_weight_name ["block"; "conv1"] := zeros [6; 4; 3; 3]%nat]> ∅).

(** [load_model]: the feature extractor is rebuilt from
    [architecture['features']] and the [state_dict], under the module name
    [""]; the four values that [_build_module] returns are then unpacked
    into two names, which raises. *)
Definition load_model {State : Type} (handle : State → build_event → result State)
           (output_shape_prod : State → Z)
           (architecture : list (string * layer_config))
           (state_dict : gmap string (ndarray R)) (st : State) : result State :=
  features ← of_option KeyError
             (snd <$> List.find (fun entry => String.eqb (fst entry) "features")
                                architecture) ;
  '(st, _) ← _build_module handle output_shape_prod (Some state_dict) (Some "")
                           features st ;
  Err LibraryError.  (* [module, out_channels = ...]: too many values to unpack *)

(** ** Further definitions: [_pooling_markers], the skip connections and the vocabulary of the further properties *)

(** What [_prepare_markers] lists for one label image [m]: parallel
    arrays of coordinates and labels, one entry per marked pixel. *)
Definition lists_marked_pixels (m : ndarray Z)
           (prepared : list nat * list nat * list Z) : Prop :=
  let '(xs, ys, labels) := prepared in
  ∃ max_label,
    max_list (data m) = Ok max_label
    ∧ length xs = length labels ∧ length ys = length labels
    ∧ (∀ j, (j < length labels)%nat →
            let x := nth j xs 0%nat in
            let y := nth j ys 0%nat in
            Forall2 (fun i n => (i < n)%nat) [x; y] (shape m)
            ∧ nd_get 0 m [x; y] ≠ 0
            ∧ nth j labels 0
              = nd_get 0 m [x; y] - (if 1 <? max_label then 1 else 0))
    ∧ (∀ x y, Forall2 (fun i n => (i < n)%nat) [x; y] (shape m) →
              nd_get 0 m [x; y] ≠ 0 →
              ∃ j, (j < length labels)%nat ∧ nth j xs 0%nat = x ∧ nth j ys 0%nat = y).

(** The filters whose turn has come in the scan and that are kept have no
    kept filter similar to them. *)
Definition scanned_apart (M : list (list R)) (level : R) (n : nat)
           (scanned : list nat) (keep : list bool) : Prop :=
  ∀ i j, In i scanned → (j < n)%nat →
         nth i keep false = true → nth j keep false = true →
         (entry M i j < level)%R.

(** Every filter removed so far is similar to a kept filter whose turn
    has come. *)
Definition removed_covered (M : list (list R)) (level : R) (n : nat)
           (scanned : list nat) (keep : list bool) : Prop :=
  ∀ j, (j < n)%nat → nth j keep false = false →
       ∃ i, In i scanned ∧ (i < n)%nat ∧ nth i keep false = true
            ∧ (level <= entry M i j)%R.

(** The leaf of [conv1_params] built without markers or saved weights. *)
Definition conv1_random : conv_layer :=
  ConvLayer 3 8 [3; 3] (PInt 1) (PList [0; 0]) [1; 1] 1 false "zeros"
            (NdArray [8; 3; 3; 3]%nat (no_draws 216)).

(** The params of a linear leaf once [in_features] is resolved: [-1] is
    replaced by [np.prod(self._output_shape)]. *)
Definition resolved_in_features (size : Z) (operation_params : gmap string pyval)
  : gmap string pyval :=
  if bool_decide (operation_params !! "in_features" = Some (PInt (-1)))
  then <["in_features" := PInt size]> operation_params
  else operation_params.

(** ** [_pooling_markers] *)

(** [seq[k]] for a Python list and a constant index [k >= 0]. *)
Definition py_item (l : list Z) (k : nat) : result Z :=
  of_option LibraryError (l !! k).

(** An index into an axis of extent [n]: a negative index counts from the
    end, anything outside [-n, n) is an [IndexError]. *)
Definition py_index (i : Z) (n : nat) : result nat :=
  if (0 <=? i) && (i <? Z.of_nat n) then Ok (Z.to_nat i)
  else if (- Z.of_nat n <=? i) && (i <? 0) then Ok (Z.to_nat (i + Z.of_nat n))
  else Err LibraryError.

(** [extent + 2 * padding - kernel_size], the largest coordinate that is
    carried over. *)
Definition pooling_limit (extent : nat) (padding kernel_size : Z) : Z :=
  Z.of_nat extent + 2 * padding - kernel_size.

(** [math.floor((extent + 2*padding - kernel_size)/stride + 1)] *)
Definition pooled_extent (extent : nat) (padding kernel_size stride : Z) : result Z :=
  if stride =? 0 then Err LibraryError
  else Ok (pooling_limit extent padding kernel_size / stride + 1).

(** The loop over [zip(indices_x, indices_y)]: a marked pixel within the
    limits is written to [new_marker[x//stride][y//stride]]. *)
Fixpoint pooling_loop (x_limit y_limit stride : Z) (height width : nat)
         (marked : list (list nat * Z)) (new_marker : list Z) : result (list Z) :=
  match marked with
  | [] => Ok new_marker
  | (idx, value) :: rest =>
      let x := Z.of_nat (nth 0 idx 0%nat) in
      let y := Z.of_nat (nth 1 idx 0%nat) in
      if (x_limit <? x) || (y_limit <? y)
      then pooling_loop x_limit y_limit stride height width rest new_marker
      else
        i ← py_index (x / stride) height ;
        j ← py_index (y / stride) width ;
        pooling_loop x_limit y_limit stride height width rest
                     (<[(i * width + j)%nat := value]> new_marker)
  end.

(** The body of the loop over [markers], for one label image. *)
Definition pooling_marker (kernel_size padding : list Z) (stride : Z)
           (marker : ndarray Z) : result (ndarray Z) :=
  match shape marker with
  | [h; w] =>
      p0 ← py_item padding 0 ;
      k0 ← py_item kernel_size 0 ;
      height ← pooled_extent h p0 k0 stride ;
      p1 ← py_item padding 1 ;
      k1 ← py_item kernel_size 1 ;
      width ← pooled_extent w p1 k1 stride ;
      (* np.zeros refuses a negative extent *)
      if (height <? 0) || (width <? 0) then Err LibraryError else
      let height := Z.to_nat height in
      let width := Z.to_nat width in
      new_marker ← pooling_loop (pooling_limit h p0 k0) (pooling_limit w p1 k1)
                     stride height width (nonzero marker)
                     (repeat 0 (height * width)) ;
      Ok (NdArray [height; width] new_marker)
  | _ => Err LibraryError  (* [indices_x, indices_y = np.where(...)] *)
  end.

(** [_pooling_markers]: the pooled label images, which [np.array] stacks. *)
Definition _pooling_markers (markers : list (ndarray Z)) (kernel_size : list Z)
           (stride : Z) (padding : list Z) : result (list (ndarray Z)) :=
  mapR (pooling_marker kernel_size padding stride) markers.

(** What the loop does to a pixel: nothing beyond the limits, else a write
    of its label into its cell. *)
Definition pooling_write (x_limit y_limit stride : Z) (width : nat)
           (pixel : list nat * Z) : option (nat * Z) :=
  let x := Z.of_nat (nth 0 (fst pixel) 0%nat) in
  let y := Z.of_nat (nth 1 (fst pixel) 0%nat) in
  if (x_limit <? x) || (y_limit <? y) then None
  else Some ((Z.to_nat (x / stride) * width + Z.to_nat (y / stride))%nat, snd pixel).

(** The writes of a list of pixels, in order. *)
Definition write_all (writes : list (nat * Z)) (new_marker : list Z) : list Z :=
  fold_left (fun acc write => <[fst write := snd write]> acc) writes new_marker.

(** How a pooled label image relates to the image it comes from: a
    non-zero entry is the label of a marked pixel of its cell, within the
    limits, and a cell that holds such a pixel is not left at zero. *)
Definition pooled_cells (stride x_limit y_limit : Z) (marker new_marker : ndarray Z)
  : Prop :=
  ∀ i j, Forall2 (fun k n => (k < n)%nat) [i; j] (shape new_marker) →
    (nd_get 0 new_marker [i; j] ≠ 0 →
     ∃ x y, Forall2 (fun k n => (k < n)%nat) [x; y] (shape marker)
            ∧ nd_get 0 marker [x; y] = nd_get 0 new_marker [i; j]
            ∧ Z.of_nat x <= x_limit ∧ Z.of_nat y <= y_limit
            ∧ Z.of_nat x / stride = Z.of_nat i
            ∧ Z.of_nat y / stride = Z.of_nat j)
    ∧ (∀ x y, Forall2 (fun k n => (k < n)%nat) [x; y] (shape marker) →
              nd_get 0 marker [x; y] ≠ 0 →
              Z.of_nat x <= x_limit → Z.of_nat y <= y_limit →
              Z.of_nat x / stride = Z.of_nat i →
              Z.of_nat y / stride = Z.of_nat j →
              nd_get 0 new_marker [i; j] ≠ 0).

(** A label image of shape [4 x 4] with three marked pixels on its
    diagonal. *)
Definition diagonal_marker : ndarray Z :=
  NdArray [4; 4]%nat [1; 0; 0; 0;  0; 0; 0; 0;  0; 0; 2; 0;  0; 0; 0; 3].

(** ** Skip connections: [_find_skip_connections_in_module],
       [_find_skip_connections], [_find_outputs_to_save] *)

(** [f"{module_name}.{layer_name}" if module_name is not None else layer_name] *)
Definition key_name (module_name : option string) (layer_name : string) : string :=
  match module_name with
  | Some name => name +:+ "." +:+ layer_name
  | None => layer_name
  end.

(** The dictionary from the dotted name of an entry to its ['inputs'].  An
    entry with a ['type'] is searched as a module first ([skips.update(d)]
    lets [d] win); then the ['inputs'] of the entry itself, leaf or
    module, are recorded under its name. *)
Fixpoint _find_skip_connections_in_module (module_name : option string)
         (module : layer_config) {struct module}
  : result (gmap string (list string)) :=
  match module with
  | Layer _ _ _ => Err KeyError  (* [module['layers']] *)
  | Module _ layers _ =>
      (fix scan (layers : list (string * layer_config))
           (skips : gmap string (list string))
         : result (gmap string (list string)) :=
         match layers with
         | [] => Ok skips
         | (layer_name, layer_config) :: rest =>
             skips ←
               match layer_config with
               | Module (Some _) _ _ =>
                   submodules_skips ←
                     _find_skip_connections_in_module
                       (Some (key_name module_name layer_name)) layer_config ;
                   Ok (submodules_skips ∪ skips)
               | _ => Ok skips
               end ;
             scan rest
                  match inputs_of layer_config with
                  | Some inputs =>
                      <[key_name module_name layer_name := inputs]> skips
                  | None => skips
                  end
         end) layers ∅
  end.

Fixpoint find_skip_connections_loop (arch : list (string * layer_config))
         (skips : gmap string (list string)) : result (gmap string (list string)) :=
  match arch with
  | [] => Ok skips
  | (module_name, module_arch) :: rest =>
      sub_modules_skips ←
        _find_skip_connections_in_module (Some module_name) module_arch ;
      find_skip_connections_loop rest (sub_modules_skips ∪ skips)
  end.

Definition _find_skip_connections (arch : list (string * layer_config))
  : result (gmap string (list string)) :=
  find_skip_connections_loop arch ∅.

(** [outputs_to_save[layer_name] = True] for every name in every list of
    inputs. *)
Definition _find_outputs_to_save (skips : gmap string (list string))
  : gmap string bool :=
  map_fold (fun _ inputs outputs_to_save =>
              fold_left (fun outputs layer_name => <[layer_name := true]> outputs)
                        inputs outputs_to_save)
           ∅ skips.

(** An entry with ['inputs'], leaf or sub-module, sits at the dotted name
    [name] of a module; sub-modules are entered when they have a ['type']. *)
Inductive has_inputs : option string → layer_config → string → list string → Prop :=
| inputs_here (module_name : option string) (type : option string)
              (layers : list (string * layer_config))
              (module_inputs : option (list string)) (layer_name : string)
              (entry : layer_config) (inputs : list string) :
    In (layer_name, entry) layers →
    inputs_of entry = Some inputs →
    has_inputs module_name (Module type layers module_inputs)
               (key_name module_name layer_name) inputs
| inputs_below (module_name : option string) (type : option string)
               (layers : list (string * layer_config))
               (module_inputs : option (list string))
               (layer_name sub_type : string)
               (sub_layers : list (string * layer_config))
               (sub_inputs : option (list string))
               (name : string) (inputs : list string) :
    In (layer_name, Module (Some sub_type) sub_layers sub_inputs) layers →
    has_inputs (Some (key_name module_name layer_name))
               (Module (Some sub_type) sub_layers sub_inputs) name inputs →
    has_inputs module_name (Module type layers module_inputs) name inputs.

(** What the search of a module finds: every entry found is the inputs of
    an entry at that dotted name, and the dotted name of every entry with
    inputs is a key. *)
Definition finds_inputs (module_name : option string) (module : layer_config)
           (skips : gmap string (list string)) : Prop :=
  (∀ name inputs, skips !! name = Some inputs →
                  has_inputs module_name module name inputs)
  ∧ (∀ name inputs, has_inputs module_name module name inputs →
                    is_Some (skips !! name)).

(** A module with a convolution and a sub-module that is fed by the input
    image and the first convolution; the leaf of the sub-module reads the
    input image again. *)
Definition skip_arch : layer_config :=
  Module (Some "sequential")
         [("conv1", Layer (Some "conv2d") (Some conv1_params) None);
          ("block", Module (Some "sequential")
                      [("conv2", Layer (Some "conv2d") (Some conv1_params)
                                       (Some ["input"]))]
                      (Some ["input"; "conv1"]))]
         None.

(** The marked pixels of a batch in the order of [np.where], each with its
    image. *)
Definition marked_positions {A : Type} (images : list (ndarray A))
           (markers : list (ndarray Z)) : list (ndarray A * list nat) :=
  flat_map (fun pair => map (fun iv => (fst pair, fst iv)) (nonzero (snd pair)))
           (combine images markers).

(** A 2D image of [in_channels] channels with a marker map that is not
    larger than the image. *)
Definition markers_within {A : Type} (in_channels : nat)
           (pair : ndarray A * ndarray Z) : Prop :=
  ∃ H W h w, shape (fst pair) = [H; W; in_channels] ∧ shape (snd pair) = [h; w]
             ∧ (h <= H)%nat ∧ (w <= W)%nat.

(** The window read at a marked pixel: the origin is the pixel in the
    padded image, at channel 0. *)
Definition window_at {A : Type} (zero : A) (in_channels : nat) (dk : list nat)
           (offs : list (list nat)) (at_pixel : ndarray A * list nat) : list A :=
  window zero (fst at_pixel) (map (fun k => k / 2)%nat dk ++ [0%nat])
         (snd at_pixel ++ [0%nat]) (offs ++ [seq 0 in_channels]).

(** * Properties *)

(** ** The [result] monad *)

Lemma bind_Ok {A B : Type} (r : result A) (f : A → result B) (b : B) :
  r ≫= f = Ok b → ∃ a, r = Ok a ∧ f a = Ok b.
Proof. destruct r as [a|e]; simpl; [eauto | discriminate]. Qed.

Lemma fmap_Ok {A B : Type} (f : A → B) (r : result A) (b : B) :
  f <$> r = Ok b → ∃ a, r = Ok a ∧ b = f a.
Proof. destruct r as [a|e]; simpl; [intros [= <-]; eauto | discriminate]. Qed.

Lemma of_option_Ok {A : Type} (e : error) (o : option A) (a : A) :
  of_option e o = Ok a → o = Some a.
Proof. destruct o; simpl; congruence. Qed.

(** Splits a hypothesis [r ≫= f = Ok b] into its two steps. *)
Tactic Notation "bind_inv" hyp(H) "as" ident(a) ident(Ha) :=
  apply bind_Ok in H as (a & Ha & H).

(** ** Labels of the patches (claim C1) *)

Section PatchLabels.
Context {A : Type} (zero : A).

Lemma shifted_label_mono (ms ms' : list (ndarray Z)) (l : Z) :
  (∀ v, In v (concat (map data ms)) → In v (concat (map data ms'))) →
  shifted_label ms l → shifted_label ms' l.
Proof. intros Hsub (v & Hv & Hnz & ->). exists v; auto. Qed.

Lemma nonzero_In (m : ndarray Z) (iv : list nat * Z) :
  In iv (nonzero m) → In (snd iv) (data m) ∧ snd iv ≠ 0.
Proof.
  unfold nonzero. rewrite List.filter_In. intros [Hin Hnz]. split.
  - destruct iv as [i v]. eapply List.in_combine_r; eauto.
  - apply negb_true_iff, Z.eqb_neq in Hnz. exact Hnz.
Qed.

Lemma patches_of_image_labels (in_channels : nat) (dk : list nat)
      (offs : list (list nat)) (image : ndarray A) (m : ndarray Z)
      (ps : list (list A)) (ls : list Z) :
  patches_of_image zero in_channels dk offs image m = Ok (ps, ls) →
  Forall (shifted_label [m]) ls.
Proof.
  unfold patches_of_image. intros H.
  destruct (negb _); [discriminate|].
  destruct (negb _); [discriminate|].
  bind_inv H as markers_x Hx. bind_inv H as markers_y Hy.
  injection H as _ <-.
  apply List.Forall_forall. intros l Hl.
  apply List.in_map_iff in Hl as ([c l'] & <- & Hl).
  apply List.in_map_iff in Hl as ([b cl] & Hcl & Hl). simpl in Hcl. subst cl.
  apply List.filter_In in Hl as [Hl _].
  apply List.in_combine_r in Hl. apply List.in_combine_r in Hl.
  apply List.in_map_iff in Hl as (iv & <- & Hiv).
  apply nonzero_In in Hiv as [Hin Hnz].
  exists (snd iv). simpl. rewrite app_nil_r. auto.
Qed.

Lemma patches_loop_labels (in_channels : nat) (dk : list nat)
      (offs : list (list nat)) (pairs : list (ndarray A * ndarray Z))
      (acc : option (list (list A) * list Z)) (ms : list (ndarray Z))
      (ps : list (list A)) (ls : list Z) :
  (∀ m, In m (map snd pairs) → In m ms) →
  (∀ ps0 ls0, acc = Some (ps0, ls0) → Forall (shifted_label ms) ls0) →
  patches_loop zero in_channels dk offs pairs acc = Ok (Some (ps, ls)) →
  Forall (shifted_label ms) ls.
Proof.
  revert acc. induction pairs as [|[image m] pairs IH]; intros acc Hms Hacc H.
  - simpl in H. injection H as ->. eauto.
  - simpl in H. bind_inv H as n Hn.
    destruct (n =? 0)%nat.
    + apply (IH acc); auto. intros m' Hm'. apply Hms. simpl. auto.
    + bind_inv H as generated Hgen. destruct generated as [gp gl].
      apply IH in H; auto.
      * intros m' Hm'. apply Hms. simpl. auto.
      * assert (Hgl : Forall (shifted_label ms) gl).
        { apply patches_of_image_labels in Hgen.
          eapply List.Forall_impl; [|exact Hgen].
          intros l. apply shifted_label_mono. simpl. intros v Hv.
          rewrite app_nil_r in Hv. apply List.in_concat.
          exists (data m). split; [|exact Hv].
          apply List.in_map. apply Hms. simpl. auto. }
        intros ps0 ls0 Heq. destruct acc as [[ap al]|]; injection Heq as <- <-.
        -- apply List.Forall_app. split; eauto.
        -- exact Hgl.
Qed.

(** Every label returned by [_generate_patches] is a non-zero marker
    value minus one: the shift does not depend on the largest value. *)
Lemma generate_patches_labels_shifted (images : list (ndarray A))
      (markers : list (ndarray Z)) (in_channels : nat)
      (kernel_size dilation : list Z) (patches : ndarray A) (labels : list Z) :
  _generate_patches zero images markers in_channels kernel_size dilation
    = Ok (patches, labels) →
  Forall (shifted_label markers) labels.
Proof.
  unfold _generate_patches. intros H.
  destruct (negb _); [discriminate|].
  destruct (negb _); [discriminate|].
  bind_inv H as offs Hoffs. bind_inv H as all Hall.
  destruct all as [[ps ls]|]; [|discriminate].
  injection H as _ <-.
  eapply patches_loop_labels; [| |exact Hall].
  - intros m Hm. apply List.in_map_iff in Hm as ([i m'] & <- & Hm).
    eapply List.in_combine_r; eauto.
  - discriminate.
Qed.
End PatchLabels.

(** C1.  On a binary marker map (largest label 1) the patch extraction
    returns the labels shifted by one, [0] for every marked pixel, where
    the marker values are [1]; the unused sibling [_prepare_markers] leaves
    them unchanged on the same map.  (Images of shape [2 x 2 x 2], kernel
    [3 x 3], dilation 1.) *)
Theorem generate_patches_binary_markers_shifted :
  let image : ndarray Z := NdArray [2; 2; 2]%nat [1; 2; 3; 4; 5; 6; 7; 8] in
  let marker : ndarray Z := NdArray [2; 2]%nat [1; 0; 0; 1] in
  snd <$> _generate_patches 0 [image] [marker] 2 [3; 3] [1; 1] = Ok [0; 0]
  ∧ map snd <$> _prepare_markers [marker] = Ok [[1; 1]].
Proof. split; reflexivity. Qed.

(** ** The guard on the kernels per marker (claim C10) *)

(** C10.  The assertion that [number_of_kernels_per_marker] times the
    largest marker label reaches [out_channels] is guarded by [out_channels
    is not None] and has the same test as its first disjunct: the guard
    returns normally for every input, whatever the second disjunct would
    evaluate to or raise. *)
Theorem kernels_per_marker_guard_never_fails
        (number_of_kernels_per_marker : option Z)
        (markers : option (list (ndarray Z))) (out_channels : option pyval) :
  kernels_per_marker_guard number_of_kernels_per_marker markers out_channels
    = Ok tt.
Proof.
  unfold kernels_per_marker_guard.
  destruct (bool_decide (is_Some out_channels)); reflexivity.
Qed.

(** ** The default number of clusters per label (claim C5) *)





(** ** Duplicate-filter pruning (claims C4 and C9) *)

Section PruningFacts.
Local Open Scope R_scope.

Lemma Rleb_true (x y : R) : x <= y → Rleb x y = true.
Proof. unfold Rleb. destruct (Rle_dec x y); [reflexivity | contradiction]. Qed.

Lemma Rleb_false (x y : R) : y < x → Rleb x y = false.
Proof. unfold Rleb. destruct (Rle_dec x y); [lra | reflexivity]. Qed.

Lemma Rleb_false_inv (x y : R) : Rleb x y = false → y < x.
Proof. unfold Rleb. destruct (Rle_dec x y); [discriminate | lra]. Qed.

Lemma Rltb_true (x y : R) : x < y → Rltb x y = true.
Proof. unfold Rltb. destruct (Rlt_dec x y); [reflexivity | contradiction]. Qed.

Lemma similarity_range_ok (level : R) :
  0 < level <= 1 → negb (Rltb 0 level && Rleb level 1) = false.
Proof. intros [H0 H1]. rewrite Rltb_true, Rleb_true; auto. Qed.

Lemma similarity_range_inv (level : R) :
  negb (Rltb 0 level && Rleb level 1) = false → 0 < level <= 1.
Proof.
  unfold Rltb, Rleb.
  destruct (Rlt_dec 0 level), (Rle_dec level 1); simpl; (discriminate || lra).
Qed.

Variable M : list (list R).
Variable level : R.
Variable n : nat.
Hypothesis M_square : square n M.

Lemma prune_step_length (keep : list bool) (i : nat) :
  length keep = n → (i < n)%nat → length (prune_step M level keep i) = n.
Proof.
  intros Hk Hi. unfold prune_step. destruct (nth i keep false); [|exact Hk].
  rewrite length_zip_with, length_map, Hk, (M_square i Hi). lia.
Qed.

Lemma prune_step_nth (keep : list bool) (i j : nat) :
  length keep = n → (i < n)%nat → (j < n)%nat →
  nth j (prune_step M level keep i) false
  = nth j keep false && negb (nth i keep false && Rleb level (entry M i j)).
Proof.
  intros Hk Hi Hj. unfold prune_step.
  destruct (nth i keep false) eqn:Ei; simpl; [|rewrite andb_true_r; reflexivity].
  unfold entry. pose proof (M_square i Hi) as Hrow.
  set (row := nth i M []) in *. clearbody row.
  rewrite !nth_lookup, lookup_zip_with, list_lookup_fmap.
  destruct (keep !! j) as [k|] eqn:Ek.
  2:{ apply lookup_ge_None in Ek. lia. }
  destruct (row !! j) as [s|] eqn:Es.
  2:{ apply lookup_ge_None in Es. lia. }
  reflexivity.
Qed.

Lemma fold_prune_length (idxs : list nat) (keep : list bool) :
  length keep = n → Forall (fun i => (i < n)%nat) idxs →
  length (fold_left (prune_step M level) idxs keep) = n.
Proof.
  revert keep. induction idxs as [|i idxs IH]; intros keep Hk Hidxs; [exact Hk|].
  apply Forall_cons in Hidxs as [Hi Hidxs]. simpl.
  apply IH; [apply prune_step_length|]; assumption.
Qed.

(** A filter that idxs kept at the end was kept all along. *)
Lemma fold_prune_mono (idxs : list nat) (keep : list bool) (j : nat) :
  length keep = n → Forall (fun i => (i < n)%nat) idxs → (j < n)%nat →
  nth j (fold_left (prune_step M level) idxs keep) false = true →
  nth j keep false = true.
Proof.
  revert keep. induction idxs as [|i idxs IH]; intros keep Hk Hidxs Hj H; [exact H|].
  apply Forall_cons in Hidxs as [Hi Hidxs]. simpl in H.
  apply IH in H; [|apply prune_step_length|assumption ..]; try assumption.
  rewrite prune_step_nth in H by assumption.
  apply andb_true_iff in H as [H _]. exact H.
Qed.

(** Two filters that are both kept at the end, one of them scanned, have
    a similarity below the level. *)
Lemma fold_prune_independent (idxs : list nat) (keep : list bool) (i j : nat) :
  length keep = n → Forall (fun i => (i < n)%nat) idxs → (j < n)%nat →
  In i idxs →
  nth i (fold_left (prune_step M level) idxs keep) false = true →
  nth j (fold_left (prune_step M level) idxs keep) false = true →
  entry M i j < level.
Proof.
  revert keep. induction idxs as [|i0 idxs IH]; intros keep Hk Hidxs Hj Hin Hki Hkj;
    [contradiction|].
  apply Forall_cons in Hidxs as [Hi0 Hidxs]. simpl in Hki, Hkj.
  destruct (in_dec Nat.eq_dec i idxs) as [Hin'|Hnin].
  - apply (IH (prune_step M level keep i0)); auto using prune_step_length.
  - destruct Hin as [->|Hin]; [|contradiction].
    apply fold_prune_mono in Hki;
      [|apply prune_step_length; assumption|assumption ..].
    apply fold_prune_mono in Hkj;
      [|apply prune_step_length; assumption|assumption ..].
    rewrite prune_step_nth in Hki, Hkj by assumption.
    apply andb_true_iff in Hki as [Hki _].
    apply andb_true_iff in Hkj as [_ Hkj].
    rewrite Hki in Hkj. simpl in Hkj. apply negb_true_iff in Hkj.
    apply Rleb_false_inv. exact Hkj.
Qed.

(** When no entry reaches the level, a turn of the loop changes nothing. *)
Lemma prune_step_id (keep : list bool) (i : nat) :
  length keep = n → (i < n)%nat →
  (∀ j, (j < n)%nat → entry M i j < level) →
  prune_step M level keep i = keep.
Proof.
  intros Hk Hi Hlow. apply nth_ext with (d := false) (d' := false).
  - rewrite prune_step_length; auto.
  - intros j Hj. rewrite prune_step_length in Hj by assumption.
    rewrite prune_step_nth by assumption.
    rewrite (Rleb_false level (entry M i j)) by auto.
    rewrite andb_false_r. apply andb_true_r.
Qed.

Lemma fold_prune_id (idxs : list nat) (keep : list bool) :
  length keep = n → Forall (fun i => (i < n)%nat) idxs →
  (∀ i j, (i < n)%nat → (j < n)%nat → entry M i j < level) →
  fold_left (prune_step M level) idxs keep = keep.
Proof.
  intros Hk Hidxs Hlow. induction idxs as [|i idxs IH]; [reflexivity|].
  apply Forall_cons in Hidxs as [Hi Hidxs]. simpl.
  rewrite prune_step_id; auto.
Qed.

(** The first filter survives the scan: it does not suppress itself (the
    diagonal is 0), and a later filter similar to it has been suppressed
    by it before its turn (the matrix is symmetric). *)
Lemma fold_prune_first (idxs : list nat) (keep : list bool) :
  (0 < n)%nat → 0 < level →
  entry M 0 0 = 0 →
  (∀ i, (i < n)%nat → entry M i 0 = entry M 0 i) →
  length keep = n → Forall (fun i => (i < n)%nat) idxs →
  nth 0 keep false = true →
  (∀ j, (j < n)%nat → In j idxs → nth j keep false = true → entry M 0 j < level) →
  nth 0 (fold_left (prune_step M level) idxs keep) false = true.
Proof.
  intros Hn Hlevel Hdiag Hsym. revert keep.
  induction idxs as [|i idxs IH]; intros keep Hk Hidxs H0 Hlow; [exact H0|].
  apply Forall_cons in Hidxs as [Hi Hidxs]. simpl.
  apply IH; [apply prune_step_length; assumption|assumption| |].
  - rewrite prune_step_nth by assumption. rewrite H0. simpl.
    destruct (nth i keep false) eqn:Ei; [|reflexivity]. simpl.
    rewrite Rleb_false; [reflexivity|].
    rewrite Hsym by assumption. apply Hlow; simpl; auto.
  - intros j Hj Hin Hkj. rewrite prune_step_nth in Hkj by assumption.
    apply andb_true_iff in Hkj as [Hkj _]. apply Hlow; simpl; auto.
Qed.
End PruningFacts.

Section SimilarityMatrix.
Local Open Scope R_scope.

Lemma nth_map_seq {A : Type} (f : nat → A) (n i : nat) (d : A) :
  (i < n)%nat → nth i (map f (seq 0 n)) d = f i.
Proof.
  intros Hi. rewrite (nth_indep _ d (f 0%nat)) by (rewrite length_map, length_seq; exact Hi).
  rewrite map_nth, seq_nth by exact Hi. reflexivity.
Qed.

Lemma chunks_length {A : Type} (n d : nat) (l : list A) :
  length (chunks n d l) = n.
Proof. unfold chunks. rewrite length_map, length_seq. reflexivity. Qed.

Lemma flatten_1_length (filters : ndarray R) (rows : list (list R)) :
  flatten_1 filters = Ok rows → Some (length rows) = head (shape filters).
Proof.
  unfold flatten_1. destruct (shape filters) as [|n [|d rest]]; try discriminate.
  intros [= <-]. rewrite chunks_length. reflexivity.
Qed.

Lemma similarity_diag (rows : list (list R)) (i : nat) : similarity rows i i = 0.
Proof. unfold similarity. rewrite Nat.ltb_irrefl. reflexivity. Qed.

Lemma similarity_sym (rows : list (list R)) (i j : nat) :
  similarity rows i j = similarity rows j i.
Proof.
  unfold similarity.
  destruct (i <? j)%nat eqn:Eij, (j <? i)%nat eqn:Eji; try reflexivity.
  apply Nat.ltb_lt in Eij, Eji. lia.
Qed.

(** The matrix of [_compute_similarity_matrix] is square, with the
    entries of [similarity]. *)
Lemma similarity_matrix_entries (filters : ndarray R) (rows : list (list R)) :
  flatten_1 filters = Ok rows →
  ∃ M, _compute_similarity_matrix filters = Ok M
       ∧ square (length rows) M
       ∧ ∀ i j, (i < length rows)%nat → (j < length rows)%nat →
                entry M i j = similarity rows i j.
Proof.
  intros Hrows. unfold _compute_similarity_matrix. rewrite Hrows. simpl.
  eexists. split; [reflexivity|].
  destruct (length rows <=? 1)%nat eqn:En.
  - apply Nat.leb_le in En. split.
    + intros i Hi. assert (i = 0%nat) as -> by lia. simpl. lia.
    + intros i j Hi Hj. assert (i = 0%nat) as -> by lia.
      assert (j = 0%nat) as -> by lia. rewrite similarity_diag. reflexivity.
  - split.
    + intros i Hi. rewrite (nth_map_seq _ _ _ _ Hi), length_map, length_seq.
      reflexivity.
    + intros i j Hi Hj. unfold entry.
      rewrite (nth_map_seq _ _ _ _ Hi), (nth_map_seq _ _ _ _ Hj). reflexivity.
Qed.

Lemma keep_filters_length (M : list (list R)) (level : R) (n : nat) :
  square n M → length (keep_filters M level n) = n.
Proof.
  intros HM. unfold keep_filters. apply fold_prune_length; auto.
  - apply repeat_length.
  - apply List.Forall_forall. intros i Hi. apply in_seq in Hi. lia.
Qed.

Lemma seq_bounded (n : nat) : Forall (fun i => (i < n)%nat) (seq 0 n).
Proof. apply List.Forall_forall. intros i Hi. apply in_seq in Hi. lia. Qed.

Lemma nth_repeat_true (n j : nat) : (j < n)%nat → nth j (repeat true n) false = true.
Proof. intros Hj. rewrite nth_repeat_lt; auto. Qed.

(** Filter 0 is kept by the scan. *)
Lemma keep_filters_first (M : list (list R)) (level : R) (n : nat) :
  square n M → (0 < n)%nat → 0 < level →
  entry M 0 0 = 0 →
  (∀ i, (i < n)%nat → entry M i 0 = entry M 0 i) →
  nth 0 (keep_filters M level n) false = true.
Proof.
  intros HM Hn Hlevel Hdiag Hsym. unfold keep_filters.
  destruct n as [|n']; [lia|]. cbn [seq fold_left].
  assert (Hlen : length (repeat true (S n')) = S n') by apply repeat_length.
  apply (fold_prune_first M level (S n') HM); auto.
  - apply prune_step_length; auto.
  - apply List.Forall_forall. intros i Hi. apply in_seq in Hi. lia.
  - rewrite (prune_step_nth M level (S n') HM) by auto.
    rewrite nth_repeat_true by lia. simpl.
    rewrite Rleb_false; [reflexivity|]. rewrite Hdiag. exact Hlevel.
  - intros j Hj _ Hkj.
    rewrite (prune_step_nth M level (S n') HM) in Hkj by auto.
    rewrite !nth_repeat_true in Hkj by lia. simpl in Hkj.
    apply negb_true_iff in Hkj. apply Rleb_false_inv. exact Hkj.
Qed.

(** Filters that are both kept have a similarity below the level. *)
Lemma keep_filters_independent (M : list (list R)) (level : R) (n i j : nat) :
  square n M → (i < n)%nat → (j < n)%nat →
  nth i (keep_filters M level n) false = true →
  nth j (keep_filters M level n) false = true →
  entry M i j < level.
Proof.
  intros HM Hi Hj. unfold keep_filters.
  apply (fold_prune_independent M level n HM); auto using seq_bounded.
  - apply repeat_length.
  - apply in_seq. lia.
Qed.

(** Nothing is pruned when no similarity reaches the level. *)
Lemma keep_filters_all (M : list (list R)) (level : R) (n : nat) :
  square n M →
  (∀ i j, (i < n)%nat → (j < n)%nat → entry M i j < level) →
  keep_filters M level n = repeat true n.
Proof.
  intros HM Hlow. unfold keep_filters.
  apply (fold_prune_id M level n HM); auto using seq_bounded.
  apply repeat_length.
Qed.

Lemma select_length_le {A : Type} (keep : list bool) (rows : list A) :
  (length (select keep rows) <= length rows)%nat.
Proof.
  revert rows. induction keep as [|k keep IH]; intros [|r rows]; simpl; try lia.
  unfold select in *. simpl. specialize (IH rows). destruct k; simpl; lia.
Qed.

Lemma select_all {A : Type} (rows : list A) :
  select (repeat true (length rows)) rows = rows.
Proof.
  induction rows as [|r rows IH]; [reflexivity|].
  unfold select in *. simpl. rewrite IH. reflexivity.
Qed.

Lemma select_full_inv {A : Type} (keep : list bool) (rows : list A) :
  length keep = length rows →
  length (select keep rows) = length rows →
  keep = repeat true (length rows).
Proof.
  revert rows. induction keep as [|k keep IH]; intros [|r rows] Hlen Hsel;
    simpl in *; try discriminate; [reflexivity|].
  unfold select in *. simpl in Hsel. destruct k; simpl in Hsel.
  - f_equal. apply IH; lia.
  - pose proof (select_length_le keep rows) as Hle. unfold select in Hle. lia.
Qed.

Lemma select_first {A : Type} (keep : list bool) (rows : list A) :
  rows ≠ [] → nth 0 keep false = true → (1 <= length (select keep rows))%nat.
Proof.
  destruct rows as [|r rows]; [congruence|]. intros _.
  destruct keep as [|k keep]; simpl; [discriminate|]. intros ->.
  unfold select. simpl. lia.
Qed.

Lemma selected_filters_eq (filters : ndarray R) (level : R)
      (rows : list (list R)) (M : list (list R)) :
  flatten_1 filters = Ok rows → _compute_similarity_matrix filters = Ok M →
  0 < level <= 1 →
  selected_filters filters level
    = Ok (select (keep_filters M level (length rows)) rows).
Proof.
  intros Hrows HM Hlevel. unfold selected_filters.
  rewrite similarity_range_ok by exact Hlevel.
  rewrite HM. simpl. rewrite Hrows. reflexivity.
Qed.
End SimilarityMatrix.

(** C9.  On a layer with at least one filter and a similarity level in
    (0, 1], the scan keeps the filter at index 0: the selection of
    [_remove_similar_filters] is never empty, and the convolution it
    rebuilds has at least one output channel. *)
Theorem first_filter_always_kept (layer : conv_layer) (level : R)
        (rows : list (list R)) :
  flatten_1 (conv_weight layer) = Ok rows →
  rows ≠ [] →
  (0 < level <= 1)%R →
  ∃ M kept,
    _compute_similarity_matrix (conv_weight layer) = Ok M
    ∧ nth 0 (keep_filters M level (length rows)) false = true
    ∧ selected_filters (conv_weight layer) level = Ok kept
    ∧ (1 <= length kept)%nat
    ∧ ∀ layer', _remove_similar_filters layer level = Ok layer' →
                1 <= conv_out_channels layer'.
Proof.
  intros Hrows Hne Hlevel.
  destruct (similarity_matrix_entries _ _ Hrows) as (M & HM & Hsq & Hentry).
  assert (Hn : (0 < length rows)%nat) by (destruct rows; [congruence | simpl; lia]).
  assert (Hfirst : nth 0 (keep_filters M level (length rows)) false = true).
  { apply keep_filters_first; [exact Hsq | exact Hn | lra | |].
    - rewrite Hentry by assumption. apply similarity_diag.
    - intros i Hi. rewrite !Hentry by assumption. apply similarity_sym. }
  pose proof (selected_filters_eq _ _ _ _ Hrows HM Hlevel) as Hsel.
  pose proof (select_first _ _ Hne Hfirst) as Hkept.
  exists M, (select (keep_filters M level (length rows)) rows).
  repeat split; auto.
  intros layer' Hbuild. unfold _remove_similar_filters in Hbuild.
  rewrite Hsel in Hbuild. simpl in Hbuild.
  destruct (conv_bias layer && negb (conv_out_channels layer =? 1)); [discriminate|].
  unfold nn_ConvNd in Hbuild.
  match type of Hbuild with (if ?c then _ else _) = _ => destruct c end;
    [discriminate|].
  injection Hbuild as <-. simpl. lia.
Qed.

Lemma first_filter_always_kept_witness :
  ∃ M kept,
    _compute_similarity_matrix (NdArray [1; 2; 1; 1]%nat [1; 0]%R) = Ok M
    ∧ nth 0 (keep_filters M (85 / 100)%R 1) false = true
    ∧ selected_filters (NdArray [1; 2; 1; 1]%nat [1; 0]%R) (85 / 100)%R = Ok kept
    ∧ (1 <= length kept)%nat
    ∧ ∀ layer',
        _remove_similar_filters
          (ConvLayer 2 1 [1; 1] (PInt 1) (PList [0; 0]) [1; 1] 1 false "zeros"
                     (NdArray [1; 2; 1; 1]%nat [1; 0]%R))
          (85 / 100)%R = Ok layer' →
        1 <= conv_out_channels layer'.
Proof.
  apply (first_filter_always_kept
           (ConvLayer 2 1 [1; 1] (PInt 1) (PList [0; 0]) [1; 1] 1 false "zeros"
                      (NdArray [1; 2; 1; 1]%nat [1; 0]%R))
           (85 / 100)%R [[1; 0]%R]).
  - reflexivity.
  - discriminate.
  - lra.
Defined.

(** C4 (as the code has it).  For levels [t1 <= t2] in (0, 1]: the
    filters kept at [t1] have pairwise similarities below [t1], hence
    below [t2]; and when pruning at [t1] keeps every filter, so does
    pruning at [t2].  The number of kept filters itself is not monotone in
    the level (see [pruning_count_not_monotone] and
    [pruning_count_not_antitone]). *)
Theorem pruning_levels_related (filters : ndarray R) (t1 t2 : R)
        (rows : list (list R)) :
  flatten_1 filters = Ok rows →
  (0 < t1)%R → (t1 <= t2)%R → (t2 <= 1)%R →
  ∃ M s1 s2,
    _compute_similarity_matrix filters = Ok M
    ∧ selected_filters filters t1 = Ok s1
    ∧ selected_filters filters t2 = Ok s2
    ∧ (∀ i j, (i < length rows)%nat → (j < length rows)%nat →
              nth i (keep_filters M t1 (length rows)) false = true →
              nth j (keep_filters M t1 (length rows)) false = true →
              (entry M i j < t2)%R)
    ∧ (length s1 = length rows → length s2 = length rows).
Proof.
  intros Hrows H0 H12 H1.
  destruct (similarity_matrix_entries _ _ Hrows) as (M & HM & Hsq & Hentry).
  exists M. do 2 eexists.
  split; [exact HM|].
  split; [apply (selected_filters_eq _ _ _ _ Hrows HM); lra|].
  split; [apply (selected_filters_eq _ _ _ _ Hrows HM); lra|].
  assert (Hind : ∀ i j, (i < length rows)%nat → (j < length rows)%nat →
                   nth i (keep_filters M t1 (length rows)) false = true →
                   nth j (keep_filters M t1 (length rows)) false = true →
                   (entry M i j < t1)%R).
  { intros i j Hi Hj. apply keep_filters_independent; assumption. }
  split.
  - intros i j Hi Hj Hki Hkj. specialize (Hind i j Hi Hj Hki Hkj). lra.
  - intros Hfull.
    apply select_full_inv in Hfull; [|apply keep_filters_length; exact Hsq].
    rewrite (keep_filters_all M t2 (length rows) Hsq).
    + rewrite select_all. reflexivity.
    + intros i j Hi Hj.
      assert (entry M i j < t1)%R; [|lra].
      apply Hind; auto; rewrite Hfull; apply nth_repeat_true; assumption.
Qed.

Lemma pruning_levels_related_witness :
  ∃ M s1 s2,
    _compute_similarity_matrix (NdArray [2; 2; 1; 1]%nat [1; 0; 0; 1]%R) = Ok M
    ∧ selected_filters (NdArray [2; 2; 1; 1]%nat [1; 0; 0; 1]%R) (1 / 2)%R = Ok s1
    ∧ selected_filters (NdArray [2; 2; 1; 1]%nat [1; 0; 0; 1]%R) (7 / 10)%R = Ok s2
    ∧ (∀ i j, (i < 2)%nat → (j < 2)%nat →
              nth i (keep_filters M (1 / 2)%R 2) false = true →
              nth j (keep_filters M (1 / 2)%R 2) false = true →
              (entry M i j < 7 / 10)%R)
    ∧ (length s1 = 2%nat → length s2 = 2%nat).
Proof.
  apply (pruning_levels_related (NdArray [2; 2; 1; 1]%nat [1; 0; 0; 1]%R)
           (1 / 2)%R (7 / 10)%R [[1; 0]%R; [0; 1]%R]);
    [reflexivity | lra | lra | lra].
Defined.

Lemma sqrt_one_of (x : R) : x = 1%R → sqrt x = 1%R.
Proof. intros ->. apply sqrt_1. Qed.

Lemma two_filters_unit_norm : unit_norm two_filters.
Proof.
  intros rows [= <-].
  repeat constructor; unfold l2_norm; simpl; apply sqrt_one_of; lra.
Qed.

Lemma four_filters_unit_norm : unit_norm four_filters.
Proof.
  intros rows [= <-].
  repeat constructor; unfold l2_norm; simpl; apply sqrt_one_of; lra.
Qed.

(** Runs the scan of [selected_filters] on filters given by numerals: every
    comparison of the loop is settled by linear arithmetic. *)
Ltac eval_scan :=
  unfold keep_filters;
  repeat (cbn [seq fold_left map nth repeat prune_step zip_with andb negb
               similarity Nat.ltb Nat.leb inner sum_R fold_right];
          repeat match goal with
                 | |- context [Rleb ?a ?b] =>
                     first [ rewrite (Rleb_true a b) by lra
                           | rewrite (Rleb_false a b) by lra ]
                 end).

Ltac eval_selected :=
  unfold selected_filters; rewrite similarity_range_ok by lra;
  cbv [two_filters four_filters _compute_similarity_matrix flatten_1 shape data
       mbind result_bind chunks prod_nat fold_right Nat.mul Nat.add length Nat.leb];
  cbn [seq map firstn skipn Nat.mul Nat.add length];
  eval_scan.

Lemma two_filters_selected_low :
  selected_filters two_filters (1 / 2)%R = Ok [[1; 0]%R].
Proof. eval_selected. reflexivity. Qed.

Lemma two_filters_selected_high :
  selected_filters two_filters (7 / 10)%R = Ok [[1; 0]; [3 / 5; 4 / 5]]%R.
Proof. eval_selected. reflexivity. Qed.

Lemma four_filters_selected_low :
  selected_filters four_filters (3 / 5)%R
  = Ok [[3 / 5; 0; 4 / 5]; [4 / 5; 3 / 5; 0]; [4 / 5; - (3 / 5); 0]]%R.
Proof. eval_selected. reflexivity. Qed.

Lemma four_filters_selected_high :
  selected_filters four_filters (4 / 5)%R = Ok [[3 / 5; 0; 4 / 5]; [1; 0; 0]]%R.
Proof. eval_selected. reflexivity. Qed.

(** The claim as stated fails: at level 1/2 the two filters (inner product
    3/5) are pruned to one, at level 7/10 both are kept. *)
Lemma pruning_count_not_monotone :
  ¬ (∀ (filters : ndarray R) (t1 t2 : R) (s1 s2 : list (list R)),
        unit_norm filters →
        (0 < t1)%R → (t1 <= t2)%R → (t2 <= 1)%R →
        selected_filters filters t1 = Ok s1 →
        selected_filters filters t2 = Ok s2 →
        (length s2 <= length s1)%nat).
Proof.
  intros H.
  specialize (H two_filters (1 / 2)%R (7 / 10)%R _ _ two_filters_unit_norm
                ltac:(lra) ltac:(lra) ltac:(lra)
                two_filters_selected_low two_filters_selected_high).
  simpl in H. lia.
Qed.

(** Nor does the opposite order hold: at level 3/5 three of the four
    filters are kept, at level 4/5 only two. *)
Lemma pruning_count_not_antitone :
  ¬ (∀ (filters : ndarray R) (t1 t2 : R) (s1 s2 : list (list R)),
        unit_norm filters →
        (0 < t1)%R → (t1 <= t2)%R → (t2 <= 1)%R →
        selected_filters filters t1 = Ok s1 →
        selected_filters filters t2 = Ok s2 →
        (length s1 <= length s2)%nat).
Proof.
  intros H.
  specialize (H four_filters (3 / 5)%R (4 / 5)%R _ _ four_filters_unit_norm
                ltac:(lra) ltac:(lra) ltac:(lra)
                four_filters_selected_low four_filters_selected_high).
  simpl in H. lia.
Qed.

(** ** Per-label clustering (claim C3) *)

Lemma chunks_width {A : Type} (n d : nat) (l : list A) :
  length l = (n * d)%nat → Forall (fun row => length row = d) (chunks n d l).
Proof.
  intros Hlen. unfold chunks. apply List.Forall_forall. intros row Hrow.
  apply List.in_map_iff in Hrow as (i & <- & Hi). apply in_seq in Hi.
  rewrite length_firstn, length_skipn, Hlen. nia.
Qed.

Lemma concat_width {A : Type} (d : nat) (rows : list (list A)) :
  Forall (fun row => length row = d) rows →
  length (concat rows) = (length rows * d)%nat.
Proof.
  induction 1 as [|row rows Hrow _ IH]; [reflexivity|].
  simpl. rewrite length_app, IH, Hrow. reflexivity.
Qed.

Lemma reshape_rows_width {A : Type} (rest : list nat) (rows : list (list A)) :
  prod_nat rest ≠ 0%nat →
  Forall (fun row => length row = prod_nat rest) rows →
  reshape_rows rest (concat rows) = Ok (NdArray (length rows :: rest) (concat rows)).
Proof.
  intros Hd Hrows. unfold reshape_rows.
  rewrite (concat_width _ _ Hrows).
  destruct (prod_nat rest =? 0)%nat eqn:E; [apply Nat.eqb_eq in E; contradiction|].
  rewrite Nat.Div0.mod_mul, Nat.eqb_refl, Nat.div_mul by exact Hd. reflexivity.
Qed.

Lemma insert_unique_nonempty (x : Z) (l : list Z) : insert_unique x l ≠ [].
Proof.
  destruct l as [|y l]; simpl; [discriminate|].
  destruct (x <? y); [discriminate|]. destruct (x =? y); discriminate.
Qed.

Lemma np_unique_nonempty (labels : list Z) : labels ≠ [] → np_unique labels ≠ [].
Proof.
  destruct labels as [|l labels]; [congruence|]. intros _. simpl.
  apply insert_unique_nonempty.
Qed.

Lemma mapR_Ok {A B : Type} (f : A → result B) (g : A → B) (l : list A) :
  (∀ a, In a l → f a = Ok (g a)) → mapR f l = Ok (map g l).
Proof.
  induction l as [|a l IH]; intros Hf; [reflexivity|].
  simpl. rewrite (Hf a) by (simpl; auto). simpl.
  rewrite IH by (intros a' Ha'; apply Hf; simpl; auto). reflexivity.
Qed.

Lemma insert_unique_In (x y : Z) (l : list Z) :
  In y (insert_unique x l) ↔ y = x ∨ In y l.
Proof.
  induction l as [|z l IH]; simpl; [intuition|].
  destruct (x <? z) eqn:Hlt; [simpl; intuition|].
  destruct (x =? z) eqn:Heq.
  - apply Z.eqb_eq in Heq. subst. simpl. intuition.
  - simpl. rewrite IH. intuition.
Qed.

Lemma np_unique_In (y : Z) (l : list Z) : In y (np_unique l) ↔ In y l.
Proof.
  induction l as [|x l IH]; simpl; [reflexivity|].
  rewrite insert_unique_In, IH. intuition.
Qed.

Lemma insert_unique_sorted (x : Z) (l : list Z) :
  StronglySorted Z.lt l → StronglySorted Z.lt (insert_unique x l).
Proof.
  induction 1 as [|z l Hs IH Hz]; simpl; [repeat constructor|].
  destruct (x <? z) eqn:Hlt.
  - apply Z.ltb_lt in Hlt. constructor; [constructor; assumption|].
    constructor; [exact Hlt|].
    eapply List.Forall_impl; [|exact Hz]. simpl. intros; lia.
  - destruct (x =? z) eqn:Heq; [constructor; assumption|].
    constructor; [exact IH|].
    apply List.Forall_forall. intros y Hy. apply insert_unique_In in Hy as [->|Hy].
    + apply Z.ltb_ge in Hlt. apply Z.eqb_neq in Heq. lia.
    + rewrite List.Forall_forall in Hz. auto.
Qed.

Lemma np_unique_sorted (l : list Z) : StronglySorted Z.lt (np_unique l).
Proof.
  induction l as [|x l IH]; simpl; [constructor|]. apply insert_unique_sorted, IH.
Qed.


Section ClusteringFacts.
Context {A : Type}.
Variable KMeans : nat → list (list A) → list (list A).

(** What is assumed of scikit-learn: [k] centres for [k] clusters, each as
    wide as the samples. *)
Hypothesis KMeans_centers :
  ∀ k X, (1 <= k <= length X)%nat → length (KMeans k X) = k.
Hypothesis KMeans_width :
  ∀ k X d, Forall (fun x => length x = d) X →
           Forall (fun c => length c = d) (KMeans k X).

Lemma rows_with_label_length (rows : list (list A)) (labels : list Z) (label : Z) :
  length rows = length labels →
  length (rows_with_label rows labels label) = marked_pixels labels label.
Proof.
  unfold rows_with_label, marked_pixels. rewrite length_map.
  revert labels. induction rows as [|r rows IH]; intros [|l labels] Hlen;
    simpl in *; try discriminate; [reflexivity|].
  destruct (label =? l); simpl; rewrite IH by lia; reflexivity.
Qed.

Lemma rows_with_label_width (rows : list (list A)) (labels : list Z) (label : Z)
      (d : nat) :
  Forall (fun row => length row = d) rows →
  Forall (fun row => length row = d) (rows_with_label rows labels label).
Proof.
  intros Hrows. unfold rows_with_label. apply List.Forall_forall. intros row Hrow.
  apply List.in_map_iff in Hrow as ([r l] & <- & Hin).
  apply List.filter_In in Hin as [Hin _]. apply List.in_combine_l in Hin.
  rewrite List.Forall_forall in Hrows. auto.
Qed.

(** The block of kernels of one label. *)
Lemma roots_of_label_spec (n_clusters_per_label : Z) (rows : list (list A))
      (labels : list Z) (label : Z) :
  length rows = length labels →
  (Z.of_nat (marked_pixels labels label) <= n_clusters_per_label →
   roots_of_label KMeans n_clusters_per_label rows labels label
     = Ok (rows_with_label rows labels label))
  ∧ (1 <= n_clusters_per_label < Z.of_nat (marked_pixels labels label) →
     roots_of_label KMeans n_clusters_per_label rows labels label
       = Ok (KMeans (Z.to_nat n_clusters_per_label)
                    (rows_with_label rows labels label))
     ∧ length (KMeans (Z.to_nat n_clusters_per_label)
                      (rows_with_label rows labels label))
       = Z.to_nat n_clusters_per_label).
Proof.
  intros Hlen. unfold roots_of_label.
  rewrite (rows_with_label_length _ _ _ Hlen). split.
  - intros Hle. destruct (_ <? _) eqn:E; [apply Z.ltb_lt in E; lia | reflexivity].
  - intros [H1 Hlt]. destruct (_ <? _) eqn:E; [|apply Z.ltb_ge in E; lia].
    unfold kmeans_cluster_centers.
    rewrite (rows_with_label_length _ _ _ Hlen).
    destruct (n_clusters_per_label <? 1) eqn:E1; [apply Z.ltb_lt in E1; lia|].
    destruct (_ <? n_clusters_per_label) eqn:E2; [apply Z.ltb_lt in E2; lia|].
    split; [reflexivity|].
    apply KMeans_centers. rewrite (rows_with_label_length _ _ _ Hlen). lia.
Qed.

Lemma roots_of_label_block (n_clusters_per_label : Z) (rows : list (list A))
      (labels : list Z) (label : Z) :
  length rows = length labels → 1 <= n_clusters_per_label →
  roots_of_label KMeans n_clusters_per_label rows labels label
    = Ok (block_of_label KMeans n_clusters_per_label rows labels label)
  ∧ length (block_of_label KMeans n_clusters_per_label rows labels label)
    = kernels_of_label n_clusters_per_label labels label.
Proof.
  intros Hlen H1.
  destruct (roots_of_label_spec n_clusters_per_label rows labels label Hlen)
    as [Hfew Hmany].
  unfold block_of_label, kernels_of_label.
  destruct (_ <? _) eqn:E.
  - apply Z.ltb_lt in E. destruct Hmany as [-> ->]; [lia|]. auto.
  - apply Z.ltb_ge in E. rewrite Hfew by lia.
    rewrite (rows_with_label_length _ _ _ Hlen). auto.
Qed.

Lemma block_of_label_width (n_clusters_per_label : Z) (rows : list (list A))
      (labels : list Z) (label : Z) (d : nat) :
  Forall (fun row => length row = d) rows →
  Forall (fun row => length row = d)
         (block_of_label KMeans n_clusters_per_label rows labels label).
Proof.
  intros Hrows. unfold block_of_label.
  destruct (_ <? _); [apply KMeans_width|]; apply rows_with_label_width; exact Hrows.
Qed.

Lemma concat_blocks_length (blocks : list (list (list A))) :
  length (concat blocks) = list_sum (map length blocks).
Proof.
  induction blocks as [|b blocks IH]; [reflexivity|].
  simpl. rewrite length_app, IH. reflexivity.
Qed.

Lemma concat_blocks_width (blocks : list (list (list A))) (d : nat) :
  Forall (Forall (fun row => length row = d)) blocks →
  Forall (fun row => length row = d) (concat blocks).
Proof.
  induction 1 as [|b blocks Hb _ IH]; [constructor|].
  simpl. apply List.Forall_app. split; assumption.
Qed.

(** [_kmeans_roots] on a well-formed batch of patches with one label per
    patch: it returns, and its kernels are the blocks of the labels in
    ascending order. *)
Lemma kmeans_roots_blocks (n : nat) (rest : list nat) (elements : list A)
      (labels : list Z) (n_clusters_per_label : Z) :
  well_formed (NdArray (n :: rest) elements) →
  length labels = n → labels ≠ [] → prod_nat rest ≠ 0%nat →
  1 <= n_clusters_per_label →
  let rows := chunks n (prod_nat rest) elements in
  let blocks := map (block_of_label KMeans n_clusters_per_label rows labels)
                    (np_unique labels) in
  _kmeans_roots KMeans (NdArray (n :: rest) elements) labels n_clusters_per_label
    = Ok (NdArray (length (concat blocks) :: rest) (concat (concat blocks))).
Proof.
  intros Hwf Hlabels Hne Hd H1 rows blocks.
  unfold _kmeans_roots, rows_of. cbn [shape data mbind result_bind].
  fold rows.
  assert (Hrows : length rows = length labels)
    by (unfold rows; rewrite chunks_length; auto).
  rewrite Hrows, Nat.eqb_refl. cbn [negb].
  rewrite (mapR_Ok _ (block_of_label KMeans n_clusters_per_label rows labels)).
  2:{ intros label _. apply roots_of_label_block; assumption. }
  cbn [mbind result_bind]. fold blocks.
  pose proof (np_unique_nonempty labels Hne) as Hu.
  destruct (np_unique labels) as [|l0 ls] eqn:Eu; [congruence|].
  cbn [tail shape]. apply reshape_rows_width; [exact Hd|].
  apply concat_blocks_width. subst blocks.
  apply List.Forall_forall. intros b Hb.
  apply List.in_map_iff in Hb as (label & <- & _).
  apply block_of_label_width. unfold rows. apply chunks_width.
  unfold well_formed in Hwf. simpl in Hwf. exact Hwf.
Qed.
End ClusteringFacts.



(** ** Reduction to the requested number of kernels (claim C2) *)

Lemma flat_map_length_const {A B : Type} (f : A → list B) (l : list A) (m : nat) :
  (∀ a, length (f a) = m) → length (flat_map f l) = (length l * m)%nat.
Proof.
  intros Hf. induction l as [|a l IH]; [reflexivity|].
  simpl. rewrite length_app, Hf, IH. reflexivity.
Qed.

Lemma cartesian_length (axes : list (list nat)) :
  length (cartesian axes) = prod_nat (map length axes).
Proof.
  induction axes as [|a axes IH]; [reflexivity|].
  simpl. rewrite (flat_map_length_const _ _ (length (cartesian axes))).
  - rewrite IH. reflexivity.
  - intros i. apply length_map.
Qed.

Lemma map_length_seq (l : list nat) : map length (map (seq 0) l) = l.
Proof.
  induction l as [|x l IH]; [reflexivity|].
  simpl. rewrite length_seq, IH. reflexivity.
Qed.

Lemma transpose_well_formed {A : Type} (zero : A) (perm : list nat)
      (t t' : ndarray A) :
  transpose zero perm t = Ok t' →
  well_formed t' ∧ shape t' = map (fun p => nth p (shape t) 0%nat) perm.
Proof.
  unfold transpose. destruct (negb _); [discriminate|]. intros [= <-].
  split; [|reflexivity]. unfold well_formed. simpl.
  rewrite length_map, cartesian_length, map_length_seq. reflexivity.
Qed.

Lemma reshape_rows_Ok {A : Type} (rest : list nat) (elements : list A)
      (t : ndarray A) :
  reshape_rows rest elements = Ok t →
  well_formed t ∧ prod_nat rest ≠ 0%nat
  ∧ t = NdArray ((length elements / prod_nat rest)%nat :: rest) elements.
Proof.
  unfold reshape_rows.
  destruct (prod_nat rest =? 0)%nat eqn:Ed; [discriminate|].
  destruct (length elements mod prod_nat rest =? 0)%nat eqn:Em; [|discriminate].
  simpl. intros [= <-]. apply Nat.eqb_neq in Ed. apply Nat.eqb_eq in Em.
  split; [|split; [exact Ed | reflexivity]].
  unfold well_formed. simpl.
  pose proof (Nat.div_mod (length elements) (prod_nat rest) Ed). lia.
Qed.

Lemma kmeans_roots_well_formed {A : Type}
      (KMeans : nat → list (list A) → list (list A)) (patches : ndarray A)
      (labels : list Z) (n_clusters_per_label : Z) (kernels : ndarray A) :
  _kmeans_roots KMeans patches labels n_clusters_per_label = Ok kernels →
  well_formed kernels
  ∧ prod_nat (tail (shape patches)) ≠ 0%nat
  ∧ ∃ n, shape kernels = n :: tail (shape patches).
Proof.
  unfold _kmeans_roots. intros H. bind_inv H as possible Hpossible.
  destruct (negb _); [discriminate|]. bind_inv H as per_label Hper.
  destruct (np_unique labels); [discriminate|].
  apply reshape_rows_Ok in H as (Hwf & Hd & ->). eauto.
Qed.

Lemma concat_map_width {A : Type} (f : list A → list A) (d : nat)
      (rows : list (list A)) :
  (∀ row, length (f row) = length row) →
  Forall (fun row => length row = d) rows →
  length (concat (map f rows)) = (length rows * d)%nat.
Proof.
  intros Hf Hrows. rewrite (concat_width d).
  - rewrite length_map. reflexivity.
  - apply List.Forall_forall. intros row Hrow.
    apply List.in_map_iff in Hrow as (r & <- & Hr).
    rewrite Hf. rewrite List.Forall_forall in Hrows. auto.
Qed.

Lemma reshape_2d_Ok {A : Type} (t : ndarray A) (rows : list (list A)) :
  reshape_2d t = Ok rows →
  ∃ n rest, shape t = n :: rest ∧ n ≠ 0%nat
            ∧ rows = chunks n (prod_nat rest) (data t).
Proof.
  unfold reshape_2d. destruct (shape t) as [|n rest]; [discriminate|].
  destruct (n =? 0)%nat eqn:En; [discriminate|]. intros [= <-].
  apply Nat.eqb_neq in En. eauto.
Qed.

Section SynthesisFacts.
Variable KMeans : nat → list (list R) → list (list R).
Variable PCA_components : nat → list (list R) → list (list R).
Variable rand : nat → list R.

Lemma normalize_kernel_length (kernel : list R) :
  length (normalize_kernel kernel) = length kernel.
Proof. apply length_map. Qed.

(** The kernels of [_calculate_convNd_weights]: a well-formed tensor with
    at least one kernel and kernels that are not empty. *)
Lemma calculate_weights_shape (images : list (ndarray R))
      (markers : list (ndarray Z)) (in_channels : nat)
      (kernel_size dilation : list Z) (number_of_kernels_per_marker : Z)
      (default_std : R) (kernels : ndarray R) :
  _calculate_convNd_weights KMeans images markers in_channels kernel_size
    dilation number_of_kernels_per_marker default_std = Ok kernels →
  well_formed kernels
  ∧ ∃ n rest, shape kernels = n :: rest ∧ n ≠ 0%nat ∧ prod_nat rest ≠ 0%nat.
Proof.
  unfold _calculate_convNd_weights. intros H.
  apply bind_Ok in H as ([patches labels] & _ & H).
  apply bind_Ok in H as (standardized & _ & H).
  apply bind_Ok in H as (kernel_weights & Hroots & H).
  apply bind_Ok in H as (rows & Hrows & H).
  injection H as <-.
  apply kmeans_roots_well_formed in Hroots as (Hwf & Hd & n & Hshape).
  apply reshape_2d_Ok in Hrows as (n' & rest & Hshape' & Hn & ->).
  rewrite Hshape in Hshape'. injection Hshape' as <- <-.
  unfold well_formed in *. cbn [shape data]. rewrite Hshape in *. split.
  - cbn [prod_nat fold_right] in *.
    rewrite (concat_map_width _ (prod_nat (tail (shape standardized)))).
    + rewrite chunks_length. reflexivity.
    + apply normalize_kernel_length.
    + apply chunks_width. exact Hwf.
  - eauto.
Qed.

Lemma marker_kernels_shape (images : list (ndarray R))
      (markers : list (ndarray Z)) (in_channels : nat)
      (kernel_size dilation : list Z) (number_of_kernels_per_marker : option Z)
      (default_std : R) (kernels : ndarray R) :
  marker_kernels KMeans images markers in_channels kernel_size dilation
    number_of_kernels_per_marker default_std = Ok kernels →
  well_formed kernels
  ∧ ∃ n rest, shape kernels = n :: rest ∧ n ≠ 0%nat ∧ prod_nat rest ≠ 0%nat.
Proof.
  unfold marker_kernels. intros H.
  apply bind_Ok in H as (nkpm & _ & H).
  apply bind_Ok in H as (calculated & Hcalc & H).
  apply calculate_weights_shape in Hcalc as (_ & n & rest & Hshape & Hn & Hd).
  destruct (ndim calculated =? 4)%nat eqn:E4.
  - apply transpose_well_formed in H as [Hwf Hs]. split; [exact Hwf|].
    unfold ndim in E4. rewrite Hshape in *.
    destruct rest as [|a [|b [|c [|? ?]]]]; try discriminate.
    rewrite Hs. cbn. exists n, [c; a; b]. repeat split; auto.
    cbn in *. lia.
  - pose proof H as Hperm. unfold transpose in Hperm.
    destruct (negb _) eqn:E5; [discriminate|]. clear Hperm.
    apply negb_false_iff, Nat.eqb_eq in E5.
    apply transpose_well_formed in H as [Hwf Hs]. split; [exact Hwf|].
    unfold ndim in E5. rewrite Hshape in *.
    destruct rest as [|a [|b [|c [|e [|? ?]]]]]; try discriminate.
    rewrite Hs. cbn. exists n, [e; c; a; b]. repeat split; auto.
    cbn in *. lia.
Qed.
End SynthesisFacts.

Lemma np_unique_repeat (x : Z) (n : nat) : n ≠ 0%nat → np_unique (repeat x n) = [x].
Proof.
  destruct n as [|n]; [congruence|]. intros _.
  induction n as [|n IH]; [reflexivity|].
  change (repeat x (S (S n))) with (x :: repeat x (S n)).
  unfold np_unique in *. cbn [fold_right]. rewrite IH. simpl.
  rewrite Z.ltb_irrefl, Z.eqb_refl. reflexivity.
Qed.

Lemma marked_pixels_repeat (x : Z) (n : nat) : marked_pixels (repeat x n) x = n.
Proof.
  unfold marked_pixels. induction n as [|n IH]; [reflexivity|].
  simpl. rewrite Z.eqb_refl. simpl. rewrite IH. reflexivity.
Qed.

Section ReductionFacts.
Variable KMeans : nat → list (list R) → list (list R).
Variable PCA_components : nat → list (list R) → list (list R).

Hypothesis KMeans_centers :
  ∀ k X, (1 <= k <= length X)%nat → length (KMeans k X) = k.
Hypothesis KMeans_width :
  ∀ k X d, Forall (fun x => length x = d) X →
           Forall (fun c => length c = d) (KMeans k X).
(** [PCA(n_components=k)] on [n] samples of [d] features, [k <= min(n, d)]:
    [k] components of [d] features. *)
Hypothesis PCA_shape :
  ∀ k X d, Forall (fun x => length x = d) X →
           (k <= length X)%nat → (k <= d)%nat →
           length (PCA_components k X) = k
           ∧ Forall (fun c => length c = d) (PCA_components k X).

Lemma select_kernels_with_pca_exact (kernels : ndarray R) (n : nat)
      (rest : list nat) (k : Z) :
  well_formed kernels → shape kernels = n :: rest →
  0 <= k < Z.of_nat n → k < Z.of_nat (prod_nat rest) →
  ∃ selected, _select_kernels_with_pca PCA_components kernels k = Ok selected
              ∧ shape selected = Z.to_nat k :: rest.
Proof.
  intros Hwf Hshape Hk Hd. unfold _select_kernels_with_pca, reshape_2d.
  rewrite Hshape. cbn [tail].
  destruct (n =? 0)%nat eqn:En; [apply Nat.eqb_eq in En; lia|].
  cbn [mbind result_bind]. rewrite chunks_length.
  destruct (Z.of_nat n <? k) eqn:E1; [apply Z.ltb_lt in E1; lia|].
  destruct (Z.of_nat (prod_nat rest) <? k) eqn:E2; [apply Z.ltb_lt in E2; lia|].
  cbn [orb]. destruct (k <? 0) eqn:E3; [apply Z.ltb_lt in E3; lia|].
  unfold well_formed in Hwf. rewrite Hshape in Hwf. cbn in Hwf.
  destruct (PCA_shape (Z.to_nat k) (chunks n (prod_nat rest) (data kernels))
                      (prod_nat rest)) as [Hlen Hwidth].
  { apply chunks_width. exact Hwf. }
  { rewrite chunks_length. lia. }
  { lia. }
  rewrite reshape_rows_width; [|lia|exact Hwidth].
  rewrite Hlen. eauto.
Qed.

Lemma recluster_exact (kernels : ndarray R) (n : nat) (rest : list nat) (k : Z) :
  well_formed kernels → shape kernels = n :: rest →
  prod_nat rest ≠ 0%nat → 1 <= k < Z.of_nat n →
  ∃ roots, _kmeans_roots KMeans kernels (repeat 1 n) k = Ok roots
           ∧ shape roots = Z.to_nat k :: rest.
Proof.
  intros Hwf Hshape Hd Hk. destruct kernels as [shp elements].
  cbn [shape] in Hshape. subst shp.
  rewrite (kmeans_roots_blocks KMeans KMeans_centers KMeans_width);
    auto using repeat_length.
  2:{ destruct n; [lia | discriminate]. }
  2:{ lia. }
  eexists. split; [reflexivity|]. cbn [shape]. f_equal.
  rewrite np_unique_repeat by lia. cbn [map concat]. rewrite app_nil_r.
  destruct (roots_of_label_block KMeans KMeans_centers k
              (chunks n (prod_nat rest) elements) (repeat 1 n) 1) as [_ Hlen].
  { rewrite chunks_length, repeat_length. reflexivity. }
  { lia. }
  rewrite Hlen. unfold kernels_of_label. rewrite marked_pixels_repeat.
  destruct (k <? Z.of_nat n) eqn:E; [reflexivity | apply Z.ltb_ge in E; lia].
Qed.

(** The three cases of the reduction of the marker path. *)
Lemma reduce_to_out_channels_spec (kernels : ndarray R) (n : nat)
      (rest : list nat) (out_channels : Z) :
  well_formed kernels → shape kernels = n :: rest →
  prod_nat rest ≠ 0%nat → 1 <= out_channels →
  let reduced := reduce_to_out_channels KMeans PCA_components
                                        (Some out_channels) kernels in
  (Z.of_nat n < out_channels → reduced = Err AssertNotEnoughKernels)
  ∧ (out_channels = Z.of_nat n → reduced = Ok kernels)
  ∧ (out_channels < Z.of_nat n →
     ∃ weights, reduced = Ok weights
                ∧ shape weights = Z.to_nat out_channels :: rest
                ∧ reduced
                  = if out_channels <? Z.of_nat (prod_nat rest)
                    then _select_kernels_with_pca PCA_components kernels out_channels
                    else _kmeans_roots KMeans kernels (repeat 1 n) out_channels).
Proof.
  intros Hwf Hshape Hd H1 reduced. subst reduced.
  unfold reduce_to_out_channels, len. rewrite Hshape.
  cbn [mbind result_bind tail]. repeat split.
  - intros Hlt. destruct (_ <? _) eqn:E; [reflexivity | apply Z.ltb_ge in E; lia].
  - intros ->. rewrite !Z.ltb_irrefl. reflexivity.
  - intros Hlt.
    destruct (Z.of_nat n <? out_channels) eqn:E; [apply Z.ltb_lt in E; lia|].
    destruct (out_channels <? Z.of_nat n) eqn:E'; [|apply Z.ltb_ge in E'; lia].
    cbn [andb].
    destruct (out_channels <? Z.of_nat (prod_nat rest)) eqn:Ed.
    + apply Z.ltb_lt in Ed.
      destruct (select_kernels_with_pca_exact kernels n rest out_channels
                  Hwf Hshape ltac:(lia) ltac:(lia)) as (selected & Hsel & Hs).
      exists selected. rewrite Hsel. auto.
    + destruct (recluster_exact kernels n rest out_channels
                  Hwf Hshape Hd ltac:(lia)) as (roots & Hroots & Hs).
      exists roots. rewrite Hroots. auto.
Qed.
End ReductionFacts.

(** C2.  On the marker path with [out_channels] requested (at least 1):
    when the synthesis has generated fewer kernels than requested,
    [_initialize_convNd_weights] fails on its assertion ("Not enough
    kernels were generated!!!") and pads nothing; when it has generated
    more, the kernels are reduced by PCA if a flattened kernel has more
    than [out_channels] entries and by a second clustering under one label
    otherwise; in every case that returns, the first dimension of the
    weights is exactly [out_channels]. *)
Theorem initialize_weights_exact_out_channels
        (KMeans PCA_components : nat → list (list R) → list (list R))
        (rand : nat → list R)
        (images : list (ndarray R)) (markers : list (ndarray Z))
        (in_channels : nat) (out_channels : Z) (kernel_size dilation : list Z)
        (number_of_kernels_per_marker : option Z) (default_std : R)
        (kernels : ndarray R) (n : nat) (rest : list nat) :
  (∀ k X, (1 <= k <= length X)%nat → length (KMeans k X) = k) →
  (∀ k X d, Forall (fun x => length x = d) X →
            Forall (fun c => length c = d) (KMeans k X)) →
  (∀ k X d, Forall (fun x => length x = d) X →
            (k <= length X)%nat → (k <= d)%nat →
            length (PCA_components k X) = k
            ∧ Forall (fun c => length c = d) (PCA_components k X)) →
  1 <= out_channels →
  marker_kernels KMeans images markers in_channels kernel_size dilation
    number_of_kernels_per_marker default_std = Ok kernels →
  shape kernels = n :: rest →
  let weights :=
    _initialize_convNd_weights KMeans PCA_components rand (Some images)
      (Some markers) in_channels (Some out_channels) kernel_size dilation
      number_of_kernels_per_marker false default_std in
  (Z.of_nat n < out_channels → weights = Err AssertNotEnoughKernels)
  ∧ (out_channels = Z.of_nat n → weights = Ok kernels)
  ∧ (out_channels < Z.of_nat n →
     ∃ reduced, weights = Ok reduced
                ∧ len reduced = Ok (Z.to_nat out_channels)
                ∧ weights
                  = if out_channels <? Z.of_nat (prod_nat rest)
                    then _select_kernels_with_pca PCA_components kernels out_channels
                    else _kmeans_roots KMeans kernels (repeat 1 n) out_channels).
Proof.
  intros Hcenters Hwidth Hpca H1 Hkernels Hshape weights. subst weights.
  unfold _initialize_convNd_weights. rewrite Hkernels. cbn [mbind result_bind].
  destruct (marker_kernels_shape _ _ _ _ _ _ _ _ _ Hkernels)
    as (Hwf & n' & rest' & Hshape' & _ & Hd).
  rewrite Hshape in Hshape'. injection Hshape' as <- <-.
  destruct (reduce_to_out_channels_spec KMeans PCA_components Hcenters Hwidth Hpca
              kernels n rest out_channels Hwf Hshape Hd H1)
    as (Hfew & Hsame & Hmany).
  repeat split; auto.
  intros Hlt. destruct (Hmany Hlt) as (reduced & Hred & Hs & Hhow).
  exists reduced. repeat split; auto.
  unfold len. rewrite Hs. reflexivity.
Qed.

Lemma first_rows_length (k : nat) (X : list (list R)) :
  (1 <= k <= length X)%nat → length (first_rows k X) = k.
Proof. intros Hk. unfold first_rows. rewrite length_firstn. lia. Qed.

Lemma first_rows_width (k : nat) (X : list (list R)) (d : nat) :
  Forall (fun x => length x = d) X → Forall (fun c => length c = d) (first_rows k X).
Proof. intros HX. apply Forall_take. exact HX. Qed.

Lemma first_rows_components (k : nat) (X : list (list R)) (d : nat) :
  Forall (fun x => length x = d) X → (k <= length X)%nat → (k <= d)%nat →
  length (first_rows k X) = k ∧ Forall (fun c => length c = d) (first_rows k X).
Proof.
  intros HX Hk _. split; [|apply first_rows_width; exact HX].
  unfold first_rows. rewrite length_firstn. lia.
Qed.

(** The marker path on the sample inputs with a [3 x 3] kernel, stage by
    stage: every patch is black, and stays so. *)
Lemma black_patches :
  _generate_patches 0%R black_images black_markers 2 [3; 3] [1; 1]
  = Ok (zeros [2; 3; 3; 2]%nat, [0; 0]).
Proof. vm_compute. reflexivity. Qed.

Lemma black_standardized (default_std : R) :
  standardize 2 default_std (zeros [2; 3; 3; 2]%nat) = Ok (zeros [2; 3; 3; 2]%nat).
Proof.
  unfold standardize, zeros.
  cbn -[Rplus Rminus Rmult Rdiv sqrt INR].
  do 2 f_equal.
  repeat (apply f_equal2; [unfold Rdiv; ring|]). reflexivity.
Qed.

Lemma black_roots :
  _kmeans_roots first_rows (zeros [2; 3; 3; 2]%nat) [0; 0] 2
  = Ok (zeros [2; 3; 3; 2]%nat).
Proof. vm_compute. reflexivity. Qed.

Lemma map_div_zeros (c : R) (n : nat) :
  map (fun x => x / c)%R (repeat 0%R n) = repeat 0%R n.
Proof.
  induction n as [|n IH]; [reflexivity|].
  cbn [repeat map]. rewrite IH. f_equal. unfold Rdiv. apply Rmult_0_l.
Qed.

Lemma normalize_kernel_zeros (n : nat) :
  normalize_kernel (repeat 0%R n) = repeat 0%R n.
Proof. unfold normalize_kernel. apply map_div_zeros. Qed.

Lemma black_weights (default_std : R) :
  _calculate_convNd_weights first_rows black_images black_markers 2 [3; 3] [1; 1]
                            2 default_std
  = Ok (zeros [2; 3; 3; 2]%nat).
Proof.
  unfold _calculate_convNd_weights. rewrite black_patches.
  cbn [mbind result_bind length]. rewrite black_standardized.
  cbn [mbind result_bind]. rewrite black_roots.
  cbn [mbind result_bind].
  change (reshape_2d (zeros [2; 3; 3; 2]%nat))
    with (Ok [repeat 0%R 18; repeat 0%R 18] : result (list (list R))).
  cbn [mbind result_bind map]. rewrite !normalize_kernel_zeros. reflexivity.
Qed.

Lemma black_kernels (default_std : R) :
  marker_kernels first_rows black_images black_markers 2 [3; 3] [1; 1]
                 (Some 2) default_std
  = Ok (zeros [2; 2; 3; 3]%nat).
Proof.
  unfold marker_kernels. cbn [of_option mbind result_bind].
  rewrite black_weights. cbn [mbind result_bind]. vm_compute. reflexivity.
Qed.

Lemma initialize_weights_exact_out_channels_witness :
  ∃ reduced,
    _initialize_convNd_weights first_rows first_rows no_draws (Some black_images)
      (Some black_markers) 2 (Some 1) [3; 3] [1; 1] (Some 2) false (1 / 1000000)%R
      = Ok reduced
    ∧ len reduced = Ok 1%nat.
Proof.
  destruct (initialize_weights_exact_out_channels first_rows first_rows no_draws
              black_images black_markers 2 1 [3; 3] [1; 1] (Some 2)
              (1 / 1000000)%R (zeros [2; 2; 3; 3]%nat) 2 [2; 3; 3]%nat
              first_rows_length first_rows_width first_rows_components
              ltac:(lia) (black_kernels _) eq_refl) as (_ & _ & Hmany).
  destruct (Hmany ltac:(lia)) as (reduced & Hreduced & Hlen & _).
  exists reduced. split; assumption.
Defined.

(** ** The norm of the kernels of the marker path (claim C6) *)

Section KernelNorm.
Local Open Scope R_scope.

Lemma sum_squares_nonneg (v : list R) : 0 <= sum_R (map (fun x => x * x) v).
Proof.
  induction v as [|x v IH]; simpl; [lra|].
  pose proof (Rle_0_sqr x) as Hx. unfold Rsqr in Hx. lra.
Qed.

Lemma l2_norm_nonneg (v : list R) : 0 <= l2_norm v.
Proof. unfold l2_norm. apply sqrt_pos. Qed.

Lemma sum_squares_scaled (c : R) (v : list R) :
  c ≠ 0 →
  sum_R (map (fun x => x * x) (map (fun x => x / c) v))
  = sum_R (map (fun x => x * x) v) / (c * c).
Proof.
  intros Hc. induction v as [|x v IH]; simpl.
  - unfold Rdiv. rewrite Rmult_0_l. reflexivity.
  - rewrite IH. field. exact Hc.
Qed.

Lemma l2_norm_scaled (c : R) (v : list R) :
  0 < c → l2_norm (map (fun x => x / c) v) = l2_norm v / c.
Proof.
  intros Hc. unfold l2_norm.
  rewrite sum_squares_scaled by lra.
  rewrite sqrt_div_alt by nra.
  rewrite sqrt_square by lra. reflexivity.
Qed.

(** The norm of a normalised kernel, from the norm [n] of the kernel:
    [n / (n + 0.00001)]. *)
Lemma normalize_kernel_norm (kernel : list R) :
  l2_norm (normalize_kernel kernel)
  = l2_norm kernel / (l2_norm kernel + 1 / 100000).
Proof.
  unfold normalize_kernel. apply l2_norm_scaled.
  pose proof (l2_norm_nonneg kernel). lra.
Qed.

Lemma normalize_kernel_below_one (kernel : list R) :
  0 <= l2_norm (normalize_kernel kernel) < 1
  ∧ 1 - l2_norm (normalize_kernel kernel)
    = (1 / 100000) / (l2_norm kernel + 1 / 100000).
Proof.
  rewrite normalize_kernel_norm.
  pose proof (l2_norm_nonneg kernel) as Hn.
  assert (Hpos : 0 < l2_norm kernel + 1 / 100000) by lra.
  repeat split.
  - apply Rmult_le_pos; [exact Hn|]. left. apply Rinv_0_lt_compat. exact Hpos.
  - apply (Rmult_lt_reg_r (l2_norm kernel + 1 / 100000)); [exact Hpos|].
    unfold Rdiv at 1. rewrite Rmult_assoc, Rinv_l by lra. lra.
  - field. lra.
Qed.
End KernelNorm.

Lemma chunks_cons {A : Type} (n d : nat) (row : list A) (l : list A) :
  length row = d → chunks (S n) d (row ++ l) = row :: chunks n d l.
Proof.
  intros Hrow. unfold chunks. rewrite <- cons_seq, <- seq_shift, map_cons, map_map.
  f_equal.
  - cbn [Nat.mul skipn]. subst d. apply take_app_length.
  - apply map_ext. intros i.
    replace (S i * d)%nat with (length row + i * d)%nat by lia.
    rewrite List.skipn_app, List.skipn_all2 by lia.
    replace (length row + i * d - length row)%nat with (i * d)%nat by lia.
    reflexivity.
Qed.

Lemma chunks_concat {A : Type} (d : nat) (rows : list (list A)) :
  Forall (fun row => length row = d) rows →
  chunks (length rows) d (concat rows) = rows.
Proof.
  induction 1 as [|row rows Hrow _ IH]; [reflexivity|].
  simpl. rewrite chunks_cons by exact Hrow. rewrite IH. reflexivity.
Qed.

(** The kernels returned by [_calculate_convNd_weights] are the roots of
    the clustering, each divided by its norm plus 0.00001. *)
Lemma calculate_weights_rows
      (KMeans : nat → list (list R) → list (list R))
      (images : list (ndarray R)) (markers : list (ndarray Z))
      (in_channels : nat) (kernel_size dilation : list Z)
      (number_of_kernels_per_marker : Z) (default_std : R) (weights : ndarray R) :
  _calculate_convNd_weights KMeans images markers in_channels kernel_size
    dilation number_of_kernels_per_marker default_std = Ok weights →
  ∃ roots, roots ≠ [] ∧ reshape_2d weights = Ok (map normalize_kernel roots).
Proof.
  unfold _calculate_convNd_weights. intros H.
  apply bind_Ok in H as ([patches labels] & _ & H).
  apply bind_Ok in H as (standardized & _ & H).
  apply bind_Ok in H as (kernel_weights & Hroots & H).
  apply bind_Ok in H as (rows & Hrows & H).
  injection H as <-.
  apply kmeans_roots_well_formed in Hroots as (Hwf & Hd & n & Hshape).
  apply reshape_2d_Ok in Hrows as (n' & rest & Hshape' & Hn & ->).
  rewrite Hshape in Hshape'. injection Hshape' as <- <-.
  exists (chunks n (prod_nat (tail (shape standardized))) (data kernel_weights)).
  split.
  - intros Hnil. apply (f_equal length) in Hnil.
    rewrite chunks_length in Hnil. simpl in Hnil. lia.
  - unfold reshape_2d. cbn [shape data]. rewrite Hshape.
    destruct (n =? 0)%nat eqn:En; [apply Nat.eqb_eq in En; lia|].
    f_equal.
    set (roots := chunks n _ (data kernel_weights)).
    assert (Hwidth : Forall (fun row => length row = prod_nat (tail (shape standardized)))
                            (map normalize_kernel roots)).
    { apply List.Forall_forall. intros row Hrow.
      apply List.in_map_iff in Hrow as (root & <- & Hroot).
      rewrite normalize_kernel_length.
      assert (Hall : Forall (fun row => length row = prod_nat (tail (shape standardized)))
                            roots).
      { apply chunks_width. unfold well_formed in Hwf. rewrite Hshape in Hwf.
        exact Hwf. }
      rewrite List.Forall_forall in Hall. auto. }
    replace n with (length (map normalize_kernel roots))
      by (rewrite length_map; apply chunks_length).
    apply chunks_concat. exact Hwidth.
Qed.

(** *** Multi-indices and the rows of a tensor *)

Lemma nth_flat_map_const {A B : Type} (f : A → list B) (m : nat) (l : list A)
      (i r : nat) (a : A) (b : B) :
  (∀ x, length (f x) = m) → (i < length l)%nat → (r < m)%nat →
  nth (i * m + r) (flat_map f l) b = nth r (f (nth i l a)) b.
Proof.
  intros Hf. revert i. induction l as [|x l IH]; intros i Hi Hr; simpl in *; [lia|].
  destruct i as [|i].
  - simpl. rewrite app_nth1 by (rewrite Hf; lia). reflexivity.
  - rewrite app_nth2 by (rewrite Hf; simpl; lia).
    rewrite Hf. replace (S i * m + r - m)%nat with (i * m + r)%nat by (simpl; lia).
    apply IH; lia.
Qed.

Lemma cartesian_block_length (rest : list nat) (i : nat) :
  length (map (cons i) (cartesian (map (seq 0) rest))) = prod_nat rest.
Proof. rewrite length_map, cartesian_length, map_length_seq. reflexivity. Qed.

(** The [k]-th multi-index of a shape lies within the shape and sits at
    position [k] of the row-major layout. *)
Lemma cartesian_nth (shp : list nat) :
  ∀ k, (k < prod_nat shp)%nat →
       let idx := nth k (cartesian (map (seq 0) shp)) [] in
       Forall2 (fun i n => (i < n)%nat) idx shp ∧ flat_index shp idx = k.
Proof.
  induction shp as [|n rest IH]; intros k Hk; simpl in *.
  - replace k with 0%nat by lia. simpl. split; [constructor|reflexivity].
  - set (P := prod_nat rest) in *.
    assert (HP : (0 < P)%nat) by (destruct P; lia).
    assert (Hi : (k / P < n)%nat) by (apply Nat.Div0.div_lt_upper_bound; lia).
    assert (Hr : (k mod P < P)%nat) by (apply Nat.mod_upper_bound; lia).
    assert (Hk' : k = (k / P * P + k mod P)%nat).
    { rewrite (Nat.div_mod_eq k P) at 1. lia. }
    rewrite Hk' at 1 2.
    rewrite (nth_flat_map_const _ P _ _ _ 0%nat)
      by (auto using cartesian_block_length; rewrite ?length_seq; auto).
    rewrite seq_nth by exact Hi. simpl.
    rewrite (nth_indep _ [] (k / P :: []))%nat
      by (rewrite cartesian_block_length; exact Hr).
    rewrite map_nth.
    destruct (IH (k mod P)%nat Hr) as [Hin Hflat].
    split; [constructor; assumption|].
    simpl. fold P. rewrite Hflat. lia.
Qed.

Lemma flat_index_bound (shp idx : list nat) :
  Forall2 (fun i n => (i < n)%nat) idx shp → (flat_index shp idx < prod_nat shp)%nat.
Proof.
  intros H. induction H as [|i n idx shp Hi _ IH]; simpl; [lia|]. nia.
Qed.

(** A multi-index within a shape is found at its row-major position. *)
Lemma cartesian_flat_index (shp idx : list nat) :
  Forall2 (fun i n => (i < n)%nat) idx shp →
  nth (flat_index shp idx) (cartesian (map (seq 0) shp)) [] = idx.
Proof.
  intros H. induction H as [|i n idx shp Hi Hrest IH]; simpl; [reflexivity|].
  pose proof (flat_index_bound _ _ Hrest) as Hb.
  rewrite (nth_flat_map_const _ (prod_nat shp) _ _ _ 0%nat)
    by (auto using cartesian_block_length; rewrite ?length_seq; auto).
  rewrite seq_nth by exact Hi. simpl.
  rewrite (nth_indep _ [] (i :: []))%nat by (rewrite cartesian_block_length; exact Hb).
  rewrite map_nth, IH. reflexivity.
Qed.

Lemma nth_map_default {A B : Type} (f : A → B) (l : list A) (j : nat) (a : A) (b : B) :
  (j < length l)%nat → nth j (map f l) b = f (nth j l a).
Proof.
  intros Hj. rewrite (nth_indep _ b (f a)) by (rewrite length_map; exact Hj).
  apply map_nth.
Qed.

Lemma cartesian_In (shp idx : list nat) :
  In idx (cartesian (map (seq 0) shp)) → Forall2 (fun i n => (i < n)%nat) idx shp.
Proof.
  intros Hin. apply (In_nth _ _ []) in Hin as (k & Hk & <-).
  rewrite cartesian_length, map_length_seq in Hk.
  apply cartesian_nth. exact Hk.
Qed.

Lemma black_weights_all (default_std : R) :
  _initialize_convNd_weights first_rows first_rows no_draws (Some black_images)
    (Some black_markers) 2 None [3; 3] [1; 1] (Some 2) false default_std
  = Ok (zeros [2; 2; 3; 3]%nat).
Proof. unfold _initialize_convNd_weights. rewrite black_kernels. reflexivity. Qed.

Lemma l2_norm_zeros (n : nat) : l2_norm (repeat 0%R n) = 0%R.
Proof.
  unfold l2_norm. replace (sum_R _) with 0%R; [apply sqrt_0|].
  induction n as [|n IH]; simpl; [reflexivity|]. rewrite <- IH. ring.
Qed.

(** *** The channel axis moved to the front *)

Section TransposedKernels.
Local Open Scope R_scope.

Lemma sum_R_app (u v : list R) : sum_R (u ++ v) = sum_R u + sum_R v.
Proof.
  induction u as [|x u IH]; simpl; [ring|].
  fold (sum_R (u ++ v)). fold (sum_R u). rewrite IH. ring.
Qed.

Lemma sum_R_map_ext {A : Type} (f g : A → R) (l : list A) :
  (∀ x, f x = g x) → sum_R (map f l) = sum_R (map g l).
Proof. intros H. f_equal. apply map_ext. exact H. Qed.

Lemma sum_R_map_plus {A : Type} (f g : A → R) (l : list A) :
  sum_R (map (fun x => f x + g x) l) = sum_R (map f l) + sum_R (map g l).
Proof.
  induction l as [|x l IH]; simpl; [ring|].
  fold (sum_R (map (fun x => f x + g x) l)). fold (sum_R (map f l)).
  fold (sum_R (map g l)). rewrite IH. ring.
Qed.

Lemma sum_R_map_zero {A : Type} (l : list A) : sum_R (map (fun _ => 0) l) = 0.
Proof.
  induction l as [|x l IH]; simpl; [reflexivity|].
  fold (sum_R (map (fun _ : A => 0) l)). rewrite IH. ring.
Qed.

(** Two nested sums may be taken in either order. *)
Lemma sum_swap {A B : Type} (f : A → B → R) (xs : list A) (ys : list B) :
  sum_R (map (fun x => sum_R (map (fun y => f x y) ys)) xs)
  = sum_R (map (fun y => sum_R (map (fun x => f x y) xs)) ys).
Proof.
  induction xs as [|x xs IH]; simpl.
  - symmetry. apply (sum_R_map_zero ys).
  - fold (sum_R (map (fun x => sum_R (map (fun y => f x y) ys)) xs)).
    rewrite IH, <- sum_R_map_plus. apply sum_R_map_ext. intros y. reflexivity.
Qed.

(** A sum over all the multi-indices, axis by axis. *)
Lemma sum_cartesian_cons (G : list nat → R) (a : list nat) (rest : list (list nat)) :
  sum_R (map G (cartesian (a :: rest)))
  = sum_R (map (fun x => sum_R (map (fun idx => G (x :: idx)) (cartesian rest))) a).
Proof.
  cbn [cartesian]. induction a as [|x a IH]; simpl; [reflexivity|].
  rewrite map_app, sum_R_app, map_map.
  fold (sum_R (map (fun x => sum_R (map (fun idx => G (x :: idx)) (cartesian rest))) a)).
  rewrite IH. reflexivity.
Qed.

Lemma sum_cartesian_nil (G : list nat → R) : sum_R (map G (cartesian [])) = G [].
Proof. simpl. ring. Qed.

Lemma sum_cartesian_3 (G : list nat → R) (a b c : list nat) :
  sum_R (map G (cartesian [a; b; c]))
  = sum_R (map (fun x =>
       sum_R (map (fun y =>
         sum_R (map (fun z => G [x; y; z]) c)) b)) a).
Proof.
  rewrite sum_cartesian_cons. apply sum_R_map_ext. intros x.
  rewrite sum_cartesian_cons. apply sum_R_map_ext. intros y.
  rewrite sum_cartesian_cons. apply sum_R_map_ext. intros z.
  apply sum_cartesian_nil.
Qed.

Lemma sum_cartesian_4 (G : list nat → R) (a b c e : list nat) :
  sum_R (map G (cartesian [a; b; c; e]))
  = sum_R (map (fun x =>
       sum_R (map (fun y =>
         sum_R (map (fun z =>
           sum_R (map (fun w => G [x; y; z; w]) e)) c)) b)) a).
Proof.
  rewrite sum_cartesian_cons. apply sum_R_map_ext. intros x.
  apply (sum_cartesian_3 (fun idx => G (x :: idx))).
Qed.

(** Three nested sums with the outer one moved inside. *)
Lemma sum_rotate_3 {A B C : Type} (F : A → B → C → R)
      (xs : list A) (ys : list B) (zs : list C) :
  sum_R (map (fun x => sum_R (map (fun y => sum_R (map (fun z => F x y z) zs)) ys)) xs)
  = sum_R (map (fun y => sum_R (map (fun z => sum_R (map (fun x => F x y z) xs)) zs)) ys).
Proof.
  etransitivity;
    [apply (sum_swap (fun x y => sum_R (map (fun z => F x y z) zs)) xs ys)|].
  apply sum_R_map_ext. intros y. apply (sum_swap (fun x z => F x y z)).
Qed.

(** Four nested sums with the two outer ones moved inside and swapped. *)
Lemma sum_rotate_4 {A B C D : Type} (F : A → B → C → D → R)
      (xs : list A) (ys : list B) (zs : list C) (ws : list D) :
  sum_R (map (fun x => sum_R (map (fun y => sum_R (map (fun z =>
     sum_R (map (fun w => F x y z w) ws)) zs)) ys)) xs)
  = sum_R (map (fun z => sum_R (map (fun w => sum_R (map (fun y =>
     sum_R (map (fun x => F x y z w) xs)) ys)) ws)) zs).
Proof.
  etransitivity.
  { apply sum_R_map_ext. intros x. apply (sum_rotate_3 (F x)). }
  etransitivity.
  { apply (sum_rotate_3 (fun x z w => sum_R (map (fun y => F x y z w) ys))). }
  apply sum_R_map_ext. intros z. apply sum_R_map_ext. intros w.
  apply (sum_swap (fun x y => F x y z w)).
Qed.
End TransposedKernels.

(** Row [i] of a tensor, read through its multi-indices. *)
Lemma chunk_row {A : Type} (zero : A) (t : ndarray A) (n : nat) (rest : list nat)
      (i : nat) :
  well_formed t → shape t = n :: rest → (i < n)%nat →
  nth i (chunks n (prod_nat rest) (data t)) []
  = map (fun idx => nd_get zero t (i :: idx)) (cartesian (map (seq 0) rest)).
Proof.
  intros Hwf Hshape Hi. unfold well_formed in Hwf. rewrite Hshape in Hwf.
  cbn [prod_nat fold_right] in Hwf. fold (prod_nat rest) in Hwf.
  set (d := prod_nat rest) in *.
  unfold chunks. rewrite nth_map_seq by exact Hi.
  assert (Hlen : length (firstn d (skipn (i * d) (data t))) = d).
  { rewrite length_firstn, length_skipn, Hwf. nia. }
  apply (nth_ext _ _ zero zero).
  - rewrite Hlen, length_map, cartesian_length, map_length_seq. reflexivity.
  - intros k Hk. rewrite Hlen in Hk.
    rewrite nth_firstn. destruct (k <? d)%nat eqn:Ek; [|apply Nat.ltb_ge in Ek; lia].
    rewrite nth_skipn.
    rewrite (nth_map_default _ _ _ [])
      by (rewrite cartesian_length, map_length_seq; exact Hk).
    destruct (cartesian_nth rest k Hk) as [_ Hflat].
    unfold nd_get. rewrite Hshape. cbn [flat_index]. fold d.
    rewrite Hflat. reflexivity.
Qed.

(** An entry of a transposed tensor is the entry of the tensor at the
    permuted multi-index. *)
Lemma nd_get_transpose {A : Type} (zero : A) (perm : list nat) (t t' : ndarray A)
      (idx : list nat) :
  transpose zero perm t = Ok t' →
  Forall2 (fun i n => (i < n)%nat) idx (shape t') →
  nd_get zero t' idx
  = nd_get zero t (map (fun k => nth (index_of k perm) idx 0%nat) (seq 0 (ndim t))).
Proof.
  unfold transpose. destruct (negb _); [discriminate|]. intros [= <-] Hidx.
  cbn [shape] in Hidx. unfold nd_get at 1. cbn [shape data].
  rewrite (nth_map_default _ _ _ [])
    by (rewrite cartesian_length, map_length_seq; apply flat_index_bound; exact Hidx).
  rewrite cartesian_flat_index by exact Hidx. reflexivity.
Qed.

Section TransposedRows.
Local Open Scope R_scope.

Lemma transposed_row (perm : list nat) (t t' : ndarray R) (n : nat)
      (rest' : list nat) (i : nat) :
  transpose 0 perm t = Ok t' → shape t' = n :: rest' → (i < n)%nat →
  nth i (chunks n (prod_nat rest') (data t')) []
  = map (fun idx =>
           nd_get 0 t (map (fun k => nth (index_of k perm) (i :: idx) 0%nat)
                           (seq 0 (ndim t))))
        (cartesian (map (seq 0) rest')).
Proof.
  intros Ht Hshape Hi.
  destruct (transpose_well_formed _ _ _ _ Ht) as [Hwf _].
  rewrite (chunk_row 0 t' n rest' i Hwf Hshape Hi).
  apply map_ext_in. intros idx Hidx. apply (nd_get_transpose 0 perm t t'); [exact Ht|].
  rewrite Hshape. constructor; [exact Hi|]. apply cartesian_In. exact Hidx.
Qed.

(** Moving the channel axis of every kernel to the front keeps the sum of
    the squares of the kernel. *)
Lemma transposed_rows_squares (t t' : ndarray R) (n : nat) (rest : list nat) :
  well_formed t → shape t = n :: rest →
  (if (ndim t =? 4)%nat then transpose 0 [0; 3; 1; 2]%nat t
   else transpose 0 [0; 4; 3; 1; 2]%nat t) = Ok t' →
  ∃ rest', shape t' = n :: rest'
           ∧ ∀ i, (i < n)%nat →
                  sum_R (map (fun x => x * x)
                             (nth i (chunks n (prod_nat rest') (data t')) []))
                  = sum_R (map (fun x => x * x)
                               (nth i (chunks n (prod_nat rest) (data t)) [])).
Proof.
  intros Hwf Hshape Ht.
  destruct (ndim t =? 4)%nat eqn:E4.
  - apply Nat.eqb_eq in E4. pose proof E4 as Hndim. unfold ndim in E4.
    rewrite Hshape in E4.
    destruct rest as [|a [|b [|c [|? ?]]]]; try discriminate.
    destruct (transpose_well_formed _ _ _ _ Ht) as [_ Hs].
    rewrite Hshape in Hs. cbn in Hs.
    exists [c; a; b]. split; [exact Hs|]. intros i Hi.
    rewrite (transposed_row _ t t' n [c; a; b] i Ht Hs Hi).
    rewrite (chunk_row 0 t n [a; b; c] i Hwf Hshape Hi).
    rewrite Hndim, !map_map. cbn [map].
    rewrite (sum_cartesian_3 _ (seq 0 c) (seq 0 a) (seq 0 b)).
    rewrite (sum_cartesian_3 _ (seq 0 a) (seq 0 b) (seq 0 c)).
    apply (sum_rotate_3 (fun z x y => (nd_get 0 t [i; x; y; z] * nd_get 0 t [i; x; y; z]))).
  - pose proof Ht as Hperm. unfold transpose in Hperm.
    destruct (negb _) eqn:E5; [discriminate|]. clear Hperm.
    apply negb_false_iff, Nat.eqb_eq in E5. pose proof E5 as Hndim.
    unfold ndim in E5. rewrite Hshape in E5.
    destruct rest as [|a [|b [|c [|e [|? ?]]]]]; try discriminate.
    destruct (transpose_well_formed _ _ _ _ Ht) as [_ Hs].
    rewrite Hshape in Hs. cbn in Hs.
    exists [e; c; a; b]. split; [exact Hs|]. intros i Hi.
    rewrite (transposed_row _ t t' n [e; c; a; b] i Ht Hs Hi).
    rewrite (chunk_row 0 t n [a; b; c; e] i Hwf Hshape Hi).
    rewrite <- Hndim, !map_map. cbn [map length seq].
    rewrite (sum_cartesian_4 _ (seq 0 e) (seq 0 c) (seq 0 a) (seq 0 b)).
    rewrite (sum_cartesian_4 _ (seq 0 a) (seq 0 b) (seq 0 c) (seq 0 e)).
    apply (sum_rotate_4
             (fun w z x y => (nd_get 0 t [i; x; y; z; w] * nd_get 0 t [i; x; y; z; w]))).
Qed.
End TransposedRows.
Lemma Forall2_nth {A B : Type} (P : A → B → Prop) (a : A) (b : B) (l1 : list A) :
  ∀ l2, length l1 = length l2 →
        (∀ i, (i < length l1)%nat → P (nth i l1 a) (nth i l2 b)) →
        Forall2 P l1 l2.
Proof.
  induction l1 as [|x l1 IH]; intros [|y l2] Hlen H; try discriminate; constructor.
  - apply (H 0%nat). simpl. lia.
  - apply IH; [simpl in Hlen; lia|]. intros i Hi. apply (H (S i)). simpl. lia.
Qed.

(** C6 (as the code has it).  The marker path of
    [_initialize_convNd_weights] normalises once, in
    [_calculate_convNd_weights]: every kernel returned there is a root of
    the clustering divided by its norm plus 0.00001, so its norm is
    [n / (n + 0.00001)] for the norm [n] of the root, which lies in [0, 1)
    and misses 1 by [0.00001 / (n + 0.00001)].  Moving the channel axis to
    the front keeps these norms, and they are the norms of the kernels of
    the layer when [out_channels] is not given or equals their number.
    When [out_channels] is smaller, the kernels are replaced by what PCA
    (or, for kernels of at most [out_channels] entries, a second k-means)
    returns on them, and nothing is normalised again. *)
Theorem marker_path_kernels_norm
        (KMeans PCA_components : nat → list (list R) → list (list R))
        (rand : nat → list R)
        (images : list (ndarray R)) (markers : list (ndarray Z))
        (in_channels : nat) (out_channels : option Z)
        (kernel_size dilation : list Z) (number_of_kernels_per_marker : option Z)
        (default_std : R) (weights : ndarray R) :
  _initialize_convNd_weights KMeans PCA_components rand (Some images) (Some markers)
    in_channels out_channels kernel_size dilation number_of_kernels_per_marker
    false default_std = Ok weights →
  ∃ (per_marker : Z) (calculated : ndarray R) (roots : list (list R))
    (kernels : ndarray R) (rows : list (list R)),
    number_of_kernels_per_marker = Some per_marker
    ∧ _calculate_convNd_weights KMeans images markers in_channels kernel_size
        dilation per_marker default_std = Ok calculated
    ∧ roots ≠ []
    ∧ reshape_2d calculated = Ok (map normalize_kernel roots)
    ∧ Forall (fun root =>
                (l2_norm (normalize_kernel root)
                 = l2_norm root / (l2_norm root + 1 / 100000))%R
                ∧ (0 <= l2_norm (normalize_kernel root) < 1)%R
                ∧ (1 - l2_norm (normalize_kernel root)
                   = (1 / 100000) / (l2_norm root + 1 / 100000))%R)
             roots
    ∧ marker_kernels KMeans images markers in_channels kernel_size dilation
        number_of_kernels_per_marker default_std = Ok kernels
    ∧ reshape_2d kernels = Ok rows
    ∧ Forall2 (fun row root => l2_norm row = l2_norm (normalize_kernel root))
              rows roots
    ∧ match out_channels with
      | None => weights = kernels
      | Some out_channels =>
          out_channels <= Z.of_nat (length roots)
          ∧ (out_channels = Z.of_nat (length roots) → weights = kernels)
          ∧ (out_channels < Z.of_nat (length roots) →
             (if out_channels <? Z.of_nat (prod_nat (tail (shape kernels)))
              then _select_kernels_with_pca PCA_components kernels out_channels
              else _kmeans_roots KMeans kernels (repeat 1 (length roots))
                                 out_channels)
             = Ok weights)
      end.
Proof.
  unfold _initialize_convNd_weights. intros H.
  bind_inv H as kernels Hkernels.
  pose proof Hkernels as Hmarker. unfold marker_kernels in Hkernels.
  bind_inv Hkernels as per_marker Hper. apply of_option_Ok in Hper.
  bind_inv Hkernels as calculated Hcalc.
  destruct (calculate_weights_shape KMeans _ _ _ _ _ _ _ _ Hcalc)
    as (Hwf & n & rest & Hshape & Hn & Hd).
  destruct (calculate_weights_rows KMeans _ _ _ _ _ _ _ _ Hcalc)
    as (roots & Hne & Hrows).
  pose proof Hrows as Hchunks.
  apply reshape_2d_Ok in Hchunks as (n' & rest' & Hshape' & _ & Hchunks).
  rewrite Hshape in Hshape'. injection Hshape' as <- <-.
  assert (Hlen : length roots = n).
  { apply (f_equal length) in Hchunks.
    rewrite length_map, chunks_length in Hchunks. exact Hchunks. }
  destruct (transposed_rows_squares calculated kernels n rest Hwf Hshape Hkernels)
    as (rest2 & Hshape2 & Hsquares).
  exists per_marker, calculated, roots, kernels,
         (chunks n (prod_nat rest2) (data kernels)).
  split; [exact Hper|]. split; [exact Hcalc|]. split; [exact Hne|].
  split; [exact Hrows|]. split.
  { apply List.Forall_forall. intros root _.
    split; [apply normalize_kernel_norm | apply normalize_kernel_below_one]. }
  split; [exact Hmarker|]. split.
  { unfold reshape_2d. rewrite Hshape2.
    destruct (n =? 0)%nat eqn:En; [apply Nat.eqb_eq in En; contradiction|].
    reflexivity. }
  split.
  { apply (Forall2_nth _ [] []); [rewrite chunks_length; auto|].
    intros i Hi. rewrite chunks_length in Hi.
    unfold l2_norm. f_equal. rewrite (Hsquares i Hi), <- Hchunks. do 2 f_equal.
    apply nth_map_default. lia. }
  unfold reduce_to_out_channels, len in H. rewrite Hshape2 in H.
  cbn [mbind result_bind] in H. rewrite Hshape2, Hlen. cbn [tail].
  destruct out_channels as [oc|]; [|injection H as <-; reflexivity].
  cbn [tail] in H.
  destruct (Z.of_nat n <? oc) eqn:Efew; [discriminate|].
  apply Z.ltb_ge in Efew. split; [exact Efew|].
  destruct (oc <? Z.of_nat n) eqn:Emany.
  - apply Z.ltb_lt in Emany. split; [lia|]. intros _.
    cbn [andb] in H.
    destruct (oc <? Z.of_nat (prod_nat rest2)); exact H.
  - apply Z.ltb_ge in Emany. cbn [andb] in H. injection H as <-.
    split; [reflexivity|lia].
Qed.

Lemma marker_path_kernels_norm_witness :
  ∃ (per_marker : Z) (calculated : ndarray R) (roots : list (list R))
    (kernels : ndarray R) (rows : list (list R)),
    Some 2 = Some per_marker
    ∧ _calculate_convNd_weights first_rows black_images black_markers 2 [3; 3]
        [1; 1] per_marker (1 / 1000000)%R = Ok calculated
    ∧ roots ≠ []
    ∧ reshape_2d calculated = Ok (map normalize_kernel roots)
    ∧ Forall (fun root =>
                (l2_norm (normalize_kernel root)
                 = l2_norm root / (l2_norm root + 1 / 100000))%R
                ∧ (0 <= l2_norm (normalize_kernel root) < 1)%R
                ∧ (1 - l2_norm (normalize_kernel root)
                   = (1 / 100000) / (l2_norm root + 1 / 100000))%R)
             roots
    ∧ marker_kernels first_rows black_images black_markers 2 [3; 3] [1; 1]
        (Some 2) (1 / 1000000)%R = Ok kernels
    ∧ reshape_2d kernels = Ok rows
    ∧ Forall2 (fun row root => l2_norm row = l2_norm (normalize_kernel root))
              rows roots
    ∧ zeros [2; 2; 3; 3]%nat = kernels.
Proof.
  apply (marker_path_kernels_norm first_rows first_rows no_draws black_images
           black_markers 2 None [3; 3] [1; 1] (Some 2) (1 / 1000000)%R
           (zeros [2; 2; 3; 3]%nat)).
  apply black_weights_all.
Defined.

(** The claim as stated fails for every tolerance below 1: black images
    give kernels that are 0, of norm 0. *)
Lemma marker_path_kernels_not_unit_norm :
  ¬ (∃ tolerance : R,
        (tolerance < 1)%R
        ∧ ∀ (KMeans PCA_components : nat → list (list R) → list (list R))
            (rand : nat → list R)
            (images : list (ndarray R)) (markers : list (ndarray Z))
            (in_channels : nat) (out_channels : option Z)
            (kernel_size dilation : list Z)
            (number_of_kernels_per_marker : option Z) (default_std : R)
            (weights : ndarray R) (kernels : list (list R)),
            markers ≠ [] →
            _initialize_convNd_weights KMeans PCA_components rand (Some images)
              (Some markers) in_channels out_channels kernel_size dilation
              number_of_kernels_per_marker false default_std = Ok weights →
            reshape_2d weights = Ok kernels →
            Forall (fun kernel => (Rabs (l2_norm kernel - 1) <= tolerance)%R)
                   kernels).
Proof.
  intros (tolerance & Htol & H).
  specialize (H first_rows first_rows no_draws black_images black_markers 2%nat
                None [3; 3] [1; 1] (Some 2) (1 / 1000000)%R
                (zeros [2; 2; 3; 3]%nat) [repeat 0%R 18; repeat 0%R 18]
                ltac:(discriminate) (black_weights_all _) eq_refl).
  apply Forall_inv in H. rewrite l2_norm_zeros in H.
  replace (0 - 1)%R with (- (1))%R in H by ring.
  rewrite Rabs_Ropp, Rabs_R1 in H. lra.
Qed.

(** ** The resume path of the convolution leaf (claim C7) *)

Lemma filter_length_le {A : Type} (f : A → bool) (l : list A) :
  (length (List.filter f l) <= length l)%nat.
Proof. induction l as [|a l IH]; simpl; [lia|]. destruct (f a); simpl; lia. Qed.

(** On the resume path the convolution branch reads the number of
    channels from the tensor stored under the key of the leaf within its
    own module, [f'feature_extractor.{key}.weight'], wherever the module
    sits; pruning can only lower the number. *)
Lemma resume_conv_leaf_local_key
      (KMeans PCA_components : nat → list (list R) → list (list R))
      (rand : nat → list R) (key : string) (is_3d : bool)
      (operation_params : gmap string pyval)
      (images : option (list (ndarray R))) (markers : option (list (ndarray Z)))
      (state_dict : gmap string (ndarray R))
      (last_conv_layer_out_channels : nat) (default_std similarity_level : R)
      (remove_similar_filters : bool) (layer : conv_layer) :
  images = None ∨ markers = None →
  build_conv_leaf KMeans PCA_components rand key is_3d operation_params images
    markers (Some state_dict) last_conv_layer_out_channels default_std
    remove_similar_filters similarity_level = Ok layer →
  ∃ (saved : ndarray R) (n : nat),
    state_dict !! ("feature_extractor." +:+ key +:+ ".weight") = Some saved
    ∧ len saved = Ok n
    ∧ conv_out_channels layer <= Z.of_nat n
    ∧ (remove_similar_filters = false →
       conv_out_channels layer = Z.of_nat n
       ∧ len (conv_weight layer) = Ok n
       ∧ Ok (conv_weight layer)
         = if truthy (default (PBool false) (operation_params !! "use_random_kernels"))
           then _create_random_pca_kernels PCA_components rand (Z.of_nat n * 10)
                  (Z.of_nat n) last_conv_layer_out_channels (conv_kernel_size layer)
           else random_array rand (Z.of_nat n :: Z.of_nat last_conv_layer_out_channels
                                     :: conv_kernel_size layer)).
Proof.
  intros Hnone Hbuild. unfold build_conv_leaf in Hbuild.
  apply bind_Ok in Hbuild as (kernel_size_v & _ & Hbuild).
  destruct (negb _) in Hbuild; [discriminate|].
  apply bind_Ok in Hbuild as (dilation & _ & Hbuild).
  apply bind_Ok in Hbuild as (kernel_size & _ & Hbuild).
  apply bind_Ok in Hbuild as (nkpm & _ & Hbuild).
  rewrite bool_decide_eq_true_2 in Hbuild by exact Hnone.
  apply bind_Ok in Hbuild as (oc & Hoc & Hbuild).
  apply bind_Ok in Hoc as (saved & Hsaved & Hoc). apply of_option_Ok in Hsaved.
  apply bind_Ok in Hoc as (n & Hlen & Hoc). injection Hoc as <-.
  exists saved, n. split; [exact Hsaved|]. split; [exact Hlen|].
  apply bind_Ok in Hbuild as (guard & _ & Hbuild).
  cbn [as_int fmap result_fmap mbind result_bind] in Hbuild.
  apply bind_Ok in Hbuild as (weights & Hweights & Hbuild).
  apply bind_Ok in Hbuild as (m & Hm & Hbuild).
  destruct (Z.of_nat m =? Z.of_nat n) eqn:Em; [|discriminate].
  apply Z.eqb_eq, Nat2Z.inj in Em. subst m.
  cbn [negb default] in Hbuild.
  apply bind_Ok in Hbuild as (groups & _ & Hbuild).
  apply bind_Ok in Hbuild as (padding_mode & _ & Hbuild).
  apply bind_Ok in Hbuild as (built & Hbuilt & Hbuild).
  unfold nn_ConvNd in Hbuilt.
  match type of Hbuilt with (if ?c then _ else _) = _ => destruct c end;
    [discriminate|].
  injection Hbuilt as <-.
  destruct remove_similar_filters.
  - split; [|discriminate].
    unfold _remove_similar_filters in Hbuild. cbn [conv_weight] in Hbuild.
    apply bind_Ok in Hbuild as (kept & Hkept & Hbuild).
    destruct (_ && _) in Hbuild; [discriminate|].
    unfold nn_ConvNd in Hbuild.
    match type of Hbuild with (if ?c then _ else _) = _ => destruct c end;
      [discriminate|].
    injection Hbuild as <-. cbn [conv_out_channels].
    unfold selected_filters in Hkept.
    destruct (negb _) in Hkept; [discriminate|].
    apply bind_Ok in Hkept as (M & _ & Hkept).
    apply bind_Ok in Hkept as (rows & Hrows & Hkept). injection Hkept as <-.
    apply flatten_1_length in Hrows.
    unfold len in Hm. destruct (shape weights) as [|n0 rest]; [discriminate|].
    injection Hm as ->. injection Hrows as Hrows.
    rewrite length_map.
    pose proof (filter_length_le fst
                  (combine (keep_filters M similarity_level (length rows)) rows)).
    rewrite length_combine in H. lia.
  - injection Hbuild as <-. cbn [conv_out_channels conv_weight conv_kernel_size].
    split; [lia|]. intros _.
    split; [reflexivity|]. split; [exact Hm|].
    rewrite <- Hweights. unfold _initialize_convNd_weights.
    destruct (truthy _); [reflexivity|].
    destruct Hnone as [-> | ->]; [reflexivity|].
    destruct images; reflexivity.
Qed.

Lemma nested_arch_events :
  _build_module recorded (fun _ => 0) (Some nested_state) (Some "") nested_arch []
  = Ok ([EnterModule (Some "") (Some "sequential");
         MergeSkipInputs ".conv1";
         LayerBuilt ".conv1" "conv1" "conv2d" conv1_params;
         MergeSkipInputs ".block";
         EnterModule (Some ".block") (Some "sequential");
         MergeSkipInputs ".block.conv1";
         LayerBuilt ".block.conv1" "conv1" "conv2d" conv1_params;
         ExitModule;
         SubmoduleBuilt ".block" "block";
         ExitModule],
        nested_arch).
Proof. vm_compute. reflexivity. Qed.

Lemma nested_conv_resumed :
  build_conv_leaf first_rows first_rows no_draws "conv1" false conv1_params
    None None (Some nested_state) 3 (1 / 1000000)%R false (85 / 100)%R
  = Ok conv1_resumed.
Proof. vm_compute. reflexivity. Qed.

(** C7.  The resume path does not give a nested convolution the channels
    of its own saved weight.  In [nested_arch] the convolution of the
    sub-module [block] is built under the key [conv1], its name within
    [block]; the network saves its weight (6 kernels) as
    [feature_extractor.block.conv1.weight], but the builder reads
    [feature_extractor.conv1.weight], the weight of the first convolution
    (4 kernels), and builds the nested layer with 4 output channels.
    Without a leaf of that name at the top the lookup raises [KeyError]. *)
Theorem resume_nested_conv_reads_other_weight :
  (∃ events,
     _build_module recorded (fun _ => 0) (Some nested_state) (Some "") nested_arch []
       = Ok (events, nested_arch)
     ∧ In (LayerBuilt ".block.conv1" "conv1" "conv2d" conv1_params) events)
  ∧ (len <$> nested_state !! saved_weight_name ["block"; "conv1"]) = Some (Ok 6%nat)
  ∧ (∃ layer,
       build_conv_leaf first_rows first_rows no_draws "conv1" false conv1_params
         None None (Some nested_state) 3 (1 / 1000000)%R false (85 / 100)%R
         = Ok layer
       ∧ conv_out_channels layer = 4)
  ∧ build_conv_leaf first_rows first_rows no_draws "conv1" false conv1_params
      None None (Some (delete (saved_weight_name ["conv1"]) nested_state)) 3
      (1 / 1000000)%R false (85 / 100)%R
    = Err KeyError.
Proof.
  split; [|split; [|split]].
  - eexists. split; [exact nested_arch_events|]. simpl. tauto.
  - vm_compute. reflexivity.
  - exists conv1_resumed. split; [exact nested_conv_resumed|reflexivity].
  - vm_compute. reflexivity.
Qed.

(** [load_model] never returns: whatever the architecture and the saved
    state, it ends in an exception. *)
Lemma load_model_never_returns {State : Type}
      (handle : State → build_event → result State) (output_shape_prod : State → Z)
      (architecture : list (string * layer_config))
      (state_dict : gmap string (ndarray R)) (st : State) :
  ∃ e, load_model handle output_shape_prod architecture state_dict st = Err e.
Proof.
  unfold load_model.
  destruct (of_option _ _) as [features|e]; [|eauto]. cbn [mbind result_bind].
  destruct (_build_module _ _ _ _ _ _) as [[st' built]|e]; eauto.
Qed.

(** ** What a build leaves of the architecture (claim C8) *)

Section AssemblerFacts.
Context {State : Type}.
Variable handle : State → build_event → result State.
Variable output_shape_prod : State → Z.
Variable state_dict : option (gmap string (ndarray R)).

Lemma build_pooling_params (new_module_name key operation : string)
      (operation_params after : gmap string pyval) (st st' : State) :
  build_pooling handle new_module_name key operation operation_params st
    = Ok (st', after) →
  after = <["padding" := pooling_padding operation operation_params]> operation_params.
Proof.
  unfold build_pooling. intros H.
  apply bind_Ok in H as (stride & Hstride & H). apply of_option_Ok in Hstride.
  apply bind_Ok in H as (kernel_size & _ & H).
  apply bind_Ok in H as (k_sizes & _ & H).
  apply bind_Ok in H as (st1 & _ & H).
  apply bind_Ok in H as (st2 & _ & H).
  injection H as _ <-. fold (pooling_padding operation operation_params).
  apply map_eq. intros k.
  destruct (decide (k = "padding")) as [->|Hpad].
  - rewrite !lookup_insert_eq. reflexivity.
  - rewrite !(lookup_insert_ne _ "padding") by congruence.
    destruct (decide (k = "stride")) as [->|Hstr].
    + rewrite lookup_insert_eq. symmetry. exact Hstride.
    + rewrite !(lookup_insert_ne _ "stride") by congruence.
      rewrite !(lookup_insert_ne _ "padding") by congruence.
      rewrite !(lookup_insert_ne _ "stride") by congruence. reflexivity.
Qed.

Lemma build_linear_params (new_module_name key operation : string)
      (operation_params after : gmap string pyval) (st st' : State) :
  build_linear handle output_shape_prod state_dict new_module_name key operation
    operation_params st = Ok (st', after) →
  (∀ k, k ≠ "in_features" → k ≠ "out_features" →
        after !! k = operation_params !! k)
  ∧ (state_dict = None → operation_params !! "in_features" ≠ Some (PInt (-1)) →
     after = operation_params).
Proof.
  unfold build_linear. intros H.
  apply bind_Ok in H as (in_features & Hin & H). apply of_option_Ok in Hin.
  apply bind_Ok in H as ([st1 params1] & Hflat & H).
  apply bind_Ok in H as (params2 & Hsaved & H).
  apply bind_Ok in H as (st2 & _ & H).
  injection H as _ <-.
  assert (H1 : (∀ k, k ≠ "in_features" → params1 !! k = operation_params !! k)
               ∧ (in_features ≠ PInt (-1) → params1 = operation_params)).
  { destruct (bool_decide (in_features = PInt (-1))) eqn:E.
    - apply bool_decide_eq_true in E.
      apply bind_Ok in Hflat as (st0 & _ & Hflat). injection Hflat as _ <-.
      split; [|congruence]. intros k Hk. apply lookup_insert_ne. congruence.
    - injection Hflat as _ <-. auto. }
  destruct H1 as [Hother Hsame].
  destruct state_dict as [sd|].
  - apply bind_Ok in Hsaved as (weights & _ & Hsaved).
    destruct (shape weights) as [|n0 [|n1 rest]]; try discriminate.
    injection Hsaved as <-. split; [|discriminate].
    intros k Hin' Hout. rewrite !lookup_insert_ne by congruence. auto.
  - injection Hsaved as <-. split.
    + intros k Hin' _. auto.
    + intros _ Hnot. apply Hsame. congruence.
Qed.

Lemma build_leaf_params (new_module_name key : string) (operation : option string)
      (params : option (gmap string pyval)) (after : gmap string pyval)
      (st st' : State) :
  build_leaf handle output_shape_prod state_dict new_module_name key operation
    params st = Ok (st', after) →
  ∃ tag before, operation = Some tag ∧ params = Some before
                ∧ params_after (resumed state_dict) tag before after.
Proof.
  unfold build_leaf. intros H.
  apply bind_Ok in H as (tag & Htag & H). apply of_option_Ok in Htag.
  apply bind_Ok in H as (before & Hbefore & H). apply of_option_Ok in Hbefore.
  exists tag, before. split; [exact Htag|]. split; [exact Hbefore|].
  destruct (negb _); [discriminate|]. unfold params_after.
  destruct (is_pooling tag).
  - eapply build_pooling_params. exact H.
  - destruct (bool_decide (tag = "linear")).
    + apply build_linear_params in H as [Hother Hsame]. split; [exact Hother|].
      intros Hres. apply Hsame. unfold resumed in Hres.
      destruct state_dict; [discriminate | reflexivity].
    + apply bind_Ok in H as (st1 & _ & H). injection H as _ <-. reflexivity.
Qed.

Lemma build_module_built_from (module_arch : layer_config) :
  ∀ (module_name : option string) (st st' : State) (after : layer_config),
    _build_module handle output_shape_prod state_dict module_name module_arch st
      = Ok (st', after) →
    built_from (resumed state_dict) module_arch after.
Proof.
  induction module_arch as [type layers module_inputs IH | operation params inputs]
    using layer_config_induction; intros module_name st st' after H.
  2:{ discriminate. }
  cbn [_build_module] in H.
  apply bind_Ok in H as (st0 & _ & H).
  apply bind_Ok in H as ([st1 layers'] & Hlayers & H).
  apply bind_Ok in H as (st2 & _ & H).
  injection H as _ <-. constructor.
  clear st st' st2. revert st0 st1 layers' Hlayers.
  induction IH as [|[key config] rest Hconfig _ IHrest];
    intros st0 st1 layers' Hlayers.
  - injection Hlayers as _ <-. constructor.
  - apply bind_Ok in Hlayers as (sta & _ & Hlayers).
    apply bind_Ok in Hlayers as ([stb config'] & Hone & Hlayers).
    apply bind_Ok in Hlayers as ([stc rest'] & Hrest & Hlayers).
    injection Hlayers as _ <-. constructor.
    + split; [reflexivity|]. cbn [snd] in *.
      destruct config as [[t|] sub sub_inputs | operation params inputs].
      * apply bind_Ok in Hone as ([std built] & Hsub & Hone).
        apply bind_Ok in Hone as (ste & _ & Hone). injection Hone as _ <-.
        eapply Hconfig. exact Hsub.
      * discriminate.
      * apply bind_Ok in Hone as ([std params'] & Hleaf & Hone).
        injection Hone as _ <-.
        apply build_leaf_params in Hleaf as (tag & before & -> & -> & Hafter).
        constructor. exact Hafter.
    + eapply IHrest. exact Hrest.
Qed.
End AssemblerFacts.

Lemma built_from_operation_tags (on_resume : bool) (before : layer_config) :
  ∀ after, built_from on_resume before after →
           operation_tags after = operation_tags before.
Proof.
  induction before as [type layers module_inputs IH | operation params inputs]
    using layer_config_induction; intros after Hbuilt; inversion Hbuilt; subst.
  2:{ reflexivity. }
  cbn [operation_tags].
  match goal with H : Forall2 _ layers _ |- _ => rename H into Hlayers end.
  induction Hlayers as [|b a bs as' [_ Hone] _ IHrest]; [reflexivity|].
  apply Forall_cons in IH as [IHb IHbs].
  cbn [flat_map]. rewrite (IHb _ Hone). f_equal.
  apply IHrest; [exact IHbs|]. constructor.
  inversion Hbuilt; subst.
  match goal with H : Forall2 _ (b :: bs) (a :: as') |- _ =>
    inversion H; subst; assumption end.
Qed.

(** C8 (as the code has it).  A build that completes leaves the
    architecture with the same modules, layer names, operation tags and
    inputs.  The params of a leaf are unchanged except in two branches: a
    pooling leaf ends with ["padding"] set to the per-axis list of the
    padding it had (zeros when it had none), its stride restored; a linear
    leaf may have ["in_features"] and ["out_features"] overwritten, and is
    unchanged when no [state_dict] is given and [in_features] is not -1. *)
Theorem build_module_leaves_architecture {State : Type}
        (handle : State → build_event → result State)
        (output_shape_prod : State → Z)
        (state_dict : option (gmap string (ndarray R)))
        (module_name : option string) (module_arch after : layer_config)
        (st st' : State) :
  _build_module handle output_shape_prod state_dict module_name module_arch st
    = Ok (st', after) →
  built_from (resumed state_dict) module_arch after
  ∧ operation_tags after = operation_tags module_arch.
Proof.
  intros H. apply build_module_built_from in H.
  split; [exact H|]. eapply built_from_operation_tags. exact H.
Qed.

Lemma small_arch_build :
  _build_module no_state (fun _ => 48) None None small_arch tt
  = Ok (tt, small_arch_built).
Proof. vm_compute. reflexivity. Qed.

Lemma build_module_leaves_architecture_witness :
  built_from (resumed None) small_arch small_arch_built
  ∧ operation_tags small_arch_built = operation_tags small_arch.
Proof.
  apply (build_module_leaves_architecture no_state (fun _ => 48) None None
           small_arch small_arch_built tt tt).
  exact small_arch_build.
Defined.

(** The claim as stated fails: the build of [small_arch] completes and
    leaves the pooling leaf with a ["padding"] entry it did not have (and
    the linear leaf with its [in_features] resolved). *)
Lemma build_module_changes_params :
  ¬ (∀ (State : Type) (handle : State → build_event → result State)
       (output_shape_prod : State → Z)
       (state_dict : option (gmap string (ndarray R)))
       (module_name : option string) (module_arch after : layer_config)
       (st st' : State),
        _build_module handle output_shape_prod state_dict module_name
          module_arch st = Ok (st', after) →
        after = module_arch).
Proof.
  intros H.
  specialize (H unit no_state (fun _ => 48) None None small_arch
                small_arch_built tt tt small_arch_build).
  apply (f_equal (fun c => match c with
                           | Module _ (_ :: (_, Layer _ (Some params) _) :: _) _ =>
                               params !! "padding"
                           | _ => None
                           end)) in H.
  vm_compute in H. discriminate H.
Qed.

(** * Further properties of the builder *)

Lemma not_Ok_Err {A : Type} (r : result A) : (∀ a, r ≠ Ok a) → ∃ e, r = Err e.
Proof. destruct r as [a|e]; [intros H; destruct (H a eq_refl) | eauto]. Qed.

Lemma mapR_length {A B : Type} (f : A → result B) (l : list A) :
  ∀ bs, mapR f l = Ok bs → length bs = length l.
Proof.
  induction l as [|a l IH]; simpl; intros bs H.
  - injection H as <-. reflexivity.
  - bind_inv H as b Hb. bind_inv H as bs' Hbs. injection H as <-.
    simpl. f_equal. auto.
Qed.

Lemma filter_length_full {A : Type} (f : A → bool) (l : list A) :
  length (List.filter f l) = length l → List.filter f l = l.
Proof.
  induction l as [|a l IH]; simpl; [reflexivity|].
  destruct (f a); simpl; intros H.
  - f_equal. apply IH. lia.
  - pose proof (filter_length_le f l). lia.
Qed.

Section PatchShape.
Context {A : Type} (zero : A).

(** The patch tensor is the squeezed form of [N x offsets... x in_channels],
    with one list of offsets per axis of the kernel. *)
Lemma generate_patches_shape (images : list (ndarray A))
      (markers : list (ndarray Z)) (in_channels : nat)
      (kernel_size dilation : list Z) (patches : ndarray A) (labels : list Z) :
  _generate_patches zero images markers in_channels kernel_size dilation
    = Ok (patches, labels) →
  ∃ (n : nat) (offs : list (list nat)),
    shape patches = List.filter (fun extent => negb (extent =? 1)%nat)
                                (n :: map length offs ++ [in_channels])
    ∧ length offs = length kernel_size
    ∧ (existsb (fun d => 1 <? d) dilation = false →
       offs = map (seq 0) (map Z.to_nat
                (zip_with (fun k d => k + (d - 1) * (k - 1)) kernel_size dilation))).
Proof.
  unfold _generate_patches. intros H.
  destruct (negb _) eqn:Hrank; [discriminate|].
  destruct (negb (forallb _ _)); [discriminate|].
  bind_inv H as offs Hoffs. bind_inv H as all Hall.
  destruct all as [[ps ls]|]; [|discriminate].
  injection H as <- <-.
  exists (length ps), offs. split; [reflexivity|].
  apply negb_false_iff, andb_true_iff in Hrank as [_ Hdil].
  apply Nat.eqb_eq in Hdil.
  destruct (existsb _ dilation).
  - split; [|discriminate].
    apply mapR_length in Hoffs. rewrite Hoffs, length_combine, length_zip_with. lia.
  - injection Hoffs as <-. split; [|reflexivity].
    rewrite !length_map, length_zip_with. lia.
Qed.
End PatchShape.

Section SqueezedPatches.
Variable KMeans : nat → list (list R) → list (list R).
Variable PCA_components : nat → list (list R) → list (list R).
Variable rand : nat → list R.

Lemma standardize_shape (n_axes : nat) (default_std : R) (patches t : ndarray R) :
  standardize n_axes default_std patches = Ok t → shape t = shape patches.
Proof.
  unfold standardize. destruct (ndim patches <? n_axes)%nat; [discriminate|].
  intros [= <-]. reflexivity.
Qed.

Lemma kmeans_roots_ndim {A : Type} (KM : nat → list (list A) → list (list A))
      (patches : ndarray A) (labels : list Z) (n_clusters_per_label : Z)
      (kernels : ndarray A) :
  _kmeans_roots KM patches labels n_clusters_per_label = Ok kernels →
  ndim kernels = ndim patches.
Proof.
  intros H. pose proof (kmeans_roots_well_formed _ _ _ _ _ H) as (_ & _ & n & Hn).
  unfold _kmeans_roots in H. bind_inv H as rows Hrows.
  unfold rows_of in Hrows. unfold ndim. rewrite Hn.
  destruct (shape patches); [discriminate|reflexivity].
Qed.

(** The kernels of [_calculate_convNd_weights] have as many axes as the
    squeezed patches. *)
Lemma calculate_weights_ndim (images : list (ndarray R))
      (markers : list (ndarray Z)) (in_channels : nat)
      (kernel_size dilation : list Z) (number_of_kernels_per_marker : Z)
      (default_std : R) (weights : ndarray R) :
  _calculate_convNd_weights KMeans images markers in_channels kernel_size
    dilation number_of_kernels_per_marker default_std = Ok weights →
  ∃ patches labels,
    _generate_patches 0%R images markers in_channels kernel_size dilation
      = Ok (patches, labels)
    ∧ ndim weights = ndim patches.
Proof.
  unfold _calculate_convNd_weights. intros H.
  bind_inv H as pl Hpl. destruct pl as [patches labels].
  bind_inv H as standardized Hstd. bind_inv H as roots Hroots.
  bind_inv H as kernels Hkernels. injection H as <-.
  exists patches, labels. split; [exact Hpl|].
  apply kmeans_roots_ndim in Hroots. apply standardize_shape in Hstd.
  unfold ndim in *. simpl. rewrite Hroots, Hstd. reflexivity.
Qed.

(** The transposition of the marker path exists for 4 or 5 axes only. *)
Lemma marker_kernels_ndim (images : list (ndarray R))
      (markers : list (ndarray Z)) (in_channels : nat)
      (kernel_size dilation : list Z) (number_of_kernels_per_marker : option Z)
      (default_std : R) (kernels : ndarray R) :
  marker_kernels KMeans images markers in_channels kernel_size dilation
    number_of_kernels_per_marker default_std = Ok kernels →
  ∃ patches labels,
    _generate_patches 0%R images markers in_channels kernel_size dilation
      = Ok (patches, labels)
    ∧ (ndim patches = 4 ∨ ndim patches = 5)%nat.
Proof.
  unfold marker_kernels. intros H.
  bind_inv H as nkpm Hnkpm. bind_inv H as weights Hweights.
  apply calculate_weights_ndim in Hweights as (patches & labels & Hp & Hndim).
  exists patches, labels. split; [exact Hp|]. rewrite <- Hndim.
  destruct (ndim weights =? 4)%nat eqn:E4.
  - left. apply Nat.eqb_eq. exact E4.
  - right. unfold transpose in H.
    destruct (negb _) eqn:E5; [discriminate|].
    apply negb_false_iff, Nat.eqb_eq in E5. simpl in E5. lia.
Qed.

Lemma initialize_marker_path (images : list (ndarray R))
      (markers : list (ndarray Z)) (in_channels : nat) (out_channels : option Z)
      (kernel_size dilation : list Z) (number_of_kernels_per_marker : option Z)
      (default_std : R) (weights : ndarray R) :
  _initialize_convNd_weights KMeans PCA_components rand (Some images) (Some markers)
    in_channels out_channels kernel_size dilation number_of_kernels_per_marker
    false default_std = Ok weights →
  ∃ kernels,
    marker_kernels KMeans images markers in_channels kernel_size dilation
      number_of_kernels_per_marker default_std = Ok kernels
    ∧ reduce_to_out_channels KMeans PCA_components out_channels kernels = Ok weights.
Proof.
  unfold _initialize_convNd_weights. intros H.
  bind_inv H as kernels Hkernels. eauto.
Qed.

(** What the squeeze leaves of a patch tensor of a 2D kernel when the
    build goes on: all four axes. *)
Lemma marker_path_unsqueezed (images : list (ndarray R))
      (markers : list (ndarray Z)) (in_channels : nat)
      (kernel_size dilation : list Z) (number_of_kernels_per_marker : option Z)
      (default_std : R) (kernels : ndarray R) :
  length kernel_size = 2%nat →
  marker_kernels KMeans images markers in_channels kernel_size dilation
    number_of_kernels_per_marker default_std = Ok kernels →
  ∃ patches labels (n : nat) (offs : list (list nat)),
    _generate_patches 0%R images markers in_channels kernel_size dilation
      = Ok (patches, labels)
    ∧ shape patches = n :: map length offs ++ [in_channels]
    ∧ length offs = 2%nat
    ∧ Forall (fun extent => extent ≠ 1%nat) (shape patches)
    ∧ (existsb (fun d => 1 <? d) dilation = false →
       offs = map (seq 0) (map Z.to_nat
                (zip_with (fun k d => k + (d - 1) * (k - 1)) kernel_size dilation))).
Proof.
  intros Hrank H.
  apply marker_kernels_ndim in H as (patches & labels & Hp & Hndim).
  pose proof (generate_patches_shape _ _ _ _ _ _ _ _ Hp) as (n & offs & Hsq & Hoffs & Hdil).
  exists patches, labels, n, offs.
  set (full := n :: map length offs ++ [in_channels]) in *.
  assert (Hlen : length full = 4%nat).
  { unfold full. simpl. rewrite length_app, length_map, Hoffs, Hrank. reflexivity. }
  pose proof (filter_length_le (fun extent => negb (extent =? 1)%nat) full) as Hle.
  assert (Hshape : shape patches = full).
  { rewrite Hsq. apply filter_length_full.
    unfold ndim in Hndim. rewrite Hsq in Hndim. lia. }
  repeat split; auto; [lia|].
  rewrite Hsq. apply List.Forall_forall. intros extent Hin.
  apply List.filter_In in Hin as [_ Hne].
  apply negb_true_iff, Nat.eqb_neq in Hne. exact Hne.
Qed.
End SqueezedPatches.

(** X1.  The 2D marker path of [_initialize_convNd_weights] returns weights
    only when the squeeze at the end of [_generate_patches] has removed no
    axis: the number of patches, the two extents of a patch and
    [in_channels] all differ from 1.  With single-channel images (or one
    patch, or patches of extent 1) the later transposition has no axes to
    work on and the call ends in an exception. *)
Theorem marker_path_needs_four_axes
        (KMeans PCA_components : nat → list (list R) → list (list R))
        (rand : nat → list R)
        (images : list (ndarray R)) (markers : list (ndarray Z))
        (in_channels : nat) (out_channels : option Z)
        (kernel_size dilation : list Z) (number_of_kernels_per_marker : option Z)
        (default_std : R) (weights : ndarray R) :
  length kernel_size = 2%nat →
  _initialize_convNd_weights KMeans PCA_components rand (Some images) (Some markers)
    in_channels out_channels kernel_size dilation number_of_kernels_per_marker
    false default_std = Ok weights →
  in_channels ≠ 1%nat
  ∧ ∃ patches labels (n h w : nat),
      _generate_patches 0%R images markers in_channels kernel_size dilation
        = Ok (patches, labels)
      ∧ shape patches = [n; h; w; in_channels]
      ∧ n ≠ 1%nat ∧ h ≠ 1%nat ∧ w ≠ 1%nat.
Proof.
  intros Hrank H.
  apply initialize_marker_path in H as (kernels & Hkernels & _).
  apply marker_path_unsqueezed in Hkernels
    as (patches & labels & n & offs & Hp & Hshape & Hoffs & Hne & _); [|exact Hrank].
  destruct offs as [|o0 [|o1 [|o2 offs]]]; try discriminate.
  simpl in Hshape. rewrite Hshape in Hne.
  apply Forall_cons in Hne as [Hn Hne]. apply Forall_cons in Hne as [H0 Hne].
  apply Forall_cons in Hne as [H1 Hne]. apply Forall_cons in Hne as [Hc _].
  split; [exact Hc|].
  exists patches, labels, n, (length o0), (length o1). auto.
Qed.

Lemma marker_path_needs_four_axes_witness :
  (2 ≠ 1)%nat
  ∧ ∃ patches labels (n h w : nat),
      _generate_patches 0%R black_images black_markers 2 [3; 3] [1; 1]
        = Ok (patches, labels)
      ∧ shape patches = [n; h; w; 2%nat]
      ∧ n ≠ 1%nat ∧ h ≠ 1%nat ∧ w ≠ 1%nat.
Proof.
  exact (marker_path_needs_four_axes first_rows first_rows no_draws black_images
           black_markers 2 None [3; 3] [1; 1] (Some 2) (1 / 1000000)%R
           (zeros [2; 2; 3; 3]%nat) eq_refl (black_weights_all _)).
Defined.

Lemma zip_with_repeat_zero (kernel_size : list Z) (m : nat) :
  map (fun o : list nat => length o)
      (map (seq 0) (map Z.to_nat
         (zip_with (fun k d => k + (d - 1) * (k - 1)) kernel_size (repeat 0 m))))
  = repeat 1%nat (length kernel_size `min` m).
Proof.
  revert m. induction kernel_size as [|k ks IH]; intros [|m]; simpl; try reflexivity.
  rewrite IH. f_equal. rewrite length_seq.
  replace (k + (0 - 1) * (k - 1)) with 1 by lia. reflexivity.
Qed.

Lemma existsb_repeat_zero (m : nat) : existsb (fun d => 1 <? d) (repeat 0 m) = false.
Proof. induction m as [|m IH]; simpl; auto. Qed.

Lemma filter_repeat_one (m : nat) (rest : list nat) :
  List.filter (fun extent => negb (extent =? 1)%nat) (repeat 1%nat m ++ rest)
  = List.filter (fun extent => negb (extent =? 1)%nat) rest.
Proof. induction m as [|m IH]; simpl; auto. Qed.

(** With a dilation of 0 on every axis the dilated kernel has extent 1:
    the patches are single pixels and the squeeze leaves at most two axes. *)
Lemma zero_dilation_patches {A : Type} (zero : A) (images : list (ndarray A))
      (markers : list (ndarray Z)) (in_channels : nat) (kernel_size : list Z)
      (m : nat) (patches : ndarray A) (labels : list Z) :
  _generate_patches zero images markers in_channels kernel_size (repeat 0 m)
    = Ok (patches, labels) →
  (ndim patches <= 2)%nat.
Proof.
  intros H. apply generate_patches_shape in H as (n & offs & Hshape & _ & Hoffs).
  specialize (Hoffs (existsb_repeat_zero m)). subst offs.
  unfold ndim. rewrite Hshape, zip_with_repeat_zero.
  change (n :: ?l ++ ?r) with ([n] ++ l ++ r).
  rewrite List.filter_app, filter_repeat_one, length_app.
  pose proof (filter_length_le (fun extent => negb (extent =? 1)%nat) [n]).
  pose proof (filter_length_le (fun extent => negb (extent =? 1)%nat) [in_channels]).
  simpl length in *. lia.
Qed.

(** X2.  A convolution leaf that is initialised from markers and gives no
    ['dilation'] never builds: [_build_module] reads the missing dilation
    as 0, [_generate_patches] then cuts patches of extent 1 and squeezes
    them, and the weights cannot be brought to the layout of a
    convolution. *)
Theorem conv_leaf_without_dilation_fails
        (KMeans PCA_components : nat → list (list R) → list (list R))
        (rand : nat → list R) (key : string) (is_3d : bool)
        (operation_params : gmap string pyval)
        (images : list (ndarray R)) (markers : list (ndarray Z))
        (state_dict : option (gmap string (ndarray R)))
        (last_conv_layer_out_channels : nat) (default_std : R)
        (remove_similar_filters : bool) (similarity_level : R) :
  operation_params !! "dilation" = None →
  truthy (default (PBool false) (operation_params !! "use_random_kernels")) = false →
  ∃ e, build_conv_leaf KMeans PCA_components rand key is_3d operation_params
         (Some images) (Some markers) state_dict last_conv_layer_out_channels
         default_std remove_similar_filters similarity_level = Err e.
Proof.
  intros Hdil Hrandom. apply not_Ok_Err. intros layer H.
  unfold build_conv_leaf in H. rewrite Hdil, Hrandom in H.
  bind_inv H as kernel_size Hks.
  destruct (negb _); [discriminate|].
  bind_inv H as dilation Hdilation.
  assert (Hzero : dilation = repeat 0 (if is_3d then 3 else 2)%nat).
  { destruct is_3d; injection Hdilation as <-; reflexivity. }
  subst dilation.
  bind_inv H as kernel_sizes Hkss. bind_inv H as nkpm Hnkpm.
  bind_inv H as out_channels Hout. bind_inv H as guard Hguard.
  bind_inv H as oc Hoc. bind_inv H as weights Hweights.
  apply initialize_marker_path in Hweights as (kernels & Hkernels & _).
  apply marker_kernels_ndim in Hkernels as (patches & labels & Hp & Hndim).
  apply zero_dilation_patches in Hp. lia.
Qed.

Lemma conv_leaf_without_dilation_fails_witness :
  ∃ e, build_conv_leaf first_rows first_rows no_draws "conv1" false
         (<["kernel_size" := PInt 3]> (<["out_channels" := PInt 2]> ∅))
         (Some black_images) (Some black_markers) None 2 (1 / 1000000)%R
         false (85 / 100)%R = Err e.
Proof.
  apply conv_leaf_without_dilation_fails; reflexivity.
Defined.

(** ** The row-major layout *)

(** The entries listed by [np.where(m != 0)] are the non-zero entries of
    [m], each at its own multi-index. *)
Lemma nonzero_spec (m : ndarray Z) (idx : list nat) (v : Z) :
  well_formed m →
  In (idx, v) (nonzero m)
  ↔ Forall2 (fun i n => (i < n)%nat) idx (shape m) ∧ nd_get 0 m idx = v ∧ v ≠ 0.
Proof.
  unfold well_formed, nonzero, nd_get. intros Hwf. rewrite List.filter_In. simpl.
  rewrite negb_true_iff, Z.eqb_neq. split.
  - intros [Hin Hv].
    apply (In_nth _ _ ([], 0)) in Hin as (k & Hk & Hnth).
    rewrite length_combine, cartesian_length, map_length_seq, Hwf, Nat.min_id in Hk.
    rewrite combine_nth in Hnth
      by (rewrite cartesian_length, map_length_seq; auto).
    injection Hnth as Hidx Hval.
    destruct (cartesian_nth _ _ Hk) as [Hbound Hflat]. rewrite Hidx in *.
    rewrite Hflat. auto.
  - intros (Hbound & Hval & Hv). split; [|exact Hv].
    pose proof (flat_index_bound _ _ Hbound) as Hb.
    rewrite <- (cartesian_flat_index _ _ Hbound) at 1. rewrite <- Hval.
    rewrite <- (combine_nth _ _ _ [] 0)
      by (rewrite cartesian_length, map_length_seq; auto).
    apply nth_In.
    rewrite length_combine, cartesian_length, map_length_seq, Hwf, Nat.min_id.
    exact Hb.
Qed.

(** ** [_prepare_markers] *)

Lemma nonzero_nth (m : ndarray Z) (j : nat) :
  ndim m = 2%nat → well_formed m → (j < length (nonzero m))%nat →
  ∃ x y, nth j (nonzero m) ([], 0) = ([x; y], nd_get 0 m [x; y])
         ∧ Forall2 (fun i n => (i < n)%nat) [x; y] (shape m)
         ∧ nd_get 0 m [x; y] ≠ 0.
Proof.
  intros Hndim Hwf Hj.
  assert (Hin : In (nth j (nonzero m) ([], 0)) (nonzero m)) by (apply nth_In; auto).
  destruct (nth j (nonzero m) ([], 0)) as [idx v] eqn:Hnth.
  apply nonzero_spec in Hin as (Hbound & Hval & Hv); [|exact Hwf].
  unfold ndim in Hndim.
  destruct (shape m) as [|h [|w [|? ?]]] eqn:Hshape; try discriminate.
  inversion Hbound as [|x ? idx1 ? Hx H1]; subst.
  inversion H1 as [|y ? idx2 ? Hy H2]; subst. inversion H2; subst.
  exists x, y. rewrite <- Hshape in Hbound. auto.
Qed.

Lemma prepare_markers_image_spec (m : ndarray Z) :
  ndim m = 2%nat → well_formed m → data m ≠ [] →
  ∃ prepared, prepare_markers_image m = Ok prepared ∧ lists_marked_pixels m prepared.
Proof.
  intros Hndim Hwf Hdata.
  unfold prepare_markers_image, coordinate. rewrite Hndim. simpl.
  destruct (max_list (data m)) as [max_label|e] eqn:Hmax.
  2: { unfold max_list in Hmax. destruct (data m); [contradiction|discriminate]. }
  simpl. eexists. split; [reflexivity|].
  set (labels := if 1 <? max_label then _ else _).
  assert (Hlabels : labels = map (fun iv : list nat * Z =>
                                    snd iv - (if 1 <? max_label then 1 else 0))
                                 (nonzero m)).
  { unfold labels. destruct (1 <? max_label); [reflexivity|].
    apply map_ext. intros iv. lia. }
  clearbody labels. subst labels.
  exists max_label. rewrite !length_map.
  split; [exact Hmax|]. split; [reflexivity|]. split; [reflexivity|]. split.
  - intros j Hj.
    destruct (nonzero_nth m j Hndim Hwf Hj) as (x & y & Hnth & Hbound & Hv).
    rewrite !(nth_map_default _ _ _ ([], 0)) by exact Hj.
    rewrite Hnth. simpl. auto.
  - intros x y Hbound Hv.
    assert (Hin : In ([x; y], nd_get 0 m [x; y]) (nonzero m)).
    { apply nonzero_spec; auto. }
    apply (In_nth _ _ ([], 0)) in Hin as (j & Hj & Hnth).
    exists j. split; [exact Hj|].
    rewrite !(nth_map_default _ _ _ ([], 0)) by exact Hj.
    rewrite Hnth. auto.
Qed.

(** X3.  [_prepare_markers] on two-dimensional, non-empty label images:
    for every image it returns three parallel arrays that list exactly the
    marked pixels; reading the image back at a listed coordinate gives
    the listed label, shifted by one when the largest label of the image
    is above 1 and unchanged on a binary image. *)
Theorem prepare_markers_lists_marked_pixels (markers : list (ndarray Z)) :
  Forall (fun m => ndim m = 2%nat ∧ well_formed m ∧ data m ≠ []) markers →
  ∃ prepared, _prepare_markers markers = Ok prepared
              ∧ Forall2 lists_marked_pixels markers prepared.
Proof.
  unfold _prepare_markers.
  induction 1 as [|m markers (Hndim & Hwf & Hdata) _ IH]; simpl.
  - exists []. split; [reflexivity|constructor].
  - destruct (prepare_markers_image_spec m Hndim Hwf Hdata) as (p & -> & Hp).
    destruct IH as (ps & -> & Hps). simpl.
    exists (p :: ps). split; [reflexivity|constructor; assumption].
Qed.

Lemma prepare_markers_lists_marked_pixels_witness :
  ∃ prepared, _prepare_markers [NdArray [2; 2]%nat [1; 0; 0; 3]] = Ok prepared
              ∧ Forall2 lists_marked_pixels [NdArray [2; 2]%nat [1; 0; 0; 3]] prepared.
Proof.
  apply prepare_markers_lists_marked_pixels.
  constructor; [|constructor].
  split; [reflexivity|]. split; [reflexivity|discriminate].
Defined.

(** ** The patches of [_generate_patches] *)

Lemma arange_dilated (k d : Z) :
  1 <= k → 1 <= d →
  arange (k + (d - 1) * (k - 1)) d
  = Ok (map (fun i => (i * Z.to_nat d)%nat) (seq 0 (Z.to_nat k))).
Proof.
  intros Hk Hd. unfold arange.
  destruct (d =? 0) eqn:E0; [lia|].
  destruct (d <? 0) eqn:E1; [lia|].
  destruct (k + (d - 1) * (k - 1) <=? 0) eqn:E2; [nia|]. simpl.
  replace (k + (d - 1) * (k - 1) + d - 1) with (k * d) by ring.
  rewrite Z.div_mul by lia. reflexivity.
Qed.

Section PatchCount.
Context {A : Type} (zero : A).

(** The steps of [_generate_patches] when it returns. *)
Lemma generate_patches_inv (images : list (ndarray A))
      (markers : list (ndarray Z)) (in_channels : nat)
      (kernel_size dilation : list Z) (patches : ndarray A) (labels : list Z) :
  _generate_patches zero images markers in_channels kernel_size dilation
    = Ok (patches, labels) →
  let dilated_kernel_size :=
    zip_with (fun k d => k + (d - 1) * (k - 1)) kernel_size dilation in
  ∃ (offs : list (list nat)) (all_patches : list (list A)),
    length dilation = length kernel_size
    ∧ Forall (fun k => 1 <= k) dilated_kernel_size
    ∧ (if existsb (fun d => 1 <? d) dilation
       then mapR (fun kd => arange (fst kd) (snd kd))
                 (combine dilated_kernel_size dilation)
       else Ok (map (seq 0) (map Z.to_nat dilated_kernel_size))) = Ok offs
    ∧ patches_loop zero in_channels (map Z.to_nat dilated_kernel_size) offs
        (combine images markers) None = Ok (Some (all_patches, labels))
    ∧ patches = squeeze (NdArray (length all_patches :: map length offs ++ [in_channels])
                                 (concat all_patches)).
Proof.
  intros H. cbv zeta. unfold _generate_patches in H.
  set (dks := zip_with (fun k d => k + (d - 1) * (k - 1)) kernel_size dilation) in *.
  destruct (negb _) eqn:Hrank; [discriminate|].
  destruct (negb (forallb _ _)) eqn:Hdk; [discriminate|].
  bind_inv H as offs Hoffs. bind_inv H as all Hall.
  destruct all as [[ps ls]|]; [|discriminate].
  injection H as <- <-.
  exists offs, ps.
  apply negb_false_iff, andb_true_iff in Hrank as [_ Hdil].
  apply Nat.eqb_eq in Hdil.
  apply negb_false_iff in Hdk. rewrite forallb_forall in Hdk.
  repeat split; auto.
  apply List.Forall_forall. intros k Hk. apply Hdk in Hk. lia.
Qed.

Lemma window_length (image : ndarray A) (pads origin : list nat)
      (offs : list (list nat)) :
  length (window zero image pads origin offs) = prod_nat (map length offs).
Proof. unfold window. rewrite length_map. apply cartesian_length. Qed.

(** One image whose channels are those of the layer: one patch per label,
    each with one element per offset and channel. *)
Lemma patches_of_image_count (in_channels : nat) (dk : list nat)
      (offs : list (list nat)) (image : ndarray A) (image_markers : ndarray Z)
      (ps : list (list A)) (ls : list Z) :
  nth (length dk) (shape image) 0%nat = in_channels →
  patches_of_image zero in_channels dk offs image image_markers = Ok (ps, ls) →
  length ps = length ls
  ∧ Forall (fun p => length p = (prod_nat (map length offs) * in_channels)%nat) ps.
Proof.
  unfold patches_of_image. intros Hc H. rewrite Hc in H.
  destruct (negb _); [discriminate|].
  destruct (negb (forallb _ _)); [discriminate|].
  bind_inv H as markers_x Hx. bind_inv H as markers_y Hy.
  rewrite Nat.sub_diag in H. change (0 + 1)%nat with 1%nat in H.
  injection H as <- <-. split.
  - rewrite (flat_map_length_const _ _ 1%nat) by reflexivity.
    rewrite !length_map. lia.
  - apply List.Forall_forall. intros p Hp.
    apply in_flat_map in Hp as (cl & _ & Hp). simpl in Hp.
    destruct Hp as [<-|[]].
    rewrite window_length, map_app. simpl map. rewrite length_seq.
    clear. induction (map length offs) as [|n l IH]; simpl; [lia|].
    rewrite IH. lia.
Qed.

Lemma patches_loop_count (in_channels : nat) (dk : list nat)
      (offs : list (list nat)) (pairs : list (ndarray A * ndarray Z)) :
  Forall (fun pair => nth (length dk) (shape (fst pair)) 0%nat = in_channels) pairs →
  ∀ acc ps ls,
    (∀ ps0 ls0, acc = Some (ps0, ls0) →
       length ps0 = length ls0
       ∧ Forall (fun p => length p = (prod_nat (map length offs) * in_channels)%nat) ps0) →
    patches_loop zero in_channels dk offs pairs acc = Ok (Some (ps, ls)) →
    length ps = length ls
    ∧ Forall (fun p => length p = (prod_nat (map length offs) * in_channels)%nat) ps.
Proof.
  induction 1 as [|[image m] pairs Hc _ IH]; intros acc ps ls Hacc H; simpl in H.
  - injection H as ->. auto.
  - bind_inv H as n Hn. destruct (n =? 0)%nat; [eauto|].
    bind_inv H as generated Hgen. destruct generated as [gp gl].
    apply patches_of_image_count in Hgen as [Hlen Hwidth]; [|exact Hc].
    apply IH in H; [exact H|].
    intros ps0 ls0 Heq. destruct acc as [[ap al]|]; injection Heq as <- <-.
    + destruct (Hacc ap al eq_refl) as [Hal Haw].
      rewrite !length_app. split; [lia|]. apply List.Forall_app. auto.
    + auto.
Qed.
End PatchCount.

Lemma dilated_offsets (kernel_size : list Z) :
  ∀ dilation offs,
    length dilation = length kernel_size →
    Forall (fun d => 1 <= d) dilation →
    Forall (fun k => 1 <= k)
           (zip_with (fun k d => k + (d - 1) * (k - 1)) kernel_size dilation) →
    mapR (fun kd => arange (fst kd) (snd kd))
         (combine (zip_with (fun k d => k + (d - 1) * (k - 1)) kernel_size dilation)
                  dilation) = Ok offs →
    map length offs = map Z.to_nat kernel_size.
Proof.
  induction kernel_size as [|k ks IH]; intros [|d ds] offs Hlen Hd Hk H;
    try discriminate; simpl in *.
  - injection H as <-. reflexivity.
  - apply Forall_cons in Hd as [Hd Hds]. apply Forall_cons in Hk as [Hk Hks].
    assert (1 <= k) by nia.
    rewrite arange_dilated in H by assumption.
    bind_inv H as o Ho. injection Ho as <-.
    bind_inv H as rest Hrest. injection H as <-. simpl.
    rewrite length_map, length_seq. f_equal. apply (IH ds); auto.
Qed.

Lemma undilated_kernel (kernel_size : list Z) :
  ∀ dilation,
    length dilation = length kernel_size →
    Forall (fun d => 1 <= d) dilation →
    existsb (fun d => 1 <? d) dilation = false →
    zip_with (fun k d => k + (d - 1) * (k - 1)) kernel_size dilation = kernel_size.
Proof.
  induction kernel_size as [|k ks IH]; intros [|d ds] Hlen Hd Hex;
    try discriminate; simpl in *; [reflexivity|].
  apply Forall_cons in Hd as [Hd Hds].
  apply orb_false_iff in Hex as [Hd1 Hex].
  rewrite IH by (auto; lia). f_equal. assert (d = 1) by lia. subst d. lia.
Qed.

(** X4.  [_generate_patches] on images that have the channels of the layer,
    with a dilation of at least 1 on every axis: one patch per returned
    label, each patch of [kernel_size] extent on every axis (dilated
    windows are subsampled back to the kernel size) and [in_channels]
    channels; the tensor returned is the squeezed form of
    [labels x kernel_size x in_channels]. *)
Theorem generate_patches_one_patch_per_label {A : Type} (zero : A)
        (images : list (ndarray A)) (markers : list (ndarray Z))
        (in_channels : nat) (kernel_size dilation : list Z)
        (patches : ndarray A) (labels : list Z) :
  Forall (fun image => nth (length kernel_size) (shape image) 0%nat = in_channels)
         images →
  Forall (fun d => 1 <= d) dilation →
  _generate_patches zero images markers in_channels kernel_size dilation
    = Ok (patches, labels) →
  shape patches
  = List.filter (fun extent => negb (extent =? 1)%nat)
                (length labels :: map Z.to_nat kernel_size ++ [in_channels])
  ∧ length (data patches)
    = (length labels * (prod_nat (map Z.to_nat kernel_size) * in_channels))%nat.
Proof.
  intros Hc Hd H.
  apply generate_patches_inv in H
    as (offs & all_patches & Hlen & Hdk & Hoffs & Hloop & ->).
  assert (Hlengths : map length offs = map Z.to_nat kernel_size).
  { destruct (existsb _ dilation) eqn:Hex.
    - eapply dilated_offsets; eauto.
    - injection Hoffs as <-. rewrite map_length_seq.
      rewrite undilated_kernel by assumption. reflexivity. }
  apply patches_loop_count in Hloop as [Hcount Hwidth].
  - unfold squeeze. simpl. rewrite Hlengths, Hcount. split; [reflexivity|].
    rewrite (concat_width _ _ Hwidth), Hcount, Hlengths. reflexivity.
  - apply List.Forall_forall. intros [image m] Hin. simpl.
    apply List.in_combine_l in Hin.
    rewrite List.Forall_forall in Hc. specialize (Hc image Hin).
    rewrite !length_map, length_zip_with. rewrite Hlen, Nat.min_id. exact Hc.
  - discriminate.
Qed.

Lemma generate_patches_one_patch_per_label_witness :
  shape (zeros [2; 3; 3; 2]%nat)
  = List.filter (fun extent => negb (extent =? 1)%nat)
                (length [0; 0] :: map Z.to_nat [3; 3] ++ [2%nat])
  ∧ length (data (zeros [2; 3; 3; 2]%nat))
    = (length [0; 0]%Z * (prod_nat (map Z.to_nat [3; 3]%Z) * 2))%nat.
Proof.
  apply (generate_patches_one_patch_per_label 0%R black_images black_markers 2
           [3; 3] [1; 1]).
  - repeat constructor.
  - repeat constructor; lia.
  - exact black_patches.
Defined.

Lemma patches_loop_skips {A : Type} (zero : A) (in_channels : nat) (dk : list nat)
      (offs : list (list nat)) (pairs : list (ndarray A * ndarray Z))
      (acc : option (list (list A) * list Z)) :
  Forall (fun pair => len (snd pair) = Ok 0%nat) pairs →
  patches_loop zero in_channels dk offs pairs acc = Ok acc.
Proof.
  induction 1 as [|[image m] pairs Hlen _ IH]; simpl; [reflexivity|].
  simpl in Hlen. rewrite Hlen. simpl. exact IH.
Qed.

(** X5.  When no marker array has a positive length (in particular on an
    empty batch of images or markers) [_generate_patches] does not return
    an empty set of patches: nothing was accumulated and the final
    [all_patches.squeeze()] raises. *)
Theorem generate_patches_without_markers_fails {A : Type} (zero : A)
        (images : list (ndarray A)) (markers : list (ndarray Z))
        (in_channels : nat) (kernel_size dilation : list Z) :
  Forall (fun m => len m = Ok 0%nat) markers →
  ∃ e, _generate_patches zero images markers in_channels kernel_size dilation
       = Err e.
Proof.
  intros Hm. apply not_Ok_Err. intros [patches labels] H.
  apply generate_patches_inv in H as (offs & all_patches & _ & _ & _ & Hloop & _).
  rewrite patches_loop_skips in Hloop; [discriminate|].
  apply List.Forall_forall. intros [image m] Hin. simpl.
  apply List.in_combine_r in Hin. rewrite List.Forall_forall in Hm. auto.
Qed.

Lemma generate_patches_without_markers_fails_witness :
  ∃ e, _generate_patches 0%R black_images [] 2 [3; 3] [1; 1] = Err e.
Proof. apply generate_patches_without_markers_fails. constructor. Defined.

(** X6.  Every label returned by [_generate_patches] is a non-zero marker
    value minus one, whatever the largest value of the marker map is; on
    marker maps that hold only 0 and 1 every label is therefore 0. *)
Theorem generate_patches_labels {A : Type} (zero : A)
        (images : list (ndarray A)) (markers : list (ndarray Z))
        (in_channels : nat) (kernel_size dilation : list Z)
        (patches : ndarray A) (labels : list Z) :
  _generate_patches zero images markers in_channels kernel_size dilation
    = Ok (patches, labels) →
  Forall (shifted_label markers) labels
  ∧ ((∀ v, In v (concat (map data markers)) → v = 0 ∨ v = 1) →
     Forall (fun label => label = 0) labels).
Proof.
  intros H. apply generate_patches_labels_shifted in H. split; [exact H|].
  intros Hbinary. eapply List.Forall_impl; [|exact H].
  intros label (v & Hv & Hnz & ->). destruct (Hbinary v Hv); lia.
Qed.

Lemma generate_patches_labels_witness :
  Forall (shifted_label black_markers) [0; 0]
  ∧ ((∀ v, In v (concat (map data black_markers)) → v = 0 ∨ v = 1) →
     Forall (fun label => label = 0) [0; 0]).
Proof.
  exact (generate_patches_labels 0%R black_images black_markers 2 [3; 3] [1; 1]
           (zeros [2; 3; 3; 2]%nat) [0; 0] black_patches).
Defined.

(** ** The number of kernels of [_kmeans_roots] *)

Lemma insert_unique_old (x : Z) (l : list Z) :
  StronglySorted Z.lt l → In x l → insert_unique x l = l.
Proof.
  induction 1 as [|z l Hs IH Hz]; simpl; [contradiction|].
  intros [->|Hin].
  - rewrite Z.ltb_irrefl, Z.eqb_refl. reflexivity.
  - rewrite List.Forall_forall in Hz. specialize (Hz x Hin).
    destruct (x <? z) eqn:Hlt; [lia|].
    destruct (x =? z) eqn:Heq; [lia|]. rewrite IH by assumption. reflexivity.
Qed.

Lemma insert_unique_new (x : Z) (l : list Z) :
  ¬ In x l → Permutation (insert_unique x l) (x :: l).
Proof.
  induction l as [|z l IH]; simpl; intros Hnot; [reflexivity|].
  destruct (x <? z); [reflexivity|].
  destruct (x =? z) eqn:Heq.
  - apply Z.eqb_eq in Heq. subst z. destruct Hnot. auto.
  - rewrite IH by intuition. apply perm_swap.
Qed.

Lemma marked_pixels_cons (x : Z) (labels : list Z) (label : Z) :
  marked_pixels (x :: labels) label
  = ((if (label =? x)%Z then 1 else 0) + marked_pixels labels label)%nat.
Proof. unfold marked_pixels. simpl. destruct (label =? x); reflexivity. Qed.

Lemma marked_pixels_absent (labels : list Z) (label : Z) :
  ¬ In label labels → marked_pixels labels label = 0%nat.
Proof.
  induction labels as [|x labels IH]; intros Hnot; [reflexivity|].
  simpl in Hnot. rewrite marked_pixels_cons, IH by intuition.
  destruct (label =? x) eqn:Heq; [|reflexivity].
  apply Z.eqb_eq in Heq. subst x. destruct Hnot. auto.
Qed.

Lemma marked_pixels_present (labels : list Z) (label : Z) :
  In label labels → (1 <= marked_pixels labels label)%nat.
Proof.
  induction labels as [|x labels IH]; [contradiction|].
  rewrite marked_pixels_cons. intros [->|Hin].
  - rewrite Z.eqb_refl. lia.
  - specialize (IH Hin). lia.
Qed.

Lemma list_sum_indicator_absent (x : Z) (l : list Z) :
  ¬ In x l → list_sum (map (fun u => if (u =? x)%Z then 1 else 0)%nat l) = 0%nat.
Proof.
  induction l as [|z l IH]; simpl; intros Hnot; [reflexivity|].
  rewrite IH by intuition.
  destruct (z =? x) eqn:Heq; [|reflexivity].
  apply Z.eqb_eq in Heq. destruct Hnot. auto.
Qed.

Lemma list_sum_indicator_present (x : Z) (l : list Z) :
  StronglySorted Z.lt l → In x l →
  list_sum (map (fun u => if (u =? x)%Z then 1 else 0)%nat l) = 1%nat.
Proof.
  induction 1 as [|z l Hs IH Hz]; simpl; [contradiction|].
  rewrite List.Forall_forall in Hz. intros [->|Hin].
  - rewrite Z.eqb_refl, list_sum_indicator_absent; [reflexivity|].
    intros Hin. specialize (Hz x Hin). lia.
  - rewrite IH by assumption. specialize (Hz x Hin).
    destruct (z =? x) eqn:Heq; [lia|reflexivity].
Qed.

Lemma list_sum_map_add {A : Type} (f g : A → nat) (l : list A) :
  list_sum (map (fun a => f a + g a)%nat l)
  = (list_sum (map f l) + list_sum (map g l))%nat.
Proof. induction l as [|a l IH]; simpl; [reflexivity|]. rewrite IH. lia. Qed.

(** Every patch carries exactly one of the distinct labels. *)
Lemma marked_pixels_total (labels : list Z) :
  list_sum (map (marked_pixels labels) (np_unique labels)) = length labels.
Proof.
  induction labels as [|x labels IH]; [reflexivity|].
  pose proof (np_unique_sorted labels) as Hs.
  rewrite (map_ext _ (fun u => (if (u =? x)%Z then 1 else 0) + marked_pixels labels u)%nat)
    by (intros u; apply marked_pixels_cons).
  simpl np_unique. simpl length.
  destruct (in_dec Z.eq_dec x (np_unique labels)) as [Hin|Hnot].
  - rewrite insert_unique_old by assumption.
    rewrite list_sum_map_add, IH, list_sum_indicator_present by assumption.
    reflexivity.
  - rewrite (Permutation_list_sum (Permutation_map _ (insert_unique_new _ _ Hnot))).
    simpl. rewrite Z.eqb_refl.
    rewrite list_sum_map_add, IH, list_sum_indicator_absent by assumption.
    rewrite marked_pixels_absent by (rewrite <- np_unique_In; exact Hnot).
    reflexivity.
Qed.

Lemma list_sum_map_le {A : Type} (f g : A → nat) (l : list A) :
  (∀ a, In a l → (f a <= g a)%nat) →
  (list_sum (map f l) <= list_sum (map g l))%nat.
Proof.
  induction l as [|a l IH]; simpl; intros H; [lia|].
  pose proof (H a (or_introl eq_refl)). specialize (IH (fun b Hb => H b (or_intror Hb))).
  lia.
Qed.

Lemma list_sum_map_const {A : Type} (c : nat) (l : list A) :
  list_sum (map (fun _ => c) l) = (length l * c)%nat.
Proof. induction l as [|a l IH]; simpl; [reflexivity|]. rewrite IH. lia. Qed.

Lemma kernels_of_label_bounds (n_clusters_per_label : Z) (labels : list Z) (label : Z) :
  1 <= n_clusters_per_label →
  (kernels_of_label n_clusters_per_label labels label <= marked_pixels labels label)%nat
  ∧ (kernels_of_label n_clusters_per_label labels label
     <= Z.to_nat n_clusters_per_label)%nat
  ∧ (In label labels → 1 <= kernels_of_label n_clusters_per_label labels label)%nat
  ∧ (Z.of_nat (marked_pixels labels label) <= n_clusters_per_label →
     kernels_of_label n_clusters_per_label labels label = marked_pixels labels label).
Proof.
  intros Hc. unfold kernels_of_label.
  destruct (n_clusters_per_label <? Z.of_nat (marked_pixels labels label)) eqn:Hlt.
  - apply Z.ltb_lt in Hlt. repeat split; try lia.
  - apply Z.ltb_ge in Hlt. repeat split; try lia.
    intros Hin. apply marked_pixels_present in Hin. lia.
Qed.

(** X7.  The number of kernels [_kmeans_roots] returns, for at least one
    cluster per label: the sum over the distinct labels of
    [min(n_clusters_per_label, patches of the label)].  It is at least 1,
    at most the number of patches and at most [n_clusters_per_label] times
    the number of distinct labels; when no label has more patches than
    [n_clusters_per_label] every patch becomes a kernel. *)
Theorem kmeans_roots_kernel_count {A : Type}
        (KMeans : nat → list (list A) → list (list A))
        (n : nat) (rest : list nat) (elements : list A) (labels : list Z)
        (n_clusters_per_label : Z) :
  (∀ k X, (1 <= k <= length X)%nat → length (KMeans k X) = k) →
  (∀ k X d, Forall (fun x => length x = d) X →
            Forall (fun c => length c = d) (KMeans k X)) →
  well_formed (NdArray (n :: rest) elements) →
  length labels = n → labels ≠ [] → prod_nat rest ≠ 0%nat →
  1 <= n_clusters_per_label →
  ∃ count,
    shape <$> _kmeans_roots KMeans (NdArray (n :: rest) elements) labels
                            n_clusters_per_label
      = Ok (count :: rest)
    ∧ count = list_sum (map (kernels_of_label n_clusters_per_label labels)
                            (np_unique labels))
    ∧ (1 <= count <= n)%nat
    ∧ Z.of_nat count <= n_clusters_per_label * Z.of_nat (length (np_unique labels))
    ∧ ((∀ label, Z.of_nat (marked_pixels labels label) <= n_clusters_per_label) →
       count = n).
Proof.
  intros Hcenters Hwidth Hwf Hlen Hne Hrest Hc.
  rewrite (kmeans_roots_blocks KMeans Hcenters Hwidth) by assumption.
  cbv zeta. simpl.
  set (rows := chunks n (prod_nat rest) elements).
  assert (Hrows : length rows = length labels)
    by (unfold rows; rewrite chunks_length; auto).
  assert (Hcount : length (concat (map (block_of_label KMeans n_clusters_per_label
                                          rows labels) (np_unique labels)))
                   = list_sum (map (kernels_of_label n_clusters_per_label labels)
                                   (np_unique labels))).
  { rewrite concat_blocks_length, map_map. f_equal. apply map_ext. intros label.
    apply (roots_of_label_block KMeans Hcenters); assumption. }
  eexists. split; [reflexivity|]. split; [exact Hcount|]. rewrite Hcount.
  split; [split|split].
  - pose proof (np_unique_nonempty labels Hne) as Hu.
    destruct (np_unique labels) as [|u us] eqn:Hunique; [contradiction|].
    simpl.
    assert (Hin : In u labels) by (apply np_unique_In; rewrite Hunique; left; auto).
    pose proof (kernels_of_label_bounds n_clusters_per_label labels u Hc)
      as (_ & _ & H1 & _).
    specialize (H1 Hin). lia.
  - rewrite <- Hlen, <- (marked_pixels_total labels).
    apply list_sum_map_le. intros label _.
    apply kernels_of_label_bounds; assumption.
  - pose proof (list_sum_map_le (kernels_of_label n_clusters_per_label labels)
                  (fun _ => Z.to_nat n_clusters_per_label) (np_unique labels)) as Hle.
    rewrite list_sum_map_const in Hle.
    specialize (Hle (fun label _ =>
                       proj1 (proj2 (kernels_of_label_bounds _ labels label Hc)))).
    nia.
  - intros Hall. rewrite <- Hlen, <- (marked_pixels_total labels).
    f_equal. apply map_ext. intros label.
    apply kernels_of_label_bounds; auto.
Qed.

Lemma kmeans_roots_kernel_count_witness :
  ∃ count,
    shape <$> _kmeans_roots (fun (k : nat) (X : list (list Z)) => firstn k X)
                (NdArray [3; 2]%nat [1; 2; 3; 4; 5; 6]) [0; 0; 1] 1
      = Ok (count :: [2%nat])
    ∧ count = list_sum (map (kernels_of_label 1 [0; 0; 1]) (np_unique [0; 0; 1]))
    ∧ (1 <= count <= 3)%nat
    ∧ Z.of_nat count <= 1 * Z.of_nat (length (np_unique [0; 0; 1]))
    ∧ ((∀ label, Z.of_nat (marked_pixels [0; 0; 1] label) <= 1) → count = 3%nat).
Proof.
  apply (kmeans_roots_kernel_count (fun (k : nat) (X : list (list Z)) => firstn k X)
           3 [2%nat] [1; 2; 3; 4; 5; 6] [0; 0; 1] 1).
  - intros k X Hk. rewrite length_take. lia.
  - intros k X d HX. apply Forall_take. exact HX.
  - reflexivity.
  - reflexivity.
  - discriminate.
  - discriminate.
  - lia.
Defined.

(** X8.  With fewer than one cluster per label [_kmeans_roots] never
    returns: without labels there is nothing to reshape, and with labels
    the first of them has more patches than clusters, so k-means is asked
    for fewer than one cluster. *)
Theorem kmeans_roots_without_clusters_fails {A : Type}
        (KMeans : nat → list (list A) → list (list A))
        (patches : ndarray A) (labels : list Z) (n_clusters_per_label : Z) :
  n_clusters_per_label < 1 →
  ∃ e, _kmeans_roots KMeans patches labels n_clusters_per_label = Err e.
Proof.
  intros Hc. apply not_Ok_Err. intros kernels H.
  unfold _kmeans_roots in H. bind_inv H as rows Hrows.
  destruct (negb _) eqn:Hlen; [discriminate|].
  apply negb_false_iff, Nat.eqb_eq in Hlen.
  bind_inv H as per_label Hper.
  destruct (np_unique labels) as [|u us] eqn:Hunique; [discriminate|].
  simpl in Hper. bind_inv Hper as block Hblock.
  assert (Hin : In u labels) by (apply np_unique_In; rewrite Hunique; left; auto).
  apply marked_pixels_present in Hin.
  unfold roots_of_label in Hblock.
  rewrite rows_with_label_length in Hblock by exact Hlen.
  destruct (n_clusters_per_label <? _) eqn:Hlt; [|apply Z.ltb_ge in Hlt; lia].
  unfold kmeans_cluster_centers in Hblock.
  destruct (n_clusters_per_label <? 1) eqn:H1; [discriminate|].
  apply Z.ltb_ge in H1. lia.
Qed.

Lemma kmeans_roots_without_clusters_fails_witness :
  ∃ e, _kmeans_roots (fun (k : nat) (X : list (list Z)) => firstn k X)
         (NdArray [3; 2]%nat [1; 2; 3; 4; 5; 6]) [0; 0; 1] 0 = Err e.
Proof. apply kmeans_roots_without_clusters_fails. lia. Defined.

(** ** Selection by PCA and the random kernels *)

Section PcaSelection.
Variable PCA_components : nat → list (list R) → list (list R).
Variable rand : nat → list R.

Hypothesis PCA_shape :
  ∀ k X d, Forall (fun x => length x = d) X →
           (k <= length X)%nat → (k <= d)%nat →
           length (PCA_components k X) = k
           ∧ Forall (fun c => length c = d) (PCA_components k X).
(** The generator returns as many draws as it is asked for. *)
Hypothesis rand_length : ∀ n, length (rand n) = n.

(** [_select_kernels_with_pca] returns [min(k, n, d)] components for [n]
    kernels of [d] entries each. *)
Lemma select_kernels_with_pca_clamped (kernels : ndarray R) (n : nat)
      (rest : list nat) (k : Z) :
  well_formed kernels → shape kernels = n :: rest →
  n ≠ 0%nat → prod_nat rest ≠ 0%nat → 0 <= k →
  ∃ selected,
    _select_kernels_with_pca PCA_components kernels k = Ok selected
    ∧ well_formed selected
    ∧ shape selected
      = Z.to_nat (Z.min k (Z.min (Z.of_nat n) (Z.of_nat (prod_nat rest)))) :: rest.
Proof.
  intros Hwf Hshape Hn Hd Hk. unfold _select_kernels_with_pca, reshape_2d.
  rewrite Hshape. cbn [tail].
  destruct (n =? 0)%nat eqn:En; [apply Nat.eqb_eq in En; lia|].
  cbn [mbind result_bind]. rewrite chunks_length.
  set (k' := if (Z.of_nat n <? k) || (Z.of_nat (prod_nat rest) <? k)
             then Z.min (Z.of_nat n) (Z.of_nat (prod_nat rest)) else k).
  assert (Hk' : k' = Z.min k (Z.min (Z.of_nat n) (Z.of_nat (prod_nat rest)))).
  { unfold k'. destruct (Z.of_nat n <? k) eqn:E1;
      destruct (Z.of_nat (prod_nat rest) <? k) eqn:E2; simpl; lia. }
  clearbody k'. subst k'.
  set (m := Z.min k (Z.min (Z.of_nat n) (Z.of_nat (prod_nat rest)))).
  destruct (m <? 0) eqn:E3; [apply Z.ltb_lt in E3; lia|].
  unfold well_formed in Hwf. rewrite Hshape in Hwf. cbn in Hwf.
  destruct (PCA_shape (Z.to_nat m) (chunks n (prod_nat rest) (data kernels))
                      (prod_nat rest)) as [Hlen Hwidth].
  { apply chunks_width. exact Hwf. }
  { rewrite chunks_length. lia. }
  { lia. }
  rewrite reshape_rows_width; [|lia|exact Hwidth].
  rewrite Hlen. eexists. split; [reflexivity|]. split; [|reflexivity].
  unfold well_formed. simpl. rewrite (concat_width _ _ Hwidth), Hlen. reflexivity.
Qed.

Lemma prod_nat_app (l1 l2 : list nat) :
  prod_nat (l1 ++ l2) = (prod_nat l1 * prod_nat l2)%nat.
Proof. induction l1 as [|a l1 IH]; simpl; [lia|]. rewrite IH. lia. Qed.

Lemma enforce_norm_kernel_length (kernel : list R) :
  length (enforce_norm_kernel kernel) = length kernel.
Proof. unfold enforce_norm_kernel. rewrite !length_map. reflexivity. Qed.

Lemma enforce_norm_shape (kernels : ndarray R) (n : nat) (rest : list nat) :
  well_formed kernels → shape kernels = n :: rest → n ≠ 0%nat →
  ∃ centred, _enforce_norm kernels = Ok centred
             ∧ well_formed centred ∧ shape centred = n :: rest.
Proof.
  intros Hwf Hshape Hn. unfold _enforce_norm, reshape_2d. rewrite Hshape.
  destruct (n =? 0)%nat eqn:En; [apply Nat.eqb_eq in En; lia|].
  cbn [mbind result_bind]. eexists. split; [reflexivity|]. split; [|reflexivity].
  unfold well_formed in *. rewrite Hshape in Hwf. simpl in *.
  rewrite (concat_map_width _ (prod_nat rest)).
  - rewrite chunks_length. reflexivity.
  - apply enforce_norm_kernel_length.
  - apply chunks_width. exact Hwf.
Qed.

Lemma random_array_shape (dims : list Z) :
  Forall (fun n => 0 <= n) dims →
  random_array rand dims = Ok (NdArray (map Z.to_nat dims)
                                       (rand (prod_nat (map Z.to_nat dims)))).
Proof.
  intros H. unfold random_array.
  replace (forallb _ dims) with true; [reflexivity|].
  symmetry. apply forallb_forall. intros n Hn.
  rewrite List.Forall_forall in H. specialize (H n Hn). lia.
Qed.

Lemma prod_nat_positive (l : list Z) :
  Forall (fun n => 1 <= n) l → prod_nat (map Z.to_nat l) ≠ 0%nat.
Proof.
  induction 1 as [|n l Hn _ IH]; simpl; [lia|]. nia.
Qed.

(** The random kernels reduced by PCA: [min(k, n, d)] kernels for
    [d = in_channels * prod(kernel_size)]. *)
Lemma create_random_pca_kernels_shape (n k : Z) (in_channels : nat)
      (kernel_size : list Z) :
  1 <= n → 0 <= k → (1 <= in_channels)%nat →
  Forall (fun s => 1 <= s) kernel_size → length kernel_size ≠ 1%nat →
  let d := (in_channels * prod_nat (map Z.to_nat kernel_size))%nat in
  ∃ kernels,
    _create_random_pca_kernels PCA_components rand n k in_channels kernel_size
      = Ok kernels
    ∧ shape kernels
      = Z.to_nat (Z.min k (Z.min n (Z.of_nat d)))
        :: in_channels :: map Z.to_nat kernel_size.
Proof.
  intros Hn Hk Hc Hks Hlen d. unfold _create_random_pca_kernels.
  replace (match kernel_size with [s] => [s; s] | _ => kernel_size end)
    with kernel_size by (destruct kernel_size as [|? [|? ?]]; simpl in *; congruence).
  unfold _create_random_kernels. rewrite random_array_shape.
  2: { constructor; [lia|]. constructor; [lia|].
       eapply List.Forall_impl; [|exact Hks]. simpl. intros; lia. }
  cbn [mbind result_bind map]. rewrite Nat2Z.id.
  set (shp := Z.to_nat n :: in_channels :: map Z.to_nat kernel_size).
  destruct (enforce_norm_shape (NdArray shp (rand (prod_nat shp))) (Z.to_nat n)
              (in_channels :: map Z.to_nat kernel_size))
    as (centred & -> & Hwf & Hshape).
  { unfold well_formed. simpl. apply rand_length. }
  { reflexivity. }
  { lia. }
  cbn [mbind result_bind].
  pose proof (prod_nat_positive _ Hks) as Hpos.
  destruct (select_kernels_with_pca_clamped centred (Z.to_nat n)
              (in_channels :: map Z.to_nat kernel_size) k Hwf Hshape)
    as (selected & -> & _ & Hsel); [lia|simpl; nia|lia|].
  eexists. split; [reflexivity|]. rewrite Hsel. rewrite Z2Nat.id by lia.
  reflexivity.
Qed.
End PcaSelection.

(** X9.  [_select_kernels_with_pca] on [n] kernels of [d] entries each
    returns [min(k, n, d)] kernels of the same kernel shape: a request for
    more components than kernels or entries is clamped, not refused. *)
Theorem select_kernels_with_pca_count
        (PCA_components : nat → list (list R) → list (list R))
        (kernels : ndarray R) (n : nat) (rest : list nat) (k : Z) :
  (∀ k X d, Forall (fun x => length x = d) X →
            (k <= length X)%nat → (k <= d)%nat →
            length (PCA_components k X) = k
            ∧ Forall (fun c => length c = d) (PCA_components k X)) →
  well_formed kernels → shape kernels = n :: rest →
  n ≠ 0%nat → prod_nat rest ≠ 0%nat → 1 <= k →
  ∃ selected,
    _select_kernels_with_pca PCA_components kernels k = Ok selected
    ∧ well_formed selected
    ∧ shape selected
      = Z.to_nat (Z.min k (Z.min (Z.of_nat n) (Z.of_nat (prod_nat rest)))) :: rest.
Proof.
  intros HPCA Hwf Hshape Hn Hd Hk.
  apply select_kernels_with_pca_clamped; auto. lia.
Qed.

Lemma select_kernels_with_pca_count_witness :
  ∃ selected,
    _select_kernels_with_pca first_rows (zeros [2; 2; 3; 3]%nat) 5 = Ok selected
    ∧ well_formed selected
    ∧ shape selected
      = Z.to_nat (Z.min 5 (Z.min (Z.of_nat 2)
                                 (Z.of_nat (prod_nat [2; 3; 3]%nat)))) :: [2; 3; 3]%nat.
Proof.
  apply (select_kernels_with_pca_count first_rows (zeros [2; 2; 3; 3]%nat) 2
           [2; 3; 3]%nat 5).
  - exact first_rows_components.
  - reflexivity.
  - reflexivity.
  - discriminate.
  - discriminate.
  - lia.
Defined.

Section RandomKernels.
Variable KMeans : nat → list (list R) → list (list R).
Variable PCA_components : nat → list (list R) → list (list R).
Variable rand : nat → list R.

Hypothesis PCA_shape :
  ∀ k X d, Forall (fun x => length x = d) X →
           (k <= length X)%nat → (k <= d)%nat →
           length (PCA_components k X) = k
           ∧ Forall (fun c => length c = d) (PCA_components k X).
Hypothesis rand_length : ∀ n, length (rand n) = n.

Lemma initialize_random_shape (images : option (list (ndarray R)))
      (markers : option (list (ndarray Z))) (in_channels : nat) (out_channels : Z)
      (kernel_size dilation : list Z) (number_of_kernels_per_marker : option Z)
      (default_std : R) :
  1 <= out_channels → (1 <= in_channels)%nat →
  Forall (fun s => 1 <= s) kernel_size → length kernel_size ≠ 1%nat →
  let d := (in_channels * prod_nat (map Z.to_nat kernel_size))%nat in
  ∃ weights,
    _initialize_convNd_weights KMeans PCA_components rand images markers
      in_channels (Some out_channels) kernel_size dilation
      number_of_kernels_per_marker true default_std = Ok weights
    ∧ shape weights
      = Z.to_nat (Z.min out_channels (Z.of_nat d))
        :: in_channels :: map Z.to_nat kernel_size.
Proof.
  intros Hoc Hc Hks Hlen d. unfold _initialize_convNd_weights.
  cbn [of_option mbind result_bind].
  destruct (create_random_pca_kernels_shape PCA_components rand PCA_shape rand_length
              (out_channels * 10) out_channels in_channels kernel_size)
    as (kernels & -> & Hshape); auto; try lia.
  eexists. split; [reflexivity|]. rewrite Hshape. fold d. f_equal. lia.
Qed.
End RandomKernels.

(** X10.  With [use_random_kernels] the weights are the PCA components of
    [10 * out_channels] random kernels, whatever images and markers are
    given: [min(out_channels, d)] kernels, [d = in_channels *
    prod(kernel_size)] being the number of entries of a kernel.  A request
    for more kernels than a kernel has entries is not met. *)
Theorem random_kernels_count
        (KMeans PCA_components : nat → list (list R) → list (list R))
        (rand : nat → list R)
        (images : option (list (ndarray R))) (markers : option (list (ndarray Z)))
        (in_channels : nat) (out_channels : Z) (kernel_size dilation : list Z)
        (number_of_kernels_per_marker : option Z) (default_std : R) :
  (∀ k X d, Forall (fun x => length x = d) X →
            (k <= length X)%nat → (k <= d)%nat →
            length (PCA_components k X) = k
            ∧ Forall (fun c => length c = d) (PCA_components k X)) →
  (∀ n, length (rand n) = n) →
  1 <= out_channels → (1 <= in_channels)%nat →
  Forall (fun s => 1 <= s) kernel_size → length kernel_size ≠ 1%nat →
  ∃ weights,
    _initialize_convNd_weights KMeans PCA_components rand images markers
      in_channels (Some out_channels) kernel_size dilation
      number_of_kernels_per_marker true default_std = Ok weights
    ∧ shape weights
      = Z.to_nat (Z.min out_channels
                        (Z.of_nat (in_channels * prod_nat (map Z.to_nat kernel_size))))
        :: in_channels :: map Z.to_nat kernel_size.
Proof.
  intros HPCA Hrand Hoc Hc Hks Hlen.
  apply (initialize_random_shape KMeans PCA_components rand HPCA Hrand); assumption.
Qed.

Lemma no_draws_length (n : nat) : length (no_draws n) = n.
Proof. apply repeat_length. Qed.

Lemma random_kernels_count_witness :
  ∃ weights,
    _initialize_convNd_weights first_rows first_rows no_draws
      (Some black_images) (Some black_markers) 1 (Some 8) [2; 2] [1; 1] (Some 2)
      true (1 / 1000000)%R = Ok weights
    ∧ shape weights
      = Z.to_nat (Z.min 8 (Z.of_nat (1 * prod_nat (map Z.to_nat [2; 2]%Z))))
        :: 1%nat :: map Z.to_nat [2; 2]%Z.
Proof.
  apply (random_kernels_count first_rows first_rows no_draws).
  - exact first_rows_components.
  - exact no_draws_length.
  - lia.
  - lia.
  - repeat constructor; lia.
  - discriminate.
Defined.

(** X11.  A convolution leaf with [use_random_kernels] that asks for more
    output channels than a kernel has entries ([in_channels * k^2], or
    [k^3] for [conv3d]) does not build: the PCA of the random kernels gives
    fewer kernels than requested and the assertion on the shape of the
    weights fails. *)
Theorem random_conv_leaf_too_many_channels
        (KMeans PCA_components : nat → list (list R) → list (list R))
        (rand : nat → list R) (key : string) (is_3d : bool)
        (operation_params : gmap string pyval)
        (images : option (list (ndarray R)))
        (last_conv_layer_out_channels : nat) (default_std : R)
        (remove_similar_filters : bool) (similarity_level : R)
        (k dilation out_channels : Z) :
  (∀ k X d, Forall (fun x => length x = d) X →
            (k <= length X)%nat → (k <= d)%nat →
            length (PCA_components k X) = k
            ∧ Forall (fun c => length c = d) (PCA_components k X)) →
  (∀ n, length (rand n) = n) →
  operation_params !! "kernel_size" = Some (PInt k) →
  operation_params !! "dilation" = Some (PInt dilation) →
  operation_params !! "out_channels" = Some (PInt out_channels) →
  operation_params !! "use_random_kernels" = Some (PBool true) →
  1 <= k → (1 <= last_conv_layer_out_channels)%nat →
  Z.of_nat last_conv_layer_out_channels * k ^ (if is_3d then 3 else 2) < out_channels →
  build_conv_leaf KMeans PCA_components rand key is_3d operation_params images None
    None last_conv_layer_out_channels default_std remove_similar_filters
    similarity_level = Err AssertWeightsShape.
Proof.
  intros HPCA Hrand Hks Hdil Hout Hrandom Hk Hc Hd.
  unfold build_conv_leaf, get_or_none. rewrite Hks, Hdil, Hout, Hrandom.
  cbn [of_option mbind result_bind default from_option per_axis as_list truthy].
  rewrite bool_decide_eq_true_2 by eauto. cbn [orb negb].
  unfold kernels_per_marker_guard.
  rewrite bool_decide_eq_true_2 by eauto.
  cbn [py_or mbind result_bind fmap result_fmap as_int].
  unfold Datatypes.id. cbn [per_axis as_list mbind result_bind truthy].
  match goal with
  | |- context [_initialize_convNd_weights _ _ _ ?im ?mk ?c _ ?ks ?dl ?nk _ ?ds] =>
      destruct (initialize_random_shape KMeans PCA_components rand HPCA Hrand
                  im mk c out_channels ks dl nk ds)
        as (weights & Hweights & Hshape)
  end.
  - lia.
  - exact Hc.
  - destruct is_3d; repeat constructor; exact Hk.
  - destruct is_3d; discriminate.
  - rewrite Hweights. cbn [mbind result_bind]. unfold len. rewrite Hshape.
    cbn [mbind result_bind].
    replace (Z.of_nat (Z.to_nat _) =? out_channels) with false; [reflexivity|].
    symmetry. apply Z.eqb_neq.
    assert (Hprod : Z.of_nat (prod_nat (map Z.to_nat
                                (repeat k (if is_3d then 3 else 2)%nat)))
                    = k ^ (if is_3d then 3 else 2)).
    { destruct is_3d; simpl; rewrite ?Nat2Z.inj_mul, ?Z2Nat.id by lia; ring. }
    rewrite Nat2Z.inj_mul, Hprod. lia.
Qed.

Lemma random_conv_leaf_too_many_channels_witness :
  build_conv_leaf first_rows first_rows no_draws "conv1" false
    (<["kernel_size" := PInt 1]>
       (<["dilation" := PInt 1]>
          (<["out_channels" := PInt 8]>
             (<["use_random_kernels" := PBool true]> ∅))))
    None None None 3 (1 / 1000000)%R false (85 / 100)%R
  = Err AssertWeightsShape.
Proof.
  apply (random_conv_leaf_too_many_channels first_rows first_rows no_draws "conv1"
           false _ None 3 _ false _ 1 1 8).
  - exact first_rows_components.
  - exact no_draws_length.
  - reflexivity.
  - reflexivity.
  - reflexivity.
  - reflexivity.
  - lia.
  - lia.
  - simpl. lia.
Defined.

(** ** The scan of [_remove_similar_filters] *)

Section PruningScan.
Local Open Scope R_scope.
Variable M : list (list R).
Variable level : R.
Variable n : nat.
Hypothesis M_square : square n M.
Hypothesis level_positive : 0 < level.
Hypothesis M_diagonal : ∀ i, (i < n)%nat → entry M i i = 0.
Hypothesis M_symmetric : ∀ i j, (i < n)%nat → (j < n)%nat → entry M i j = entry M j i.

Lemma Rleb_spec (x y : R) : Rleb x y = true ↔ x <= y.
Proof.
  unfold Rleb. destruct (Rle_dec x y); split; auto; discriminate.
Qed.

Lemma prune_step_invariant (scanned : list nat) (keep : list bool) (i : nat) :
  length keep = n → (i < n)%nat → Forall (fun k => (k < n)%nat) scanned →
  scanned_apart M level n scanned keep → removed_covered M level n scanned keep →
  scanned_apart M level n (scanned ++ [i]) (prune_step M level keep i)
  ∧ removed_covered M level n (scanned ++ [i]) (prune_step M level keep i).
Proof.
  intros Hlen Hi Hscanned Hapart Hcovered.
  rewrite List.Forall_forall in Hscanned.
  assert (Hstep : ∀ j, (j < n)%nat →
            nth j (prune_step M level keep i) false
            = nth j keep false && negb (nth i keep false && Rleb level (entry M i j)))
    by (intros j Hj; apply (prune_step_nth M level n M_square); auto).
  split.
  - intros i' j Hin Hj Hi' Hj'.
    apply in_app_or in Hin as [Hin|[<-|[]]].
    + rewrite Hstep in Hi', Hj' by auto.
      apply andb_true_iff in Hi' as [Hi' _]. apply andb_true_iff in Hj' as [Hj' _].
      eauto.
    + rewrite Hstep in Hi', Hj' by auto.
      apply andb_true_iff in Hi' as [Hi' _]. apply andb_true_iff in Hj' as [_ Hj'].
      rewrite Hi' in Hj'. simpl in Hj'. apply negb_true_iff in Hj'.
      apply Rleb_false_inv in Hj'. exact Hj'.
  - intros j Hj Hremoved. rewrite Hstep in Hremoved by auto.
    destruct (nth j keep false) eqn:Hkj.
    + simpl in Hremoved. apply negb_false_iff, andb_true_iff in Hremoved as [Hki Hsim].
      apply Rleb_spec in Hsim.
      exists i. repeat split; auto.
      * apply in_or_app. right. left. reflexivity.
      * rewrite Hstep, Hki by auto. simpl. apply negb_true_iff.
        apply Rleb_false. rewrite M_diagonal by auto. exact level_positive.
    + destruct (Hcovered j Hj Hkj) as (i0 & Hin & Hi0 & Hk0 & Hsim).
      exists i0. repeat split; auto.
      * apply in_or_app. left. exact Hin.
      * rewrite Hstep, Hk0 by auto. simpl. apply negb_true_iff.
        destruct (nth i keep false) eqn:Hki; [|reflexivity]. simpl.
        apply Rleb_false. rewrite M_symmetric by auto. eauto.
Qed.

Lemma fold_prune_invariant (idxs : list nat) :
  ∀ (scanned : list nat) (keep : list bool),
    length keep = n → Forall (fun k => (k < n)%nat) idxs →
    Forall (fun k => (k < n)%nat) scanned →
    scanned_apart M level n scanned keep → removed_covered M level n scanned keep →
    removed_covered M level n (scanned ++ idxs) (fold_left (prune_step M level) idxs keep).
Proof.
  induction idxs as [|i idxs IH]; intros scanned keep Hlen Hidxs Hscanned Ha Hc; simpl.
  - rewrite app_nil_r. exact Hc.
  - apply Forall_cons in Hidxs as [Hi Hidxs].
    destruct (prune_step_invariant scanned keep i Hlen Hi Hscanned Ha Hc) as [Ha' Hc'].
    replace (scanned ++ i :: idxs) with ((scanned ++ [i]) ++ idxs)
      by (rewrite <- app_assoc; reflexivity).
    apply IH; auto.
    + apply (prune_step_length M level n M_square); auto.
    + apply List.Forall_app. split; [exact Hscanned|]. constructor; auto.
Qed.

(** Every filter the scan removes is similar to a filter it keeps. *)
Lemma keep_filters_covered (j : nat) :
  (j < n)%nat → nth j (keep_filters M level n) false = false →
  ∃ i, (i < n)%nat ∧ nth i (keep_filters M level n) false = true
       ∧ level <= entry M i j.
Proof.
  intros Hj Hremoved. unfold keep_filters in *.
  destruct (fold_prune_invariant (seq 0 n) [] (repeat true n)) with (j := j)
    as (i & _ & Hi & Hk & Hsim); auto.
  - apply repeat_length.
  - apply seq_bounded.
  - intros i j' [].
  - intros j' Hj' Hfalse. rewrite nth_repeat_true in Hfalse by auto. discriminate.
  - eauto.
Qed.
End PruningScan.

Section PrunedFilters.
Local Open Scope R_scope.

Lemma similarity_matrix_facts (filters : ndarray R) (rows : list (list R)) :
  flatten_1 filters = Ok rows →
  ∃ M, _compute_similarity_matrix filters = Ok M
       ∧ square (length rows) M
       ∧ (∀ i j, (i < length rows)%nat → (j < length rows)%nat →
                 entry M i j = similarity rows i j)
       ∧ (∀ i, (i < length rows)%nat → entry M i i = 0)
       ∧ (∀ i j, (i < length rows)%nat → (j < length rows)%nat →
                 entry M i j = entry M j i).
Proof.
  intros Hrows.
  destruct (similarity_matrix_entries filters rows Hrows) as (M & HM & Hsq & Hentries).
  exists M. repeat split; auto.
  - intros i Hi. rewrite Hentries by auto. apply similarity_diag.
  - intros i j Hi Hj. rewrite !Hentries by auto. apply similarity_sym.
Qed.

Lemma select_cons {A : Type} (k : bool) (keep : list bool) (r : A) (rows : list A) :
  select (k :: keep) (r :: rows)
  = if k then r :: select keep rows else select keep rows.
Proof. unfold select. simpl. destruct k; reflexivity. Qed.

Lemma select_sublist {A : Type} (keep : list bool) :
  ∀ rows : list A, sublist (select keep rows) rows.
Proof.
  induction keep as [|k keep IH]; intros [|r rows]; try apply sublist_nil_l.
  rewrite select_cons. destruct k.
  - apply sublist_skip, IH.
  - apply sublist_cons, IH.
Qed.

(** A selected row is a row that is kept. *)
Lemma select_nth {A : Type} (d : A) (keep : list bool) :
  ∀ (rows : list A) (a : nat),
    (a < length (select keep rows))%nat →
    ∃ i, (i < length rows)%nat ∧ nth i keep false = true
         ∧ nth a (select keep rows) d = nth i rows d.
Proof.
  induction keep as [|k keep IH]; intros [|r rows] a Ha;
    try (unfold select in Ha; simpl in Ha; lia).
  rewrite select_cons in *. destruct k.
  - destruct a as [|a].
    + exists 0%nat. simpl. repeat split; auto. lia.
    + simpl in Ha. destruct (IH rows a) as (i & Hi & Hk & Hnth); [lia|].
      exists (S i). simpl. repeat split; auto. lia.
  - destruct (IH rows a Ha) as (i & Hi & Hk & Hnth).
    exists (S i). simpl. repeat split; auto. lia.
Qed.

(** Two selected rows are two kept rows, in the same order. *)
Lemma select_pair {A : Type} (d : A) (keep : list bool) :
  ∀ (rows : list A) (a b : nat),
    (a < b)%nat → (b < length (select keep rows))%nat →
    ∃ i j, (i < j)%nat ∧ (j < length rows)%nat
           ∧ nth i keep false = true ∧ nth j keep false = true
           ∧ nth a (select keep rows) d = nth i rows d
           ∧ nth b (select keep rows) d = nth j rows d.
Proof.
  induction keep as [|k keep IH]; intros [|r rows] a b Hab Hb;
    try (unfold select in Hb; simpl in Hb; lia).
  rewrite select_cons in *. destruct k.
  - destruct b as [|b]; [lia|]. simpl in Hb.
    destruct a as [|a].
    + destruct (select_nth d keep rows b) as (j & Hj & Hk & Hnth); [lia|].
      exists 0%nat, (S j). simpl. repeat split; auto; lia.
    + destruct (IH rows a b) as (i & j & Hij & Hj & Hki & Hkj & Hna & Hnb); [lia..|].
      exists (S i), (S j). simpl. repeat split; auto; lia.
  - destruct (IH rows a b Hab Hb) as (i & j & Hij & Hj & Hki & Hkj & Hna & Hnb).
    exists (S i), (S j). simpl. repeat split; auto; lia.
Qed.

Lemma similarity_below (rows : list (list R)) (level : R) (a b : nat) :
  0 < level →
  (∀ i j, (i < j)%nat → (j < length rows)%nat →
          inner (nth i rows []) (nth j rows []) < level) →
  (a < length rows)%nat → (b < length rows)%nat →
  similarity rows a b < level.
Proof.
  intros Hlevel Hpairs Ha Hb. unfold similarity.
  destruct (a <? b)%nat eqn:Hab; [apply Nat.ltb_lt in Hab; auto|].
  destruct (b <? a)%nat eqn:Hba; [apply Nat.ltb_lt in Hba; auto|].
  exact Hlevel.
Qed.

(** The filters the scan keeps are pairwise below the level. *)
Lemma selected_pairs_below (filters : ndarray R) (level : R)
      (rows M : list (list R)) :
  flatten_1 filters = Ok rows → _compute_similarity_matrix filters = Ok M →
  square (length rows) M →
  (∀ i j, (i < length rows)%nat → (j < length rows)%nat →
          entry M i j = similarity rows i j) →
  let kept := select (keep_filters M level (length rows)) rows in
  ∀ a b, (a < b)%nat → (b < length kept)%nat →
         inner (nth a kept []) (nth b kept []) < level.
Proof.
  intros Hrows HM Hsq Hentries kept a b Hab Hb.
  destruct (select_pair [] (keep_filters M level (length rows)) rows a b Hab Hb)
    as (i & j & Hij & Hj & Hki & Hkj & Hna & Hnb).
  fold kept in Hna, Hnb. rewrite Hna, Hnb.
  pose proof (keep_filters_independent M level (length rows) i j Hsq) as Hind.
  rewrite Hentries in Hind by lia. unfold similarity in Hind.
  apply Nat.ltb_lt in Hij as Hij'. rewrite Hij' in Hind. apply Hind; auto. lia.
Qed.

(** A layer whose filters are pairwise below the level loses none. *)
Lemma selected_filters_apart (filters : ndarray R) (level : R) (rows : list (list R)) :
  flatten_1 filters = Ok rows → 0 < level <= 1 →
  (∀ i j, (i < j)%nat → (j < length rows)%nat →
          inner (nth i rows []) (nth j rows []) < level) →
  selected_filters filters level = Ok rows.
Proof.
  intros Hrows Hlevel Hpairs.
  destruct (similarity_matrix_entries filters rows Hrows) as (M & HM & Hsq & Hentries).
  rewrite (selected_filters_eq filters level rows M) by assumption.
  rewrite keep_filters_all.
  - rewrite select_all. reflexivity.
  - exact Hsq.
  - intros i j Hi Hj. rewrite Hentries by assumption.
    apply similarity_below; auto. lra.
Qed.
End PrunedFilters.

Section RemoveSimilarFilters.
Local Open Scope R_scope.

Lemma nn_ConvNd_inv (in_channels : nat) (out_channels : Z) (kernel_size : list Z)
      (stride padding : pyval) (dilation : list Z) (groups : Z) (bias : bool)
      (padding_mode : string) (weight : ndarray R) (layer : conv_layer) :
  nn_ConvNd in_channels out_channels kernel_size stride padding dilation groups
            bias padding_mode weight = Ok layer →
  layer = ConvLayer in_channels out_channels kernel_size stride padding dilation
                    groups bias padding_mode weight.
Proof. unfold nn_ConvNd. destruct (_ || _); [discriminate|]. congruence. Qed.

Lemma nn_ConvNd_weight (in_channels : nat) (out_channels : Z) (kernel_size : list Z)
      (stride padding : pyval) (dilation : list Z) (groups : Z) (bias : bool)
      (padding_mode : string) (weight weight' : ndarray R) (layer : conv_layer) :
  nn_ConvNd in_channels out_channels kernel_size stride padding dilation groups
            bias padding_mode weight = Ok layer →
  nn_ConvNd in_channels out_channels kernel_size stride padding dilation groups
            bias padding_mode weight'
  = Ok (ConvLayer in_channels out_channels kernel_size stride padding dilation
                  groups bias padding_mode weight').
Proof. unfold nn_ConvNd. destruct (_ || _); [discriminate|]. reflexivity. Qed.

(** The steps of [_remove_similar_filters] when it returns. *)
Lemma remove_similar_filters_inv (layer layer' : conv_layer) (level : R) :
  _remove_similar_filters layer level = Ok layer' →
  ∃ rows M,
    0 < level <= 1
    ∧ flatten_1 (conv_weight layer) = Ok rows
    ∧ _compute_similarity_matrix (conv_weight layer) = Ok M
    ∧ square (length rows) M
    ∧ (∀ i j, (i < length rows)%nat → (j < length rows)%nat →
              entry M i j = similarity rows i j)
    ∧ let kept := select (keep_filters M level (length rows)) rows in
      selected_filters (conv_weight layer) level = Ok kept
      ∧ (conv_bias layer && negb (conv_out_channels layer =? 1)%Z) = false
      ∧ layer' = ConvLayer (conv_in_channels layer) (Z.of_nat (length kept))
                   (conv_kernel_size layer) (conv_stride layer) (conv_padding layer)
                   [1; 1]%Z 1 (conv_bias layer) "zeros"
                   (NdArray (length kept :: tail (shape (conv_weight layer)))
                            (concat kept)).
Proof.
  unfold _remove_similar_filters. intros H.
  bind_inv H as kept Hkept.
  assert (Hlevel : 0 < level <= 1).
  { unfold selected_filters in Hkept.
    destruct (negb _) eqn:Hrange; [discriminate|].
    apply similarity_range_inv. exact Hrange. }
  assert (Hrows : ∃ rows, flatten_1 (conv_weight layer) = Ok rows).
  { unfold selected_filters in Hkept.
    destruct (negb _); [discriminate|].
    bind_inv Hkept as M HM. bind_inv Hkept as rows Hrows. eauto. }
  destruct Hrows as (rows & Hrows).
  destruct (similarity_matrix_entries _ rows Hrows) as (M & HM & Hsq & Hentries).
  rewrite (selected_filters_eq _ level rows M) in Hkept by assumption.
  injection Hkept as <-.
  destruct (conv_bias layer && _) eqn:Hbias; [discriminate|].
  apply nn_ConvNd_inv in H.
  exists rows, M. repeat split; auto; try apply Hlevel.
  apply selected_filters_eq; auto.
Qed.
End RemoveSimilarFilters.

(** X12.  The similarity matrix of [_compute_similarity_matrix] is square,
    symmetric and has a zero diagonal, whatever the norms of the filters;
    above the diagonal its entries are the inner products of the
    flattened filters. *)
Theorem similarity_matrix_symmetric (filters : ndarray R) (rows : list (list R)) :
  flatten_1 filters = Ok rows →
  ∃ M, _compute_similarity_matrix filters = Ok M
       ∧ square (length rows) M
       ∧ ∀ i j, (i < length rows)%nat → (j < length rows)%nat →
                entry M i i = 0%R
                ∧ entry M i j = entry M j i
                ∧ ((i < j)%nat →
                   entry M i j = inner (nth i rows []) (nth j rows [])).
Proof.
  intros Hrows.
  destruct (similarity_matrix_facts filters rows Hrows)
    as (M & HM & Hsq & Hentries & Hdiag & Hsym).
  exists M. repeat split; auto.
  intros Hij. rewrite Hentries by auto. unfold similarity.
  apply Nat.ltb_lt in Hij. rewrite Hij. reflexivity.
Qed.

Lemma similarity_matrix_symmetric_witness :
  ∃ M, _compute_similarity_matrix two_filters = Ok M
       ∧ square (length [[1; 0]; [3 / 5; 4 / 5]]%R) M
       ∧ ∀ i j, (i < length [[1; 0]; [3 / 5; 4 / 5]]%R)%nat →
                (j < length [[1; 0]; [3 / 5; 4 / 5]]%R)%nat →
                entry M i i = 0%R
                ∧ entry M i j = entry M j i
                ∧ ((i < j)%nat →
                   entry M i j = inner (nth i [[1; 0]; [3 / 5; 4 / 5]]%R [])
                                       (nth j [[1; 0]; [3 / 5; 4 / 5]]%R [])).
Proof.
  apply (similarity_matrix_symmetric two_filters). reflexivity.
Defined.

(** X13.  The scan of [_remove_similar_filters] removes a filter only when
    it keeps another one that is similar to it: every filter that is
    dropped has an inner product of at least [similarity_level] with a
    filter that survives. *)
Theorem removed_filter_has_kept_neighbour (filters : ndarray R) (level : R)
        (rows : list (list R)) :
  flatten_1 filters = Ok rows → (0 < level <= 1)%R →
  ∃ M,
    _compute_similarity_matrix filters = Ok M
    ∧ selected_filters filters level
      = Ok (select (keep_filters M level (length rows)) rows)
    ∧ ∀ j, (j < length rows)%nat →
           nth j (keep_filters M level (length rows)) false = false →
           ∃ i, (i < length rows)%nat ∧ i ≠ j
                ∧ nth i (keep_filters M level (length rows)) false = true
                ∧ (level <= similarity rows i j)%R.
Proof.
  intros Hrows Hlevel.
  destruct (similarity_matrix_facts filters rows Hrows)
    as (M & HM & Hsq & Hentries & Hdiag & Hsym).
  exists M. split; [exact HM|]. split; [apply selected_filters_eq; auto|].
  intros j Hj Hremoved.
  destruct (keep_filters_covered M level (length rows) Hsq (proj1 Hlevel) Hdiag Hsym
              j Hj Hremoved) as (i & Hi & Hk & Hsim).
  exists i. repeat split; auto.
  - intros ->. rewrite Hk in Hremoved. discriminate.
  - rewrite <- Hentries by auto. exact Hsim.
Qed.

Lemma removed_filter_has_kept_neighbour_witness :
  ∃ M,
    _compute_similarity_matrix two_filters = Ok M
    ∧ selected_filters two_filters (1 / 2)%R
      = Ok (select (keep_filters M (1 / 2)%R (length [[1; 0]; [3 / 5; 4 / 5]]%R))
                   [[1; 0]; [3 / 5; 4 / 5]]%R)
    ∧ ∀ j, (j < length [[1; 0]; [3 / 5; 4 / 5]]%R)%nat →
           nth j (keep_filters M (1 / 2)%R (length [[1; 0]; [3 / 5; 4 / 5]]%R)) false
             = false →
           ∃ i, (i < length [[1; 0]; [3 / 5; 4 / 5]]%R)%nat ∧ i ≠ j
                ∧ nth i (keep_filters M (1 / 2)%R
                           (length [[1; 0]; [3 / 5; 4 / 5]]%R)) false = true
                ∧ (1 / 2 <= similarity [[1; 0]; [3 / 5; 4 / 5]]%R i j)%R.
Proof.
  apply (removed_filter_has_kept_neighbour two_filters (1 / 2)%R).
  - reflexivity.
  - lra.
Defined.

Lemma select_Forall {A : Type} (P : A → Prop) (keep : list bool) :
  ∀ rows : list A, Forall P rows → Forall P (select keep rows).
Proof.
  induction keep as [|k keep IH]; intros [|r rows] Hall; try constructor.
  rewrite select_cons. apply Forall_cons in Hall as [Hr Hall].
  destruct k; [constructor|]; auto.
Qed.

Lemma flatten_1_rows (filters : ndarray R) (rows : list (list R)) :
  well_formed filters → flatten_1 filters = Ok rows →
  ∃ n d rest, shape filters = n :: d :: rest ∧ length rows = n
              ∧ Forall (fun row => length row = prod_nat (d :: rest)) rows.
Proof.
  unfold well_formed, flatten_1. intros Hwf H.
  destruct (shape filters) as [|n [|d rest]]; try discriminate.
  injection H as <-. exists n, d, rest. split; [reflexivity|].
  split; [apply chunks_length|]. apply chunks_width. exact Hwf.
Qed.

(** X14.  [_remove_similar_filters] is idempotent: pruning the layer it
    returns, at the same level, returns that layer again (for a layer
    without bias whose weight tensor has as many elements as its shape
    says). *)
Theorem remove_similar_filters_idempotent (layer layer' : conv_layer) (level : R) :
  conv_bias layer = false →
  well_formed (conv_weight layer) →
  _remove_similar_filters layer level = Ok layer' →
  _remove_similar_filters layer' level = Ok layer'.
Proof.
  intros Hbias Hwf H.
  pose proof H as Hagain.
  apply remove_similar_filters_inv in H
    as (rows & M & Hlevel & Hrows & HM & Hsq & Hentries & Hkept & _ & ->).
  set (kept := select (keep_filters M level (length rows)) rows) in *.
  destruct (flatten_1_rows _ rows Hwf Hrows) as (n & d & rest & Hshape & Hn & Hwidth).
  assert (Hkw : Forall (fun row => length row = prod_nat (d :: rest)) kept).
  { apply select_Forall. exact Hwidth. }
  set (pruned := NdArray (length kept :: tail (shape (conv_weight layer)))
                         (concat kept)).
  assert (Hflat : flatten_1 pruned = Ok kept).
  { unfold flatten_1, pruned. rewrite Hshape. cbn [tail shape data].
    f_equal. apply chunks_concat. exact Hkw. }
  assert (Hsel : selected_filters pruned level = Ok kept).
  { apply selected_filters_apart; auto.
    apply (selected_pairs_below (conv_weight layer) level rows M); auto. }
  unfold _remove_similar_filters in Hagain |- *. simpl conv_weight.
  rewrite Hkept in Hagain. rewrite Hsel. cbn [mbind result_bind] in *.
  simpl conv_bias. rewrite Hbias in *. cbn [andb] in *.
  simpl. fold kept. fold kept in Hagain.
  apply nn_ConvNd_weight with (weight' := pruned) in Hagain.
  exact Hagain.
Qed.

Lemma remove_similar_filters_idempotent_witness :
  _remove_similar_filters
    (ConvLayer 2 1 [1; 1] (PInt 1) (PList [0; 0]) [1; 1] 1 false "zeros"
               (NdArray [1; 2; 1; 1]%nat [1; 0]%R))
    (1 / 2)%R
  = Ok (ConvLayer 2 1 [1; 1] (PInt 1) (PList [0; 0]) [1; 1] 1 false "zeros"
                  (NdArray [1; 2; 1; 1]%nat [1; 0]%R)).
Proof.
  apply (remove_similar_filters_idempotent
           (ConvLayer 2 2 [1; 1] (PInt 1) (PList [0; 0]) [1; 1] 1 false "zeros"
                      two_filters)).
  - reflexivity.
  - reflexivity.
  - unfold _remove_similar_filters. simpl conv_weight.
    rewrite two_filters_selected_low. reflexivity.
Defined.

(** X15.  What [_remove_similar_filters] returns: a layer with the
    [in_channels], [kernel_size], [stride], [padding] and [bias] of the
    layer it was given, whose filters are a sub-sequence of the given
    filters in their order and whose [out_channels] is their number; the
    dilation, the groups and the padding mode are not carried over, they
    are those of a default [nn.Conv2d]. *)
Theorem remove_similar_filters_keeps_subsequence (layer layer' : conv_layer)
        (level : R) :
  _remove_similar_filters layer level = Ok layer' →
  ∃ rows kept,
    flatten_1 (conv_weight layer) = Ok rows
    ∧ selected_filters (conv_weight layer) level = Ok kept
    ∧ sublist kept rows
    ∧ conv_weight layer'
      = NdArray (length kept :: tail (shape (conv_weight layer))) (concat kept)
    ∧ conv_out_channels layer' = Z.of_nat (length kept)
    ∧ conv_in_channels layer' = conv_in_channels layer
    ∧ conv_kernel_size layer' = conv_kernel_size layer
    ∧ conv_stride layer' = conv_stride layer
    ∧ conv_padding layer' = conv_padding layer
    ∧ conv_bias layer' = conv_bias layer
    ∧ conv_dilation layer' = [1; 1]
    ∧ conv_groups layer' = 1
    ∧ conv_padding_mode layer' = "zeros".
Proof.
  intros H.
  apply remove_similar_filters_inv in H
    as (rows & M & Hlevel & Hrows & HM & Hsq & Hentries & Hkept & _ & ->).
  exists rows, (select (keep_filters M level (length rows)) rows).
  split; [exact Hrows|]. split; [exact Hkept|]. split; [apply select_sublist|].
  simpl. repeat split.
Qed.

Lemma remove_similar_filters_keeps_subsequence_witness :
  ∃ rows kept,
    flatten_1 two_filters = Ok rows
    ∧ selected_filters two_filters (1 / 2)%R = Ok kept
    ∧ sublist kept rows
    ∧ NdArray [1; 2; 1; 1]%nat [1; 0]%R
      = NdArray (length kept :: tail (shape two_filters)) (concat kept)
    ∧ 1 = Z.of_nat (length kept)
    ∧ 2%nat = 2%nat
    ∧ [1; 1] = [1; 1]
    ∧ PInt 1 = PInt 1
    ∧ PList [0; 0] = PList [0; 0]
    ∧ false = false
    ∧ [1; 1] = [1; 1]
    ∧ 1 = 1
    ∧ "zeros" = "zeros".
Proof.
  apply (remove_similar_filters_keeps_subsequence
           (ConvLayer 2 2 [1; 1] (PInt 1) (PList [0; 0]) [1; 1] 1 false "zeros"
                      two_filters)
           (ConvLayer 2 1 [1; 1] (PInt 1) (PList [0; 0]) [1; 1] 1 false "zeros"
                      (NdArray [1; 2; 1; 1]%nat [1; 0]%R))
           (1 / 2)%R).
  unfold _remove_similar_filters. simpl conv_weight.
  rewrite two_filters_selected_low. reflexivity.
Defined.

(** X16.  Filters that are pairwise below the similarity level are all
    kept: [_remove_similar_filters] selects every filter of a layer in
    which no two filters have an inner product of [similarity_level] or
    more (the norm of a single filter plays no part). *)
Theorem dissimilar_filters_all_kept (filters : ndarray R) (level : R)
        (rows : list (list R)) :
  flatten_1 filters = Ok rows → (0 < level <= 1)%R →
  (∀ i j, (i < j)%nat → (j < length rows)%nat →
          (inner (nth i rows []) (nth j rows []) < level)%R) →
  selected_filters filters level = Ok rows.
Proof. apply selected_filters_apart. Qed.

Lemma dissimilar_filters_all_kept_witness :
  selected_filters two_filters (7 / 10)%R = Ok [[1; 0]; [3 / 5; 4 / 5]]%R.
Proof.
  apply dissimilar_filters_all_kept.
  - reflexivity.
  - lra.
  - intros i j Hij Hj. simpl in Hj.
    assert (i = 0%nat ∧ j = 1%nat) as [-> ->] by lia.
    unfold inner. simpl. lra.
Defined.

(** ** The convolution leaf *)

(** X17.  A convolution leaf with markers that gives neither
    [number_of_kernels_per_marker] nor [out_channels] passes the assertion
    "`out_channels` or `markers` must be defined" and then fails with a
    [KeyError]: the default number of kernels per marker is computed from
    [operation_params["out_channels"]]. *)
Theorem conv_leaf_markers_need_a_count
        (KMeans PCA_components : nat → list (list R) → list (list R))
        (rand : nat → list R) (key : string) (is_3d : bool)
        (operation_params : gmap string pyval)
        (images : option (list (ndarray R))) (markers : list (ndarray Z))
        (state_dict : option (gmap string (ndarray R)))
        (last_conv_layer_out_channels : nat) (default_std : R)
        (remove_similar_filters : bool) (similarity_level : R) (k dilation : Z) :
  operation_params !! "kernel_size" = Some (PInt k) →
  operation_params !! "dilation" = Some (PInt dilation) →
  operation_params !! "number_of_kernels_per_marker" = None →
  operation_params !! "out_channels" = None →
  build_conv_leaf KMeans PCA_components rand key is_3d operation_params images
    (Some markers) state_dict last_conv_layer_out_channels default_std
    remove_similar_filters similarity_level = Err KeyError.
Proof.
  intros Hks Hdil Hnkpm Hout.
  unfold build_conv_leaf, get_or_none, default_kernels_per_marker.
  rewrite Hks, Hdil, Hnkpm, Hout.
  cbn [of_option mbind result_bind default from_option].
  rewrite (bool_decide_eq_true_2 (is_Some (Some markers))) by eauto.
  rewrite orb_true_r. cbn [negb]. unfold Datatypes.id.
  cbn [per_axis as_list mbind result_bind].
  rewrite (bool_decide_eq_false_2 (is_Some (@None pyval)))
    by (intros [? ?]; discriminate).
  reflexivity.
Qed.

Lemma conv_leaf_markers_need_a_count_witness :
  build_conv_leaf first_rows first_rows no_draws "conv1" false
    (<["kernel_size" := PInt 3]> (<["dilation" := PInt 1]> ∅))
    (Some black_images) (Some black_markers) None 2 (1 / 1000000)%R
    false (85 / 100)%R = Err KeyError.
Proof.
  apply (conv_leaf_markers_need_a_count first_rows first_rows no_draws "conv1"
           false _ (Some black_images) black_markers None 2 _ false _ 3 1);
    reflexivity.
Defined.

(** X18.  Without markers a convolution leaf must declare [out_channels],
    also when it is rebuilt from a [state_dict] that holds its weights: the
    assertion "`out_channels` or `markers` must be defined" comes before
    the saved weights are looked at. *)
Theorem conv_leaf_needs_out_channels_or_markers
        (KMeans PCA_components : nat → list (list R) → list (list R))
        (rand : nat → list R) (key : string) (is_3d : bool)
        (operation_params : gmap string pyval)
        (images : option (list (ndarray R)))
        (state_dict : option (gmap string (ndarray R)))
        (last_conv_layer_out_channels : nat) (default_std : R)
        (remove_similar_filters : bool) (similarity_level : R) :
  is_Some (operation_params !! "kernel_size") →
  operation_params !! "out_channels" = None
  ∨ operation_params !! "out_channels" = Some PNone →
  build_conv_leaf KMeans PCA_components rand key is_3d operation_params images
    None state_dict last_conv_layer_out_channels default_std
    remove_similar_filters similarity_level = Err AssertOutChannelsOrMarkers.
Proof.
  intros [kernel_size Hks] Hout.
  unfold build_conv_leaf, get_or_none. rewrite Hks.
  cbn [of_option mbind result_bind].
  assert (Hnone : match operation_params !! "out_channels" with
                  | Some PNone => None
                  | o => o
                  end = None) by (destruct Hout as [-> | ->]; reflexivity).
  rewrite Hnone.
  rewrite (bool_decide_eq_false_2 (is_Some (@None pyval)))
    by (intros [? ?]; discriminate).
  rewrite (bool_decide_eq_false_2 (is_Some (@None (list (ndarray Z)))))
    by (intros [? ?]; discriminate).
  reflexivity.
Qed.

Lemma conv_leaf_needs_out_channels_or_markers_witness :
  build_conv_leaf first_rows first_rows no_draws "conv1" false
    (<["kernel_size" := PInt 3]> (<["dilation" := PInt 1]> ∅))
    None None (Some saved_state) 3 (1 / 1000000)%R false (85 / 100)%R
  = Err AssertOutChannelsOrMarkers.
Proof.
  apply conv_leaf_needs_out_channels_or_markers.
  - eexists. reflexivity.
  - left. reflexivity.
Defined.

Lemma len_head {A : Type} (t : ndarray A) (n : nat) :
  len t = Ok n ↔ head (shape t) = Some n.
Proof.
  unfold len. destruct (shape t); simpl; split; intros H; try discriminate;
    injection H as <-; reflexivity.
Qed.

(** X19.  A convolution leaf that is built has as many output channels as
    its weight tensor has filters, and the [in_channels] it was handed.
    When [out_channels] is declared (and no [state_dict] overrides it) the
    layer has exactly that many channels without pruning and at most that
    many with [remove_similar_filters]. *)
Theorem built_conv_leaf_channels
        (KMeans PCA_components : nat → list (list R) → list (list R))
        (rand : nat → list R) (key : string) (is_3d : bool)
        (operation_params : gmap string pyval)
        (images : option (list (ndarray R))) (markers : option (list (ndarray Z)))
        (state_dict : option (gmap string (ndarray R)))
        (last_conv_layer_out_channels : nat) (default_std : R)
        (remove_similar_filters : bool) (similarity_level : R)
        (layer : conv_layer) :
  build_conv_leaf KMeans PCA_components rand key is_3d operation_params images
    markers state_dict last_conv_layer_out_channels default_std
    remove_similar_filters similarity_level = Ok layer →
  conv_in_channels layer = last_conv_layer_out_channels
  ∧ ∃ n, len (conv_weight layer) = Ok n
         ∧ conv_out_channels layer = Z.of_nat n
         ∧ ∀ out_channels,
             state_dict = None →
             operation_params !! "out_channels" = Some (PInt out_channels) →
             if remove_similar_filters then Z.of_nat n <= out_channels
             else Z.of_nat n = out_channels.
Proof.
  unfold build_conv_leaf. intros H.
  bind_inv H as kernel_size Hks.
  destruct (negb _); [discriminate|].
  bind_inv H as dilation Hdilation. bind_inv H as kernel_sizes Hkss.
  bind_inv H as nkpm Hnkpm. bind_inv H as declared Hdeclared.
  bind_inv H as guard Hguard. bind_inv H as requested Hrequested.
  bind_inv H as weights Hweights. bind_inv H as n Hn.
  destruct (negb _) eqn:Hassert; [discriminate|].
  apply negb_false_iff in Hassert.
  bind_inv H as groups Hgroups. bind_inv H as padding_mode Hmode.
  bind_inv H as built Hbuilt.
  apply nn_ConvNd_inv in Hbuilt.
  assert (Hchannels : default (Z.of_nat n) requested = Z.of_nat n).
  { destruct requested as [oc|]; [|reflexivity]. simpl.
    apply Z.eqb_eq in Hassert. auto. }
  rewrite Hchannels in Hbuilt.
  assert (Hrequest : ∀ out_channels,
             state_dict = None →
             operation_params !! "out_channels" = Some (PInt out_channels) →
             Z.of_nat n = out_channels).
  { intros out_channels -> Hout. injection Hdeclared as <-.
    unfold get_or_none in Hrequested. rewrite Hout in Hrequested.
    simpl in Hrequested. injection Hrequested as <-.
    apply Z.eqb_eq in Hassert. exact Hassert. }
  destruct remove_similar_filters.
  - apply remove_similar_filters_inv in H
      as (rows & M & _ & Hrows & _ & _ & _ & _ & _ & ->).
    subst built. simpl in *. split; [reflexivity|].
    exists (length (select (keep_filters M similarity_level (length rows)) rows)).
    split; [reflexivity|]. split; [reflexivity|].
    intros out_channels Hstate Hout.
    specialize (Hrequest out_channels Hstate Hout).
    pose proof (select_length_le (keep_filters M similarity_level (length rows)) rows).
    apply flatten_1_length in Hrows. apply len_head in Hn.
    rewrite Hn in Hrows. injection Hrows as Hrows. lia.
  - injection H as <-. subst built. simpl. split; [reflexivity|].
    exists n. auto.
Qed.

Lemma conv1_random_eq :
  build_conv_leaf first_rows first_rows no_draws "conv1" false conv1_params
    None None None 3 (1 / 1000000)%R false (85 / 100)%R
  = Ok conv1_random.
Proof. vm_compute. reflexivity. Qed.

Lemma built_conv_leaf_channels_witness :
  conv_in_channels conv1_random = 3%nat
  ∧ ∃ n, len (conv_weight conv1_random) = Ok n
         ∧ conv_out_channels conv1_random = Z.of_nat n
         ∧ ∀ out_channels,
             @None (gmap string (ndarray R)) = None →
             conv1_params !! "out_channels" = Some (PInt out_channels) →
             if false then Z.of_nat n <= out_channels
             else Z.of_nat n = out_channels.
Proof.
  exact (built_conv_leaf_channels first_rows first_rows no_draws "conv1" false
           conv1_params None None None 3 (1 / 1000000)%R false
           (85 / 100)%R conv1_random conv1_random_eq).
Defined.

(** ** The architecture after a build *)

Section BuiltArchitecture.
Context {State : Type}.
Variable handle : State → build_event → result State.
Variable output_shape_prod : State → Z.
Variable state_dict : option (gmap string (ndarray R)).

(** The params a linear leaf ends with. *)
Lemma build_linear_after (new_module_name key operation : string)
      (operation_params after : gmap string pyval) (st st' : State) :
  build_linear handle output_shape_prod state_dict new_module_name key operation
    operation_params st = Ok (st', after) →
  is_Some (operation_params !! "in_features")
  ∧ match state_dict with
    | Some saved =>
        ∃ weights n0 n1 rest,
          saved !! linear_key key = Some weights
          ∧ shape weights = n0 :: n1 :: rest
          ∧ after = <["out_features" := PInt (Z.of_nat n0)]>
                      (<["in_features" := PInt (Z.of_nat n1)]> operation_params)
    | None => after = resolved_in_features (output_shape_prod st) operation_params
    end.
Proof.
  unfold build_linear. intros H.
  bind_inv H as in_features Hin. apply of_option_Ok in Hin.
  bind_inv H as flattened Hflat. destruct flattened as [st1 params1].
  bind_inv H as params2 Hsaved. bind_inv H as st2 Hst2. injection H as _ Hafter.
  subst params2. split; [eauto|].
  assert (Hresolved : params1 = resolved_in_features (output_shape_prod st)
                                                     operation_params).
  { unfold resolved_in_features. rewrite Hin.
    destruct (bool_decide (in_features = PInt (-1))) eqn:E.
    - apply bool_decide_eq_true in E. subst in_features.
      rewrite bool_decide_eq_true_2 by reflexivity.
      bind_inv Hflat as st0 Hst0. injection Hflat as _ <-. reflexivity.
    - apply bool_decide_eq_false in E.
      rewrite bool_decide_eq_false_2 by congruence.
      injection Hflat as _ <-. reflexivity. }
  destruct state_dict as [saved|].
  - bind_inv Hsaved as weights Hweights. apply of_option_Ok in Hweights.
    destruct (shape weights) as [|n0 [|n1 rest]] eqn:Hshape; try discriminate.
    injection Hsaved as <-. exists weights, n0, n1, rest.
    split; [exact Hweights|]. split; [exact Hshape|].
    rewrite Hresolved. unfold resolved_in_features.
    destruct (bool_decide (operation_params !! "in_features" = Some (PInt (-1))));
      [|reflexivity].
    rewrite insert_insert_eq. reflexivity.
  - injection Hsaved as <-. exact Hresolved.
Qed.
End BuiltArchitecture.

(** X20.  A linear leaf rebuilt from a [state_dict] takes both sizes from
    the saved weight [classifier.<key>._linear.weight]: its params end with
    [in_features = weights.shape[1]] and [out_features = weights.shape[0]],
    whatever the architecture declared and whatever the flattened output
    shape is; every other key is untouched. *)
Theorem linear_leaf_sizes_from_saved_weights {State : Type}
        (handle : State → build_event → result State)
        (output_shape_prod : State → Z) (saved : gmap string (ndarray R))
        (new_module_name key operation : string)
        (operation_params after : gmap string pyval) (st st' : State) :
  build_linear handle output_shape_prod (Some saved) new_module_name key operation
    operation_params st = Ok (st', after) →
  ∃ weights n0 n1 rest,
    saved !! linear_key key = Some weights
    ∧ shape weights = n0 :: n1 :: rest
    ∧ after = <["out_features" := PInt (Z.of_nat n0)]>
                (<["in_features" := PInt (Z.of_nat n1)]> operation_params).
Proof.
  intros H. apply build_linear_after in H as [_ H]. exact H.
Qed.

Lemma linear_leaf_sizes_from_saved_weights_witness :
  ∃ weights n0 n1 rest,
    (<["classifier.fc._linear.weight" := zeros [2; 48]%nat]> ∅ : gmap string (ndarray R))
      !! linear_key "fc" = Some weights
    ∧ shape weights = n0 :: n1 :: rest
    ∧ <["out_features" := PInt 2]> (<["in_features" := PInt 48]> linear_params)
      = <["out_features" := PInt (Z.of_nat n0)]>
          (<["in_features" := PInt (Z.of_nat n1)]> linear_params).
Proof.
  apply (linear_leaf_sizes_from_saved_weights no_state (fun _ => 48)
           (<["classifier.fc._linear.weight" := zeros [2; 48]%nat]> ∅)
           "fc" "fc" "linear" linear_params _ tt tt).
  reflexivity.
Defined.

Lemma per_axis_idempotent (is_3d : bool) (v : pyval) :
  per_axis is_3d (per_axis is_3d v) = per_axis is_3d v.
Proof. destruct v; reflexivity. Qed.

Lemma pooling_padding_fixed (operation : string) (operation_params : gmap string pyval) :
  pooling_padding operation
    (<["padding" := pooling_padding operation operation_params]> operation_params)
  = pooling_padding operation operation_params.
Proof.
  unfold pooling_padding at 1. rewrite lookup_insert_eq.
  unfold pooling_padding. destruct (operation_params !! "padding").
  - apply per_axis_idempotent.
  - reflexivity.
Qed.

Section SecondBuild.
Context {State State2 : Type}.
Variable handle : State → build_event → result State.
Variable output_shape_prod : State → Z.
Variable handle2 : State2 → build_event → result State2.
Variable output_shape_prod2 : State2 → Z.
Variable state_dict : option (gmap string (ndarray R)).

(** [np.prod] of an output shape is a number of elements. *)
Hypothesis size_not_placeholder : ∀ st, output_shape_prod st ≠ -1.

Lemma build_leaf_twice (new_module_name new_module_name2 key : string)
      (operation : option string) (params : option (gmap string pyval))
      (after after2 : gmap string pyval) (st st' : State) (st2 st2' : State2) :
  build_leaf handle output_shape_prod state_dict new_module_name key operation
    params st = Ok (st', after) →
  build_leaf handle2 output_shape_prod2 state_dict new_module_name2 key operation
    (Some after) st2 = Ok (st2', after2) →
  after2 = after.
Proof.
  unfold build_leaf. intros H1 H2.
  bind_inv H1 as tag Htag. apply of_option_Ok in Htag. subst operation.
  bind_inv H1 as before Hbefore. apply of_option_Ok in Hbefore. subst params.
  cbn [of_option mbind result_bind] in H2.
  destruct (negb _); [discriminate|].
  destruct (is_pooling tag).
  - apply build_pooling_params in H1. apply build_pooling_params in H2.
    subst after after2. rewrite pooling_padding_fixed.
    apply insert_insert_eq.
  - destruct (bool_decide (tag = "linear")).
    + apply build_linear_after in H1 as [_ H1].
      apply build_linear_after in H2 as [_ H2].
      destruct state_dict as [saved|].
      * destruct H1 as (w & n0 & n1 & rest & Hw & Hshape & ->).
        destruct H2 as (w2 & m0 & m1 & rest2 & Hw2 & Hshape2 & ->).
        rewrite Hw in Hw2. injection Hw2 as <-.
        rewrite Hshape in Hshape2. injection Hshape2 as <- <- <-.
        apply map_eq. intros k.
        destruct (decide (k = "out_features")) as [->|Hout];
          [rewrite !lookup_insert_eq; reflexivity|].
        rewrite !(lookup_insert_ne _ "out_features") by congruence.
        destruct (decide (k = "in_features")) as [->|Hin];
          [rewrite !lookup_insert_eq; reflexivity|].
        repeat first [ rewrite (lookup_insert_ne _ "in_features") by congruence
                     | rewrite (lookup_insert_ne _ "out_features") by congruence ].
        reflexivity.
      * subst after after2. unfold resolved_in_features at 1.
        rewrite bool_decide_eq_false_2; [reflexivity|].
        unfold resolved_in_features.
        destruct (bool_decide (before !! "in_features" = Some (PInt (-1)))) eqn:E.
        -- rewrite lookup_insert_eq. intros [= Heq].
           exact (size_not_placeholder st Heq).
        -- apply bool_decide_eq_false in E. exact E.
    + bind_inv H1 as st1 Hst1. injection H1 as _ <-.
      bind_inv H2 as st3 Hst3. injection H2 as _ <-. reflexivity.
Qed.

Lemma build_module_twice (module_arch : layer_config) :
  ∀ (module_name : option string) (st st' : State) (after : layer_config),
    _build_module handle output_shape_prod state_dict module_name module_arch st
      = Ok (st', after) →
    ∀ (module_name2 : option string) (st2 st2' : State2) (after2 : layer_config),
      _build_module handle2 output_shape_prod2 state_dict module_name2 after st2
        = Ok (st2', after2) →
      after2 = after.
Proof.
  induction module_arch as [type layers module_inputs IH | operation params inputs]
    using layer_config_induction; intros module_name st st' after H.
  2:{ discriminate. }
  cbn [_build_module] in H.
  bind_inv H as st0 Hst0. bind_inv H as built Hlayers. destruct built as [st1 layers'].
  bind_inv H as st_exit Hexit. injection H as _ <-.
  intros module_name2 st2 st2' after2 H2.
  cbn [_build_module] in H2.
  bind_inv H2 as st3 Hst3. bind_inv H2 as built2 Hlayers2.
  destruct built2 as [st4 layers2].
  bind_inv H2 as st_exit2 Hexit2. injection H2 as _ <-. f_equal.
  clear Hst0 Hexit Hst3 Hexit2 st st' st_exit st2 st2' st_exit2.
  revert st0 st1 layers' Hlayers st3 st4 layers2 Hlayers2.
  induction IH as [|[key config] rest Hconfig _ IHrest];
    intros st0 st1 layers' Hlayers st3 st4 layers2 Hlayers2.
  - injection Hlayers as _ <-. injection Hlayers2 as _ <-. reflexivity.
  - bind_inv Hlayers as sta Hsta. bind_inv Hlayers as one Hone.
    destruct one as [stb config'].
    bind_inv Hlayers as others Hrest. destruct others as [stc rest'].
    injection Hlayers as _ <-.
    bind_inv Hlayers2 as sta2 Hsta2. bind_inv Hlayers2 as one2 Hone2.
    destruct one2 as [stb2 config2].
    bind_inv Hlayers2 as others2 Hrest2. destruct others2 as [stc2 rest2].
    injection Hlayers2 as _ <-.
    f_equal.
    + f_equal. cbn [snd] in Hconfig.
      destruct config as [[t|] sub sub_inputs | operation params inputs].
      * bind_inv Hone as sub1 Hsub. destruct sub1 as [std built].
        bind_inv Hone as ste Hste. injection Hone as _ <-.
        destruct built as [[t'|] sub' | ? ? ?].
        -- bind_inv Hone2 as sub2 Hsub2. destruct sub2 as [std2 built2].
           bind_inv Hone2 as ste2 Hste2. injection Hone2 as _ <-.
           eapply Hconfig; eassumption.
        -- discriminate.
        -- cbn [_build_module] in Hsub. bind_inv Hsub as x Hx.
           bind_inv Hsub as y Hy. destruct y. bind_inv Hsub as z Hz. discriminate.
      * discriminate.
      * bind_inv Hone as leaf Hleaf. destruct leaf as [std params'].
        injection Hone as _ <-.
        bind_inv Hone2 as leaf2 Hleaf2. destruct leaf2 as [std2 params2].
        injection Hone2 as _ <-. f_equal. f_equal.
        eapply build_leaf_twice; eassumption.
    + eapply IHrest; eassumption.
Qed.
End SecondBuild.

(** X21.  The architecture that a build leaves behind is a fixed point of
    the builder: a second build of it, with the same [state_dict] (whatever
    the images, markers and module name), writes nothing new into the
    params.  The padding of a pooling leaf is already a per-axis list and
    an [in_features] of [-1] is already resolved. *)
Theorem build_module_twice_same_architecture {State State2 : Type}
        (handle : State → build_event → result State)
        (output_shape_prod : State → Z)
        (handle2 : State2 → build_event → result State2)
        (output_shape_prod2 : State2 → Z)
        (state_dict : option (gmap string (ndarray R)))
        (module_name module_name2 : option string)
        (module_arch after after2 : layer_config)
        (st st' : State) (st2 st2' : State2) :
  (∀ st, output_shape_prod st ≠ -1) →
  _build_module handle output_shape_prod state_dict module_name module_arch st
    = Ok (st', after) →
  _build_module handle2 output_shape_prod2 state_dict module_name2 after st2
    = Ok (st2', after2) →
  after2 = after.
Proof.
  intros Hsize H1 H2.
  exact (build_module_twice handle output_shape_prod handle2 output_shape_prod2
           state_dict Hsize module_arch module_name st st' after H1
           module_name2 st2 st2' after2 H2).
Qed.

Lemma small_arch_built_again :
  _build_module no_state (fun _ => 12) None (Some "net") small_arch_built tt
  = Ok (tt, small_arch_built).
Proof. vm_compute. reflexivity. Qed.

Lemma build_module_twice_same_architecture_witness :
  _build_module no_state (fun _ => 48) None None small_arch tt
    = Ok (tt, small_arch_built)
  ∧ _build_module no_state (fun _ => 12) None (Some "net") small_arch_built tt
    = Ok (tt, small_arch_built)
  ∧ small_arch_built = small_arch_built.
Proof.
  split; [exact small_arch_build|]. split; [exact small_arch_built_again|].
  apply (build_module_twice_same_architecture no_state (fun _ => 48) no_state
           (fun _ => 12) None None (Some "net") small_arch small_arch_built
           small_arch_built tt tt tt tt).
  - intros _. discriminate.
  - exact small_arch_build.
  - exact small_arch_built_again.
Defined.

(** ** [_pooling_markers] *)

Lemma py_index_in_range (i : Z) (n : nat) :
  0 <= i < Z.of_nat n → py_index i n = Ok (Z.to_nat i).
Proof.
  intros Hi. unfold py_index.
  replace (0 <=? i) with true by (symmetry; apply Z.leb_le; lia).
  replace (i <? Z.of_nat n) with true by (symmetry; apply Z.ltb_lt; lia).
  reflexivity.
Qed.

Section PoolingLoop.
Variables (x_limit y_limit stride : Z) (height width : nat).
Hypothesis stride_positive : 1 <= stride.
Hypothesis height_eq : Z.of_nat height = x_limit / stride + 1.
Hypothesis width_eq : Z.of_nat width = y_limit / stride + 1.

(** With a positive stride no write of the loop leaves the new marker. *)
Lemma pooling_loop_writes (marked : list (list nat * Z)) :
  ∀ new_marker,
    pooling_loop x_limit y_limit stride height width marked new_marker
    = Ok (write_all (omap (pooling_write x_limit y_limit stride width) marked)
                    new_marker).
Proof.
  induction marked as [|[idx value] rest IH]; intros new_marker; simpl;
    [reflexivity|].
  unfold pooling_write at 1. simpl fst. simpl snd.
  set (x := Z.of_nat (nth 0 idx 0%nat)). set (y := Z.of_nat (nth 1 idx 0%nat)).
  destruct ((x_limit <? x) || (y_limit <? y)) eqn:Hlimit; [apply IH|].
  apply orb_false_iff in Hlimit as [Hx Hy].
  apply Z.ltb_ge in Hx. apply Z.ltb_ge in Hy.
  assert (0 <= x) by (unfold x; lia). assert (0 <= y) by (unfold y; lia).
  assert (0 <= x / stride <= x_limit / stride).
  { split; [apply Z.div_pos; lia | apply Z.div_le_mono; lia]. }
  assert (0 <= y / stride <= y_limit / stride).
  { split; [apply Z.div_pos; lia | apply Z.div_le_mono; lia]. }
  rewrite !py_index_in_range by lia. cbn [mbind result_bind].
  rewrite IH. reflexivity.
Qed.

Lemma pooling_write_bound (pixel : list nat * Z) (position : nat) (value : Z) :
  pooling_write x_limit y_limit stride width pixel = Some (position, value) →
  (position < height * width)%nat.
Proof.
  unfold pooling_write.
  set (x := Z.of_nat (nth 0 (fst pixel) 0%nat)).
  set (y := Z.of_nat (nth 1 (fst pixel) 0%nat)).
  destruct ((x_limit <? x) || (y_limit <? y)) eqn:Hlimit; [discriminate|].
  intros [= <- _].
  apply orb_false_iff in Hlimit as [Hx Hy].
  apply Z.ltb_ge in Hx. apply Z.ltb_ge in Hy.
  assert (0 <= x) by (unfold x; lia). assert (0 <= y) by (unfold y; lia).
  assert (0 <= x / stride <= x_limit / stride).
  { split; [apply Z.div_pos; lia | apply Z.div_le_mono; lia]. }
  assert (0 <= y / stride <= y_limit / stride).
  { split; [apply Z.div_pos; lia | apply Z.div_le_mono; lia]. }
  assert (Z.to_nat (x / stride) < height)%nat by lia.
  assert (Z.to_nat (y / stride) < width)%nat by lia.
  nia.
Qed.
End PoolingLoop.

Lemma write_all_length (writes : list (nat * Z)) :
  ∀ new_marker, length (write_all writes new_marker) = length new_marker.
Proof.
  induction writes as [|w writes IH]; intros new_marker; simpl; [reflexivity|].
  unfold write_all in *. simpl. rewrite IH. apply length_insert.
Qed.

(** The last write to a position wins; a position never written keeps
    what it held. *)
Lemma write_all_nth (writes : list (nat * Z)) :
  ∀ new_marker position,
    (position < length new_marker)%nat →
    (nth position (write_all writes new_marker) 0 = nth position new_marker 0
     ∧ ¬ In position (map fst writes))
    ∨ In (position, nth position (write_all writes new_marker) 0) writes.
Proof.
  induction writes as [|[q v] writes IH]; intros new_marker position Hpos.
  - left. simpl. auto.
  - unfold write_all in *. simpl.
    destruct (IH (<[q := v]> new_marker) position) as [[Hsame Hnot]|Hin].
    + rewrite length_insert. exact Hpos.
    + destruct (decide (position = q)) as [->|Hne].
      * right. left. rewrite Hsame.
        rewrite nth_lookup, list_lookup_insert_eq by exact Hpos. reflexivity.
      * left. rewrite Hsame. split.
        -- rewrite !nth_lookup, list_lookup_insert_ne by congruence. reflexivity.
        -- intros [Heq|Hin]; [congruence|contradiction].
    + right. right. exact Hin.
Qed.

Lemma mapR_Forall2 {A B : Type} (f : A → result B) (l : list A) :
  ∀ bs, mapR f l = Ok bs → Forall2 (fun a b => f a = Ok b) l bs.
Proof.
  induction l as [|a l IH]; simpl; intros bs H.
  - injection H as <-. constructor.
  - bind_inv H as b Hb. bind_inv H as bs' Hbs. injection H as <-.
    constructor; auto.
Qed.

(** The steps of the pooling of one label image when the stride is
    positive and the marker is two-dimensional. *)
Lemma pooling_marker_steps (kernel_size padding : list Z) (stride : Z)
      (marker : ndarray Z) (h w : nat) (p0 p1 k0 k1 : Z) :
  shape marker = [h; w] →
  padding !! 0%nat = Some p0 → padding !! 1%nat = Some p1 →
  kernel_size !! 0%nat = Some k0 → kernel_size !! 1%nat = Some k1 →
  1 <= stride →
  let x_limit := pooling_limit h p0 k0 in
  let y_limit := pooling_limit w p1 k1 in
  let height := Z.to_nat (x_limit / stride + 1) in
  let width := Z.to_nat (y_limit / stride + 1) in
  pooling_marker kernel_size padding stride marker
  = if (x_limit / stride + 1 <? 0) || (y_limit / stride + 1 <? 0)
    then Err LibraryError
    else Ok (NdArray [height; width]
               (write_all (omap (pooling_write x_limit y_limit stride width)
                                (nonzero marker))
                          (repeat 0 (height * width)))).
Proof.
  intros Hshape Hp0 Hp1 Hk0 Hk1 Hstride x_limit y_limit height width.
  unfold pooling_marker, py_item, pooled_extent. rewrite Hshape, Hp0, Hp1, Hk0, Hk1.
  cbn [of_option mbind result_bind].
  replace (stride =? 0) with false by (symmetry; apply Z.eqb_neq; lia).
  cbn [mbind result_bind]. fold x_limit y_limit.
  destruct ((x_limit / stride + 1 <? 0) || (y_limit / stride + 1 <? 0)) eqn:Hneg;
    [reflexivity|].
  apply orb_false_iff in Hneg as [Hx Hy].
  apply Z.ltb_ge in Hx. apply Z.ltb_ge in Hy.
  fold height width.
  rewrite (pooling_loop_writes x_limit y_limit stride height width) by
    (unfold height, width; lia).
  reflexivity.
Qed.

(** X22.  [_pooling_markers] with a positive stride on label images of
    shape [h x w], when the kernel fits into the padded image: no index
    leaves the new image, and every pooled image has the shape
    [floor((h + 2*p0 - k0)/stride) + 1] by [floor((w + 2*p1 - k1)/stride) + 1]. *)
Theorem pooling_markers_shape (markers : list (ndarray Z))
        (kernel_size padding : list Z) (stride : Z) (h w : nat) (p0 p1 k0 k1 : Z) :
  Forall (fun marker => shape marker = [h; w]) markers →
  padding !! 0%nat = Some p0 → padding !! 1%nat = Some p1 →
  kernel_size !! 0%nat = Some k0 → kernel_size !! 1%nat = Some k1 →
  1 <= stride →
  0 <= pooling_limit h p0 k0 → 0 <= pooling_limit w p1 k1 →
  ∃ pooled,
    _pooling_markers markers kernel_size stride padding = Ok pooled
    ∧ length pooled = length markers
    ∧ Forall (fun new_marker =>
                shape new_marker
                = [Z.to_nat (pooling_limit h p0 k0 / stride + 1);
                   Z.to_nat (pooling_limit w p1 k1 / stride + 1)]
                ∧ well_formed new_marker) pooled.
Proof.
  intros Hshapes Hp0 Hp1 Hk0 Hk1 Hstride Hx Hy. unfold _pooling_markers.
  induction Hshapes as [|marker markers Hshape _ IH]; simpl.
  - exists []. repeat split; constructor.
  - rewrite (pooling_marker_steps kernel_size padding stride marker h w p0 p1 k0 k1)
      by assumption.
    assert (0 <= pooling_limit h p0 k0 / stride) by (apply Z.div_pos; lia).
    assert (0 <= pooling_limit w p1 k1 / stride) by (apply Z.div_pos; lia).
    replace (_ || _) with false by (symmetry; apply orb_false_iff; split;
                                    apply Z.ltb_ge; lia).
    destruct IH as (pooled & -> & Hlen & Hall). cbn [mbind result_bind].
    eexists. split; [reflexivity|]. split; [simpl; congruence|].
    constructor; [|exact Hall]. split; [reflexivity|].
    unfold well_formed. simpl. rewrite write_all_length, repeat_length. lia.
Qed.

Lemma pooling_markers_shape_witness :
  ∃ pooled,
    _pooling_markers [diagonal_marker] [2; 2] 2 [0; 0] = Ok pooled
    ∧ length pooled = 1%nat
    ∧ Forall (fun new_marker =>
                shape new_marker
                = [Z.to_nat (pooling_limit 4 0 2 / 2 + 1);
                   Z.to_nat (pooling_limit 4 0 2 / 2 + 1)]
                ∧ well_formed new_marker) pooled.
Proof.
  apply (pooling_markers_shape [diagonal_marker] [2; 2] [0; 0] 2 4 4 0 0 2 2).
  - repeat constructor.
  - reflexivity.
  - reflexivity.
  - reflexivity.
  - reflexivity.
  - lia.
  - unfold pooling_limit. lia.
  - unfold pooling_limit. lia.
Defined.

Lemma In_omap {A B : Type} (f : A → option B) (l : list A) (b : B) :
  In b (omap f l) ↔ ∃ a, In a l ∧ f a = Some b.
Proof.
  induction l as [|a l IH]; simpl.
  - split; [contradiction|]. intros (a & [] & _).
  - destruct (f a) as [b'|] eqn:Hfa; simpl; rewrite IH; split.
    + intros [<-|(a' & Hin & Ha')]; eauto.
    + intros (a' & [<-|Hin] & Ha'); [left; congruence|eauto].
    + intros (a' & Hin & Ha'); eauto.
    + intros (a' & [<-|Hin] & Ha'); [congruence|eauto].
Qed.

Lemma cell_position_unique (a b c d w : nat) :
  (b < w)%nat → (d < w)%nat → (a * w + b = c * w + d)%nat → a = c ∧ b = d.
Proof.
  intros Hb Hd Heq.
  assert (a = c).
  { destruct (Nat.lt_trichotomy a c) as [Hlt|[Heq'|Hgt]]; [|exact Heq'|]; nia. }
  subst. lia.
Qed.

Lemma pooling_marker_cells (kernel_size padding : list Z) (stride : Z)
      (marker new_marker : ndarray Z) (h w : nat) (p0 p1 k0 k1 : Z) :
  shape marker = [h; w] → well_formed marker →
  padding !! 0%nat = Some p0 → padding !! 1%nat = Some p1 →
  kernel_size !! 0%nat = Some k0 → kernel_size !! 1%nat = Some k1 →
  1 <= stride →
  pooling_marker kernel_size padding stride marker = Ok new_marker →
  pooled_cells stride (pooling_limit h p0 k0) (pooling_limit w p1 k1)
               marker new_marker.
Proof.
  intros Hshape Hwf Hp0 Hp1 Hk0 Hk1 Hstride H.
  rewrite (pooling_marker_steps kernel_size padding stride marker h w p0 p1 k0 k1)
    in H by assumption.
  set (x_limit := pooling_limit h p0 k0) in *.
  set (y_limit := pooling_limit w p1 k1) in *.
  destruct (_ || _) eqn:Hneg; [discriminate|].
  apply orb_false_iff in Hneg as [Hx Hy].
  apply Z.ltb_ge in Hx. apply Z.ltb_ge in Hy.
  set (height := Z.to_nat (x_limit / stride + 1)) in *.
  set (width := Z.to_nat (y_limit / stride + 1)) in *.
  set (writes := omap (pooling_write x_limit y_limit stride width) (nonzero marker))
    in *.
  injection H as <-. intros i j Hij. simpl shape in Hij.
  inversion Hij as [|? ? ? ? Hi Hj']; subst.
  inversion Hj' as [|? ? ? ? Hj _]; subst.
  assert (Hget : nd_get 0 (NdArray [height; width]
                             (write_all writes (repeat 0 (height * width)))) [i; j]
                 = nth (i * width + j)
                       (write_all writes (repeat 0 (height * width))) 0).
  { unfold nd_get. simpl. f_equal. lia. }
  rewrite !Hget. clear Hget.
  assert (Hq : (i * width + j < length (repeat 0%Z (height * width)))%nat)
    by (rewrite repeat_length; nia).
  assert (Hwritten : ∀ pixel value,
             In pixel (nonzero marker) →
             pooling_write x_limit y_limit stride width pixel
               = Some ((i * width + j)%nat, value) →
             ∃ x y, fst pixel = [x; y] ∧ snd pixel = value
                    ∧ Forall2 (fun k n => (k < n)%nat) [x; y] (shape marker)
                    ∧ nd_get 0 marker [x; y] = value ∧ value ≠ 0
                    ∧ Z.of_nat x <= x_limit ∧ Z.of_nat y <= y_limit
                    ∧ Z.of_nat x / stride = Z.of_nat i
                    ∧ Z.of_nat y / stride = Z.of_nat j).
  { intros [idx val] value Hin Hwrite.
    apply nonzero_spec in Hin as (Hbound & Hval & Hnz); [|exact Hwf].
    rewrite Hshape in Hbound.
    inversion Hbound as [|x ? idx1 ? Hxh H1]; subst.
    inversion H1 as [|y ? idx2 ? Hyw H2]; subst. inversion H2; subst.
    unfold pooling_write in Hwrite. simpl in Hwrite.
    destruct ((x_limit <? Z.of_nat x) || (y_limit <? Z.of_nat y)) eqn:Hlimit;
      [discriminate|].
    apply orb_false_iff in Hlimit as [Hxl Hyl].
    apply Z.ltb_ge in Hxl. apply Z.ltb_ge in Hyl.
    injection Hwrite as Hposition <-.
    assert (0 <= Z.of_nat x / stride <= x_limit / stride).
    { split; [apply Z.div_pos; lia | apply Z.div_le_mono; lia]. }
    assert (0 <= Z.of_nat y / stride <= y_limit / stride).
    { split; [apply Z.div_pos; lia | apply Z.div_le_mono; lia]. }
    apply cell_position_unique in Hposition as [Hi' Hj'']; [|lia|exact Hj].
    exists x, y. rewrite Hshape. simpl. repeat split; auto; lia. }
  destruct (write_all_nth writes (repeat 0 (height * width)) (i * width + j) Hq)
    as [[Hsame Hnot]|Hin].
  - rewrite Hsame. rewrite nth_repeat. split; [congruence|].
    intros x y Hbound Hnz Hxl Hyl Hxi Hyj. exfalso. apply Hnot.
    apply List.in_map_iff. exists ((i * width + j)%nat, nd_get 0 marker [x; y]).
    split; [reflexivity|]. apply In_omap.
    exists ([x; y], nd_get 0 marker [x; y]). split.
    + apply nonzero_spec; auto.
    + unfold pooling_write. simpl.
      replace ((x_limit <? Z.of_nat x) || (y_limit <? Z.of_nat y)) with false
        by (symmetry; apply orb_false_iff; split; apply Z.ltb_ge; lia).
      rewrite Hxi, Hyj, !Nat2Z.id. reflexivity.
  - apply In_omap in Hin as (pixel & Hpixel & Hwrite).
    destruct (Hwritten pixel _ Hpixel Hwrite)
      as (x & y & _ & _ & Hbound & Hval & Hnz & Hrest).
    split.
    + intros _. exists x, y. auto.
    + intros _ _ _ _ _ _ _ _. exact Hnz.
Qed.

(** X23.  What [_pooling_markers] puts into a pooled label image, for a
    positive stride: a non-zero entry at [(i, j)] is the label of a marked
    pixel [(x, y)] of the image with [x // stride = i], [y // stride = j]
    that lies within the limits [h + 2*p0 - k0] and [w + 2*p1 - k1]; and
    whenever such a pixel exists the entry is not zero.  Labels are neither
    invented nor moved to another cell, and a marked cell stays marked. *)
Theorem pooling_markers_cells (markers pooled : list (ndarray Z))
        (kernel_size padding : list Z) (stride : Z) (h w : nat) (p0 p1 k0 k1 : Z) :
  Forall (fun marker => shape marker = [h; w] ∧ well_formed marker) markers →
  padding !! 0%nat = Some p0 → padding !! 1%nat = Some p1 →
  kernel_size !! 0%nat = Some k0 → kernel_size !! 1%nat = Some k1 →
  1 <= stride →
  _pooling_markers markers kernel_size stride padding = Ok pooled →
  Forall2 (pooled_cells stride (pooling_limit h p0 k0) (pooling_limit w p1 k1))
          markers pooled.
Proof.
  intros Hmarkers Hp0 Hp1 Hk0 Hk1 Hstride H.
  apply mapR_Forall2 in H.
  induction H as [|marker new_marker markers pooled Hone _ IH].
  - constructor.
  - apply Forall_cons in Hmarkers as [[Hshape Hwf] Hmarkers].
    constructor; [|apply IH; exact Hmarkers].
    eapply pooling_marker_cells; eauto.
Qed.

Lemma diagonal_marker_pooled :
  _pooling_markers [diagonal_marker] [2; 2] 2 [0; 0]
  = Ok [NdArray [2; 2]%nat [1; 0; 0; 2]].
Proof. vm_compute. reflexivity. Qed.

Lemma pooling_markers_cells_witness :
  Forall2 (pooled_cells 2 (pooling_limit 4 0 2) (pooling_limit 4 0 2))
          [diagonal_marker] [NdArray [2; 2]%nat [1; 0; 0; 2]].
Proof.
  apply (pooling_markers_cells [diagonal_marker] _ [2; 2] [0; 0] 2 4 4 0 0 2 2).
  - repeat constructor.
  - reflexivity.
  - reflexivity.
  - reflexivity.
  - reflexivity.
  - lia.
  - exact diagonal_marker_pooled.
Defined.

Lemma index_pair (idx : list nat) (h w : nat) :
  Forall2 (fun i n => (i < n)%nat) idx [h; w] →
  ∃ x y, idx = [x; y] ∧ (x < h)%nat ∧ (y < w)%nat.
Proof.
  intros H. inversion H as [|x ? idx1 ? Hx H1]; subst.
  inversion H1 as [|y ? idx2 ? Hy H2]; subst. inversion H2; subst. eauto.
Qed.

Lemma pooling_write_same_size (h w : nat) (p0 p1 : Z) (x y : nat) (value : Z) :
  (x < h)%nat → (y < w)%nat →
  pooling_write (pooling_limit h p0 (2 * p0 + 1)) (pooling_limit w p1 (2 * p1 + 1))
                1 w ([x; y], value)
  = Some (flat_index [h; w] [x; y], value).
Proof.
  intros Hx Hy. unfold pooling_write, pooling_limit. simpl.
  replace (_ || _) with false
    by (symmetry; apply orb_false_iff; split; apply Z.ltb_ge; lia).
  rewrite !Z.div_1_r, !Nat2Z.id. do 2 f_equal. lia.
Qed.

Lemma pooling_marker_same_size (kernel_size padding : list Z) (p0 p1 : Z)
      (marker : ndarray Z) (h w : nat) :
  shape marker = [h; w] → well_formed marker →
  padding !! 0%nat = Some p0 → padding !! 1%nat = Some p1 →
  kernel_size !! 0%nat = Some (2 * p0 + 1) →
  kernel_size !! 1%nat = Some (2 * p1 + 1) →
  pooling_marker kernel_size padding 1 marker = Ok marker.
Proof.
  intros Hshape Hwf Hp0 Hp1 Hk0 Hk1.
  rewrite (pooling_marker_steps kernel_size padding 1 marker h w p0 p1
             (2 * p0 + 1) (2 * p1 + 1)) by (auto; lia).
  set (x_limit := pooling_limit h p0 (2 * p0 + 1)).
  set (y_limit := pooling_limit w p1 (2 * p1 + 1)).
  assert (Hh : x_limit / 1 + 1 = Z.of_nat h)
    by (unfold x_limit, pooling_limit; rewrite Z.div_1_r; lia).
  assert (Hw : y_limit / 1 + 1 = Z.of_nat w)
    by (unfold y_limit, pooling_limit; rewrite Z.div_1_r; lia).
  rewrite Hh, Hw, !Nat2Z.id.
  replace ((Z.of_nat h <? 0) || (Z.of_nat w <? 0)) with false
    by (symmetry; apply orb_false_iff; split; apply Z.ltb_ge; lia).
  set (writes := omap (pooling_write x_limit y_limit 1 w) (nonzero marker)).
  assert (Hlen : length (data marker) = (h * w)%nat).
  { unfold well_formed in Hwf. rewrite Hwf, Hshape. simpl. lia. }
  assert (Hdata : write_all writes (repeat 0 (h * w)) = data marker).
  { apply nth_ext with (d := 0) (d' := 0).
    { rewrite write_all_length, repeat_length. auto. }
    intros q Hq. rewrite write_all_length, repeat_length in Hq.
    assert (Hq' : (q < prod_nat (shape marker))%nat) by (rewrite Hshape; simpl; lia).
    destruct (cartesian_nth (shape marker) q Hq') as [Hbound Hflat].
    cbv zeta in Hbound, Hflat.
    remember (nth q (cartesian (map (seq 0) (shape marker))) []) as idx eqn:Hidx.
    clear Hidx. rewrite Hshape in Hbound, Hflat.
    destruct (index_pair _ _ _ Hbound) as (x & y & -> & Hx & Hy).
    destruct (write_all_nth writes (repeat 0 (h * w)) q) as [[Hsame Hnot]|Hin].
    - rewrite repeat_length. exact Hq.
    - rewrite Hsame, nth_repeat.
      destruct (Z.eq_dec (nth q (data marker) 0) 0) as [Hzero|Hnz]; [congruence|].
      exfalso. apply Hnot. apply List.in_map_iff.
      exists (q, nth q (data marker) 0). split; [reflexivity|].
      apply In_omap. exists ([x; y], nth q (data marker) 0). split.
      + apply nonzero_spec; [exact Hwf|]. rewrite Hshape.
        split; [exact Hbound|]. split; [|exact Hnz].
        unfold nd_get. rewrite Hshape, Hflat. reflexivity.
      + unfold x_limit, y_limit. rewrite pooling_write_same_size by assumption.
        rewrite Hflat. reflexivity.
    - apply In_omap in Hin as ([idx' value] & Hpixel & Hwrite).
      apply nonzero_spec in Hpixel as (Hbound' & Hval & _); [|exact Hwf].
      rewrite Hshape in Hbound'.
      destruct (index_pair _ _ _ Hbound') as (x' & y' & -> & Hx' & Hy').
      unfold x_limit, y_limit in Hwrite.
      rewrite pooling_write_same_size in Hwrite by assumption.
      injection Hwrite as Hposition Hvalue.
      rewrite <- Hvalue, <- Hval. unfold nd_get. rewrite Hshape.
      simpl flat_index. simpl in Hposition. rewrite Hposition. reflexivity. }
  rewrite Hdata. destruct marker as [shp elements]. simpl in *. subst shp.
  reflexivity.
Qed.

(** X24.  [_pooling_markers] with stride 1 and a kernel of [2*p + 1] on
    each axis for a padding of [p] (the same-size pooling that
    [_build_module] replays) returns every two-dimensional label image
    unchanged. *)
Theorem pooling_markers_same_size (markers : list (ndarray Z))
        (kernel_size padding : list Z) (p0 p1 : Z) :
  Forall (fun marker => ndim marker = 2%nat ∧ well_formed marker) markers →
  padding !! 0%nat = Some p0 → padding !! 1%nat = Some p1 →
  kernel_size !! 0%nat = Some (2 * p0 + 1) →
  kernel_size !! 1%nat = Some (2 * p1 + 1) →
  _pooling_markers markers kernel_size 1 padding = Ok markers.
Proof.
  intros Hmarkers Hp0 Hp1 Hk0 Hk1. unfold _pooling_markers.
  induction Hmarkers as [|marker markers [Hndim Hwf] _ IH]; simpl; [reflexivity|].
  rewrite IH. unfold ndim in Hndim.
  destruct (shape marker) as [|h [|w [|? ?]]] eqn:Hshape; try discriminate.
  rewrite (pooling_marker_same_size kernel_size padding p0 p1 marker h w)
    by assumption.
  reflexivity.
Qed.

Lemma pooling_markers_same_size_witness :
  _pooling_markers [diagonal_marker] [3; 3] 1 [1; 1] = Ok [diagonal_marker].
Proof.
  apply (pooling_markers_same_size [diagonal_marker] [3; 3] [1; 1] 1 1).
  - repeat constructor.
  - reflexivity.
  - reflexivity.
  - reflexivity.
  - reflexivity.
Defined.

(** ** Skip connections *)

Lemma save_inputs_lookup (inputs : list string) :
  ∀ (outputs : gmap string bool) (name : string),
    fold_left (fun outputs layer_name => <[layer_name := true]> outputs) inputs outputs
      !! name
    = if bool_decide (name ∈ inputs) then Some true else outputs !! name.
Proof.
  induction inputs as [|i inputs IH]; intros outputs name; cbn [fold_left].
  - rewrite bool_decide_eq_false_2 by apply not_elem_of_nil. reflexivity.
  - rewrite IH. destruct (decide (name ∈ inputs)) as [Hin|Hnot].
    + rewrite !bool_decide_eq_true_2; auto. apply elem_of_cons. auto.
    + rewrite (bool_decide_eq_false_2 (name ∈ inputs)) by exact Hnot.
      destruct (decide (name = i)) as [->|Hne].
      * rewrite lookup_insert_eq, bool_decide_eq_true_2; auto.
        apply elem_of_cons. auto.
      * rewrite lookup_insert_ne by congruence.
        rewrite bool_decide_eq_false_2; auto.
        rewrite elem_of_cons. intros [?|?]; contradiction.
Qed.

Lemma outputs_to_save_lookup (skips : gmap string (list string)) (name : string) :
  (_find_outputs_to_save skips !! name = Some true
   ↔ ∃ key inputs, skips !! key = Some inputs ∧ name ∈ inputs)
  ∧ _find_outputs_to_save skips !! name ≠ Some false.
Proof.
  unfold _find_outputs_to_save.
  apply (map_fold_weak_ind
           (fun (outputs : gmap string bool) (m : gmap string (list string)) =>
              (outputs !! name = Some true
               ↔ ∃ key inputs, m !! key = Some inputs ∧ name ∈ inputs)
              ∧ outputs !! name ≠ Some false)).
  - split; [|rewrite lookup_empty; discriminate].
    rewrite lookup_empty. split; [discriminate|].
    intros (key & inputs & H & _). rewrite lookup_empty in H. discriminate.
  - intros key inputs m outputs Hfresh [IH1 IH2].
    rewrite save_inputs_lookup.
    destruct (decide (name ∈ inputs)) as [Hin|Hnot].
    + rewrite bool_decide_eq_true_2 by exact Hin. split; [|discriminate].
      split; [|reflexivity]. intros _. exists key, inputs.
      rewrite lookup_insert_eq. auto.
    + rewrite bool_decide_eq_false_2 by exact Hnot. split; [|exact IH2].
      rewrite IH1. split.
      * intros (k & ins & Hk & Hn). exists k, ins. split; [|exact Hn].
        rewrite lookup_insert_ne; [exact Hk|]. intros ->. congruence.
      * intros (k & ins & Hk & Hn).
        destruct (decide (k = key)) as [->|Hne].
        -- rewrite lookup_insert_eq in Hk. injection Hk as <-. contradiction.
        -- rewrite lookup_insert_ne in Hk by congruence. eauto.
Qed.

Lemma has_inputs_later (module_name : option string) (type : option string)
      (entry : string * layer_config) (layers : list (string * layer_config))
      (module_inputs : option (list string)) (name : string) (inputs : list string) :
  has_inputs module_name (Module type layers module_inputs) name inputs →
  has_inputs module_name (Module type (entry :: layers) module_inputs) name inputs.
Proof.
  intros H. inversion H; subst.
  - eapply inputs_here; [right; eassumption|assumption].
  - eapply inputs_below; [right; eassumption|assumption].
Qed.

Lemma find_skip_connections_in_module_finds (module : layer_config) :
  ∀ module_name type layers module_inputs,
    module = Module type layers module_inputs →
    ∃ skips, _find_skip_connections_in_module module_name module = Ok skips
             ∧ finds_inputs module_name module skips.
Proof.
  induction module as [type0 layers0 inputs0 IH | operation params inputs]
    using layer_config_induction; intros module_name type layers module_inputs Heq;
    [|discriminate].
  injection Heq as -> -> ->. cbn [_find_skip_connections_in_module].
  set (scan := fix scan (layers : list (string * layer_config))
                        (skips : gmap string (list string))
                 : result (gmap string (list string)) := _).
  assert (Hscan : ∀ skips0,
             ∃ skips, scan layers skips0 = Ok skips
                      ∧ (∀ name inputs, skips !! name = Some inputs →
                           skips0 !! name = Some inputs
                           ∨ has_inputs module_name (Module type layers module_inputs)
                                        name inputs)
                      ∧ (∀ name, is_Some (skips0 !! name) → is_Some (skips !! name))
                      ∧ (∀ name inputs,
                           has_inputs module_name (Module type layers module_inputs)
                                      name inputs →
                           is_Some (skips !! name))).
  { induction IH as [|[layer_name config] rest Hconfig _ IHrest]; intros skips0.
    - exists skips0. split; [reflexivity|]. split; [auto|]. split; [auto|].
      intros name inputs H. inversion H; subst; contradiction.
    - cbn [snd] in Hconfig. cbn [scan].
      set (key := key_name module_name layer_name).
      assert (Hfirst : ∃ skips1,
                 match config with
                 | Module (Some _) _ _ =>
                     submodules_skips ←
                       _find_skip_connections_in_module (Some key) config ;
                     Ok (submodules_skips ∪ skips0)
                 | _ => Ok skips0
                 end = Ok skips1
                 ∧ (∀ name inputs, skips1 !! name = Some inputs →
                      skips0 !! name = Some inputs
                      ∨ ∃ sub_type sub_layers sub_inputs,
                          config = Module (Some sub_type) sub_layers sub_inputs
                          ∧ has_inputs (Some key) config name inputs)
                 ∧ (∀ name, is_Some (skips0 !! name) → is_Some (skips1 !! name))
                 ∧ (∀ sub_type sub_layers sub_inputs name inputs,
                      config = Module (Some sub_type) sub_layers sub_inputs →
                      has_inputs (Some key) config name inputs →
                      is_Some (skips1 !! name))).
      { destruct config as [[sub_type|] sub_layers sub_inputs | ? ? ?].
        - destruct (Hconfig (Some key) (Some sub_type) sub_layers sub_inputs eq_refl)
            as (sub & -> & Hsound & Hcomplete).
          exists (sub ∪ skips0). split; [reflexivity|]. split; [|split].
          + intros name inputs Hlookup.
            apply lookup_union_Some_raw in Hlookup as [Hsub|[_ Hold]]; eauto.
            right. exists sub_type, sub_layers, sub_inputs. auto.
          + intros name [v Hv].
            destruct (sub !! name) as [v'|] eqn:Hsub.
            * exists v'. apply lookup_union_Some_raw. auto.
            * exists v. apply lookup_union_Some_raw. auto.
          + intros st sl si name inputs _ Hin.
            destruct (Hcomplete name inputs Hin) as [v Hv].
            exists v. apply lookup_union_Some_raw. auto.
        - exists skips0. split; [reflexivity|]. split; [auto|]. split; [auto|].
          intros ? ? ? ? ? [=].
        - exists skips0. split; [reflexivity|]. split; [auto|]. split; [auto|].
          intros ? ? ? ? ? [=]. }
      destruct Hfirst as (skips1 & -> & Hsound1 & Hmono1 & Hcomplete1).
      cbn [mbind result_bind].
      set (skips2 := match inputs_of config with
                     | Some inputs => <[key := inputs]> skips1
                     | None => skips1
                     end).
      destruct (IHrest skips2) as (skips & Hrun & Hsound & Hmono & Hcomplete).
      exists skips. split; [exact Hrun|].
      assert (Hmono2 : ∀ name, is_Some (skips1 !! name) → is_Some (skips2 !! name)).
      { intros name Hsome. unfold skips2.
        destruct (inputs_of config) as [inputs|]; auto.
        destruct (decide (name = key)) as [->|Hne].
        - rewrite lookup_insert_eq. eauto.
        - rewrite lookup_insert_ne by congruence. exact Hsome. }
      split; [|split].
      + intros name inputs Hlookup.
        destruct (Hsound name inputs Hlookup) as [Hold|Hrest];
          [|right; apply has_inputs_later; exact Hrest].
        assert (Hcases : skips1 !! name = Some inputs
                         ∨ (inputs_of config = Some inputs ∧ name = key)).
        { unfold skips2 in Hold. destruct (inputs_of config) as [ins|]; auto.
          destruct (decide (name = key)) as [->|Hne].
          - rewrite lookup_insert_eq in Hold. injection Hold as ->. auto.
          - rewrite lookup_insert_ne in Hold by congruence. auto. }
        destruct Hcases as [H1|[Hc Hn]].
        * destruct (Hsound1 name inputs H1) as [H0|(st & sl & si & Hc & Hsub)]; auto.
          right. rewrite Hc in Hsub.
          apply (inputs_below module_name type _ module_inputs layer_name st sl si
                              name inputs);
            [left; f_equal; exact Hc|exact Hsub].
        * right. rewrite Hn. unfold key.
          apply (inputs_here module_name type _ module_inputs layer_name config inputs);
            [left; reflexivity|exact Hc].
      + intros name Hsome. auto.
      + intros name inputs Hhas. inversion Hhas as
          [mn ty ls mi ln en ins Hin Hen | mn ty ls mi ln st sl si nm ins Hin Hsub];
          subst.
        * destruct Hin as [Heq|Hin].
          -- injection Heq as Hln Hc. apply Hmono. unfold skips2.
             rewrite Hc, Hen, <- Hln. fold key. rewrite lookup_insert_eq. eauto.
          -- eapply Hcomplete. eapply inputs_here; [exact Hin|exact Hen].
        * destruct Hin as [Heq|Hin].
          -- injection Heq as Hln Hc. apply Hmono, Hmono2.
             rewrite <- Hln in Hsub. fold key in Hsub.
             eapply Hcomplete1; [exact Hc|rewrite Hc; exact Hsub].
          -- eapply Hcomplete. eapply inputs_below; eassumption. }
  destruct (Hscan ∅) as (skips & Hrun & Hsound & _ & Hcomplete).
  exists skips. split; [exact Hrun|]. split; [|exact Hcomplete].
  intros name inputs Hlookup.
  destruct (Hsound name inputs Hlookup) as [Hempty|H]; [|exact H].
  rewrite lookup_empty in Hempty. discriminate.
Qed.

(** On [skip_arch] the search records the inputs of the sub-module
    [block] as well as those of its leaf. *)
Lemma skip_arch_found :
  (λ skips : gmap string (list string),
     (skips !! "features.block", skips !! "features.block.conv2",
      skips !! "features.conv1"))
    <$> _find_skip_connections [("features", skip_arch)]
  = Ok (Some ["input"; "conv1"], Some ["input"], None).
Proof. vm_compute. reflexivity. Qed.

(** X25.  [_find_outputs_to_save]: a layer name is a key of the result,
    with the value [True], exactly when it occurs in the list of inputs of
    some entry of [skips]; no other key and no other value is stored. *)
Theorem find_outputs_to_save_spec (skips : gmap string (list string))
        (name : string) :
  (_find_outputs_to_save skips !! name = Some true
   ↔ ∃ key inputs, skips !! key = Some inputs ∧ name ∈ inputs)
  ∧ _find_outputs_to_save skips !! name ≠ Some false.
Proof. apply outputs_to_save_lookup. Qed.

(** X26.  [_find_skip_connections_in_module] on a module never fails, and
    the dictionary it returns maps dotted names to inputs: every entry is
    the ['inputs'] of an entry of the module, a leaf or a sub-module,
    found at that dotted name ([module.sub.layer]), and the dotted name of
    every entry with ['inputs'], at any depth reached through sub-modules
    with a ['type'], is a key of the dictionary.  The ['inputs'] of the
    module itself are not looked at. *)
Theorem find_skip_connections_in_module_spec (module_name : option string)
        (type : option string) (layers : list (string * layer_config))
        (module_inputs : option (list string)) :
  ∃ skips,
    _find_skip_connections_in_module module_name (Module type layers module_inputs)
      = Ok skips
    ∧ (∀ name inputs,
         skips !! name = Some inputs →
         has_inputs module_name (Module type layers module_inputs) name inputs)
    ∧ (∀ name inputs,
         has_inputs module_name (Module type layers module_inputs) name inputs →
         is_Some (skips !! name)).
Proof.
  destruct (find_skip_connections_in_module_finds (Module type layers module_inputs)
              module_name type layers module_inputs eq_refl)
    as (skips & Hrun & Hsound & Hcomplete).
  exists skips. auto.
Qed.

Lemma find_skip_connections_loop_finds (arch : list (string * layer_config)) :
  Forall (fun entry => ∃ type layers inputs, snd entry = Module type layers inputs)
         arch →
  ∀ skips0,
    ∃ skips,
      find_skip_connections_loop arch skips0 = Ok skips
      ∧ ∀ name inputs,
          skips !! name = Some inputs →
          skips0 !! name = Some inputs
          ∨ ∃ module_name module,
              In (module_name, module) arch
              ∧ has_inputs (Some module_name) module name inputs.
Proof.
  induction 1 as [|[module_name module] arch (type & layers & mi & Hmodule) _ IH];
    intros skips0; simpl.
  - exists skips0. auto.
  - simpl in Hmodule.
    destruct (find_skip_connections_in_module_finds module (Some module_name)
                type layers mi Hmodule) as (sub & -> & Hsound & _).
    cbn [mbind result_bind].
    destruct (IH (sub ∪ skips0)) as (skips & -> & Hskips).
    exists skips. split; [reflexivity|].
    intros name inputs Hlookup.
    destruct (Hskips name inputs Hlookup) as [Hold|(mn & m & Hin & Hhas)].
    + apply lookup_union_Some_raw in Hold as [Hsub|[_ Hold]]; [|auto].
      right. exists module_name, module. auto.
    + right. exists mn, m. auto.
Qed.

(** X27.  The outputs that [LCNCreator.__init__] decides to store: on an
    architecture whose top-level entries are modules,
    [_find_skip_connections] never fails, and every name that
    [_find_outputs_to_save] marks is listed in the ['inputs'] of some
    entry, leaf or sub-module, inside a module of the architecture.  In
    particular an architecture without ['inputs'] stores nothing. *)
Theorem outputs_to_save_are_inputs (arch : list (string * layer_config)) :
  Forall (fun entry => ∃ type layers inputs, snd entry = Module type layers inputs)
         arch →
  ∃ skips,
    _find_skip_connections arch = Ok skips
    ∧ ∀ name,
        is_Some (_find_outputs_to_save skips !! name) →
        ∃ module_name module key inputs,
          In (module_name, module) arch
          ∧ has_inputs (Some module_name) module key inputs
          ∧ name ∈ inputs.
Proof.
  intros Harch. unfold _find_skip_connections.
  destruct (find_skip_connections_loop_finds arch Harch ∅) as (skips & -> & Hskips).
  exists skips. split; [reflexivity|].
  intros name [saved Hsaved].
  destruct (outputs_to_save_lookup skips name) as [Htrue Hfalse].
  destruct saved; [|contradiction].
  apply Htrue in Hsaved as (key & inputs & Hkey & Hname).
  destruct (Hskips key inputs Hkey) as [Hempty|(mn & m & Hin & Hhas)].
  - rewrite lookup_empty in Hempty. discriminate.
  - exists mn, m, key, inputs. auto.
Qed.

Lemma outputs_to_save_are_inputs_witness :
  ∃ skips,
    _find_skip_connections [("features", skip_arch)] = Ok skips
    ∧ ∀ name,
        is_Some (_find_outputs_to_save skips !! name) →
        ∃ module_name module key inputs,
          In (module_name, module) [("features", skip_arch)]
          ∧ has_inputs (Some module_name) module key inputs
          ∧ name ∈ inputs.
Proof.
  apply outputs_to_save_are_inputs.
  constructor; [|constructor]. eexists _, _, _. reflexivity.
Defined.

(** ** The centred kernels of [_enforce_norm] *)

Section CentredKernels.
Local Open Scope R_scope.

Lemma sum_R_map_div (c : R) (l : list R) :
  sum_R (map (fun x => x / c) l) = sum_R l / c.
Proof.
  induction l as [|x l IH]; simpl; [unfold Rdiv; ring|].
  rewrite IH. unfold Rdiv. ring.
Qed.

Lemma sum_R_map_minus (m : R) (l : list R) :
  sum_R (map (fun x => x - m) l) = sum_R l - INR (length l) * m.
Proof.
  induction l as [|x l IH]; [simpl; ring|].
  cbn [map sum_R fold_right length]. fold (sum_R (map (fun x => x - m) l)).
  fold (sum_R l). rewrite IH, S_INR. ring.
Qed.

Lemma sum_squares_shifted (m : R) (l : list R) :
  sum_R (map (fun x => x * x) (map (fun x => x - m) l))
  = sum_R (map (fun x => x * x) l) - 2 * m * sum_R l + INR (length l) * (m * m).
Proof.
  induction l as [|x l IH]; [simpl; ring|].
  cbn [map sum_R fold_right length].
  fold (sum_R (map (fun x => x * x) (map (fun x => x - m) l))).
  fold (sum_R (map (fun x => x * x) l)). fold (sum_R l).
  rewrite IH, S_INR. ring.
Qed.

Lemma l2_norm_square (v : list R) :
  l2_norm v * l2_norm v = sum_R (map (fun x => x * x) v).
Proof. unfold l2_norm. apply sqrt_sqrt. apply sum_squares_nonneg. Qed.

Lemma l2_norm_nonzero_length (v : list R) : l2_norm v ≠ 0 → (0 < length v)%nat.
Proof.
  destruct v; [|simpl; lia]. intros H. exfalso. apply H.
  unfold l2_norm. simpl. apply sqrt_0.
Qed.

(** A kernel divided by its norm and centred: its entries sum to zero and
    its squared norm is [1 - (sum x)^2 / (n * sum x^2)], below 1 unless the
    entries of the kernel sum to zero. *)
Lemma enforce_norm_kernel_centred (kernel : list R) :
  l2_norm kernel ≠ 0 →
  sum_R (enforce_norm_kernel kernel) = 0
  ∧ sum_R (map (fun x => x * x) (enforce_norm_kernel kernel))
    = 1 - (sum_R kernel * sum_R kernel)
          / (INR (length kernel) * sum_R (map (fun x => x * x) kernel))
  ∧ (sum_R kernel ≠ 0 →
     sum_R (map (fun x => x * x) (enforce_norm_kernel kernel)) < 1).
Proof.
  intros Hnorm. pose proof (l2_norm_nonzero_length kernel Hnorm) as Hlen.
  assert (Hn : INR (length kernel) ≠ 0) by (apply not_0_INR; lia).
  pose proof (l2_norm_square kernel) as Hsq.
  assert (Hsquares : sum_R (map (fun x => x * x) (enforce_norm_kernel kernel))
                     = 1 - (sum_R kernel * sum_R kernel)
                           / (INR (length kernel)
                              * sum_R (map (fun x => x * x) kernel))).
  { unfold enforce_norm_kernel. rewrite length_map.
    rewrite sum_squares_shifted, length_map, sum_R_map_div.
    rewrite sum_squares_scaled by exact Hnorm. rewrite <- Hsq.
    field. auto. }
  split; [|split; [exact Hsquares|]].
  - unfold enforce_norm_kernel. rewrite length_map.
    rewrite sum_R_map_minus, length_map, sum_R_map_div. field. auto.
  - intros Hsum. rewrite Hsquares, <- Hsq.
    assert (0 < sum_R kernel * sum_R kernel) by nra.
    assert (0 < INR (length kernel)) by (apply lt_0_INR; exact Hlen).
    assert (0 < l2_norm kernel * l2_norm kernel) by nra.
    assert (0 < (sum_R kernel * sum_R kernel)
                / (INR (length kernel) * (l2_norm kernel * l2_norm kernel))).
    { apply Rdiv_lt_0_compat; [assumption|]. apply Rmult_lt_0_compat; assumption. }
    lra.
Qed.
End CentredKernels.

(** X28.  [_enforce_norm] keeps the shape of the kernels and replaces
    every flattened kernel [x] by [x / |x|] minus its mean.  For a kernel
    of non-zero norm the entries of the returned kernel sum to zero and
    its squared norm is [1 - (sum x)^2 / (n * sum x^2)]: the returned
    kernel has norm below 1 whenever the entries of [x] do not sum to
    zero. *)
Theorem enforce_norm_centres_kernels (kernels : ndarray R) (rows : list (list R)) :
  well_formed kernels → reshape_2d kernels = Ok rows →
  ∃ centred,
    _enforce_norm kernels = Ok centred
    ∧ shape centred = shape kernels
    ∧ reshape_2d centred = Ok (map enforce_norm_kernel rows)
    ∧ Forall (fun kernel =>
                l2_norm kernel ≠ 0%R →
                sum_R (enforce_norm_kernel kernel) = 0%R
                ∧ (sum_R (map (fun x => x * x) (enforce_norm_kernel kernel))
                   = 1 - (sum_R kernel * sum_R kernel)
                         / (INR (length kernel)
                            * sum_R (map (fun x => x * x) kernel)))%R
                ∧ (sum_R kernel ≠ 0%R →
                   (sum_R (map (fun x => x * x) (enforce_norm_kernel kernel))
                    < 1)%R))
             rows.
Proof.
  intros Hwf Hrows. unfold _enforce_norm. rewrite Hrows. cbn [mbind result_bind].
  eexists. split; [reflexivity|]. split; [reflexivity|]. split.
  - apply reshape_2d_Ok in Hrows as (n & rest & Hshape & Hn & ->).
    unfold reshape_2d. simpl shape. rewrite Hshape.
    destruct (n =? 0)%nat eqn:En; [apply Nat.eqb_eq in En; contradiction|].
    simpl data. f_equal.
    set (rows := chunks n (prod_nat rest) (data kernels)).
    assert (Hlen : length (map enforce_norm_kernel rows) = n)
      by (rewrite length_map; apply chunks_length).
    rewrite <- Hlen at 1. apply chunks_concat.
    apply List.Forall_forall. intros row Hrow.
    apply List.in_map_iff in Hrow as (row' & <- & Hrow').
    rewrite enforce_norm_kernel_length.
    unfold well_formed in Hwf. rewrite Hshape in Hwf. simpl in Hwf.
    pose proof (chunks_width n (prod_nat rest) (data kernels) Hwf) as Hwidth.
    fold rows in Hwidth.
    rewrite List.Forall_forall in Hwidth. auto.
  - apply List.Forall_forall. intros kernel _. apply enforce_norm_kernel_centred.
Qed.

Lemma enforce_norm_centres_kernels_witness :
  ∃ centred,
    _enforce_norm (NdArray [1; 2]%nat [3; 4]%R) = Ok centred
    ∧ shape centred = [1; 2]%nat
    ∧ reshape_2d centred = Ok (map enforce_norm_kernel [[3; 4]%R])
    ∧ Forall (fun kernel =>
                l2_norm kernel ≠ 0%R →
                sum_R (enforce_norm_kernel kernel) = 0%R
                ∧ (sum_R (map (fun x => x * x) (enforce_norm_kernel kernel))
                   = 1 - (sum_R kernel * sum_R kernel)
                         / (INR (length kernel)
                            * sum_R (map (fun x => x * x) kernel)))%R
                ∧ (sum_R kernel ≠ 0%R →
                   (sum_R (map (fun x => x * x) (enforce_norm_kernel kernel))
                    < 1)%R))
             [[3; 4]%R].
Proof.
  apply (enforce_norm_centres_kernels (NdArray [1; 2]%nat [3; 4]%R) [[3; 4]%R]);
    reflexivity.
Defined.

(** ** The standardised patches of [_calculate_convNd_weights] *)

Section StandardisedPatches.
Local Open Scope R_scope.

Lemma nth_zip_with {A B C : Type} (f : A → B → C) (l1 : list A) (l2 : list B)
      (j : nat) (a : A) (b : B) (c : C) :
  (j < length l1)%nat → (j < length l2)%nat →
  nth j (zip_with f l1 l2) c = f (nth j l1 a) (nth j l2 b).
Proof.
  revert l2 j. induction l1 as [|x l1 IH]; intros [|y l2] [|j]; simpl;
    try lia; [reflexivity|].
  intros H1 H2. apply IH; lia.
Qed.

Lemma column_sums_length (period : nat) (rows : list (list R)) :
  Forall (fun row => length row = period) rows →
  length (column_sums period rows) = period.
Proof.
  unfold column_sums. induction 1 as [|row rows Hrow _ IH]; simpl.
  - apply repeat_length.
  - rewrite length_zip_with, IH, Hrow. lia.
Qed.

(** Entry [j] of the sums over the leading axes is the sum of the entries
    [j] of the rows. *)
Lemma column_sums_nth (period : nat) (rows : list (list R)) (j : nat) :
  Forall (fun row => length row = period) rows → (j < period)%nat →
  nth j (column_sums period rows) 0 = sum_R (map (fun row => nth j row 0) rows).
Proof.
  intros Hrows Hj. induction Hrows as [|row rows Hrow Hrows IH].
  - unfold column_sums. simpl. apply nth_repeat.
  - change (column_sums period (row :: rows))
      with (zip_with Rplus row (column_sums period rows)).
    rewrite (nth_zip_with Rplus _ _ j 0 0 0).
    + rewrite IH. reflexivity.
    + lia.
    + rewrite column_sums_length by exact Hrows. exact Hj.
Qed.

Lemma mean_over_leading_length (period : nat) (rows : list (list R)) :
  Forall (fun row => length row = period) rows →
  length (mean_over_leading period rows) = period.
Proof.
  intros Hrows. unfold mean_over_leading. rewrite length_map.
  apply column_sums_length. exact Hrows.
Qed.

Lemma std_over_leading_length (period : nat) (rows : list (list R)) :
  Forall (fun row => length row = period) rows →
  length (std_over_leading period rows) = period.
Proof.
  intros Hrows. unfold std_over_leading. rewrite length_map.
  apply mean_over_leading_length.
  apply List.Forall_forall. intros row' Hrow'.
  apply List.in_map_iff in Hrow' as (row & <- & Hrow).
  rewrite List.Forall_forall in Hrows.
  rewrite length_zip_with, mean_over_leading_length, (Hrows row Hrow)
    by (apply List.Forall_forall; exact Hrows).
  lia.
Qed.

Lemma sum_R_map_affine (f : list R → R) (m c : R) (rows : list (list R)) :
  sum_R (map (fun row => (f row - m) / c) rows)
  = (sum_R (map f rows) - INR (length rows) * m) / c.
Proof.
  induction rows as [|row rows IH]; [simpl; unfold Rdiv; ring|].
  cbn [map sum_R fold_right length].
  fold (sum_R (map (fun row => (f row - m) / c) rows)). fold (sum_R (map f rows)).
  rewrite IH, S_INR. unfold Rdiv. ring.
Qed.

(** Rows shifted by their mean over the leading axes, whatever they are
    divided by, have mean zero over the leading axes. *)
Lemma centred_rows_mean (period : nat) (rows : list (list R)) (scale : list R)
      (divisor : R → R) :
  rows ≠ [] → Forall (fun row => length row = period) rows →
  length scale = period →
  mean_over_leading period
    (map (fun row =>
            zip_with (fun x ms => (x - fst ms) / divisor (snd ms)) row
                     (combine (mean_over_leading period rows) scale))
         rows)
  = repeat 0 period.
Proof.
  intros Hne Hrows Hscale.
  pose proof (mean_over_leading_length period rows Hrows) as Hmean.
  set (mean := mean_over_leading period rows) in *.
  set (centre := fun row : list R =>
                   zip_with (fun x ms => (x - fst ms) / divisor (snd ms)) row
                            (combine mean scale)).
  assert (Hcombine : length (combine mean scale) = period)
    by (rewrite length_combine; lia).
  assert (Hcentred : Forall (fun row => length row = period) (map centre rows)).
  { apply List.Forall_forall. intros row' Hrow'.
    apply List.in_map_iff in Hrow' as (row & <- & Hrow).
    rewrite List.Forall_forall in Hrows. unfold centre.
    rewrite length_zip_with, Hcombine, (Hrows row Hrow). lia. }
  assert (Hlen : INR (length rows) ≠ 0).
  { apply not_0_INR. destruct rows; [contradiction|simpl; lia]. }
  apply (nth_ext _ _ 0 0).
  - rewrite mean_over_leading_length, repeat_length by exact Hcentred. reflexivity.
  - intros j Hj. rewrite mean_over_leading_length in Hj by exact Hcentred.
    rewrite nth_repeat. unfold mean_over_leading at 1.
    rewrite (nth_map_default _ _ j 0)
      by (rewrite column_sums_length by exact Hcentred; exact Hj).
    rewrite column_sums_nth by assumption. rewrite length_map, map_map.
    rewrite (map_ext_in _ (fun row => (nth j row 0 - nth j mean 0) / divisor (nth j scale 0))).
    + rewrite sum_R_map_affine, <- (column_sums_nth period) by assumption.
      unfold mean, mean_over_leading.
      rewrite (nth_map_default _ _ j 0)
        by (rewrite column_sums_length by exact Hrows; exact Hj).
      set (total := nth j (column_sums period rows) 0).
      replace (total - INR (length rows) * (total / INR (length rows))) with 0
        by (field; exact Hlen).
      unfold Rdiv. ring.
    + intros row Hrow. rewrite List.Forall_forall in Hrows. unfold centre.
      rewrite (nth_zip_with _ _ _ j 0 (0, 0) 0)
        by (rewrite ?Hcombine, ?(Hrows row Hrow); exact Hj).
      rewrite combine_nth by lia. reflexivity.
Qed.

Lemma std_over_leading_nonneg (period : nat) (rows : list (list R)) :
  Forall (fun s => 0 <= s) (std_over_leading period rows).
Proof.
  unfold std_over_leading. apply List.Forall_forall. intros s Hs.
  apply List.in_map_iff in Hs as (v & <- & _). apply sqrt_pos.
Qed.
End StandardisedPatches.

Lemma prod_nat_firstn_skipn (n : nat) (shp : list nat) :
  (prod_nat (firstn n shp) * prod_nat (skipn n shp))%nat = prod_nat shp.
Proof. rewrite <- prod_nat_app, firstn_skipn. reflexivity. Qed.

(** X29.  The standardisation of the patches in
    [_calculate_convNd_weights]: for a positive [default_std] and at least
    one position along the leading axes, no divisor [std + default_std] is
    zero, the array keeps its shape, and the mean of the standardised
    patches over the leading axes is zero at every position of the
    remaining axes. *)
Theorem standardized_patches_zero_mean (n_axes : nat) (default_std : R)
        (patches : ndarray R) :
  well_formed patches → (n_axes <= ndim patches)%nat →
  prod_nat (firstn n_axes (shape patches)) ≠ 0%nat →
  (0 < default_std)%R →
  let count := prod_nat (firstn n_axes (shape patches)) in
  let period := prod_nat (skipn n_axes (shape patches)) in
  ∃ standardized,
    standardize n_axes default_std patches = Ok standardized
    ∧ shape standardized = shape patches
    ∧ Forall (fun std => (0 < std + default_std)%R)
             (std_over_leading period (chunks count period (data patches)))
    ∧ mean_over_leading period (chunks count period (data standardized))
      = repeat 0%R period.
Proof.
  intros Hwf Hrank Hcount Hstd count period. unfold standardize.
  destruct (ndim patches <? n_axes)%nat eqn:Elt; [apply Nat.ltb_lt in Elt; lia|].
  fold count period. set (rows := chunks count period (data patches)).
  assert (Hrows : Forall (fun row => length row = period) rows).
  { apply chunks_width. unfold well_formed in Hwf. rewrite Hwf.
    symmetry. apply prod_nat_firstn_skipn. }
  assert (Hlen : length rows = count) by apply chunks_length.
  eexists. split; [reflexivity|]. split; [reflexivity|]. split.
  - eapply List.Forall_impl; [|apply std_over_leading_nonneg].
    intros s Hs. simpl in Hs. lra.
  - simpl data.
    set (centre := fun row : list R =>
                     zip_with (fun x ms => (x - fst ms) / (snd ms + default_std))%R row
                       (combine (mean_over_leading period rows)
                                (std_over_leading period rows))).
    assert (Hcentred : Forall (fun row => length row = period) (map centre rows)).
    { apply List.Forall_forall. intros row' Hrow'.
      apply List.in_map_iff in Hrow' as (row & <- & Hrow).
      rewrite List.Forall_forall in Hrows. unfold centre.
      rewrite length_zip_with, length_combine, mean_over_leading_length,
        std_over_leading_length, (Hrows row Hrow)
        by (apply List.Forall_forall; exact Hrows).
      lia. }
    replace count with (length (map centre rows)) at 1
      by (rewrite length_map; exact Hlen).
    rewrite chunks_concat by exact Hcentred.
    apply (centred_rows_mean period rows (std_over_leading period rows)
                             (fun s => s + default_std)%R).
    + intros ->. simpl in Hlen. unfold count in Hlen. auto.
    + exact Hrows.
    + apply std_over_leading_length. exact Hrows.
Qed.

Lemma standardized_patches_zero_mean_witness :
  ∃ standardized,
    standardize 1 1%R (NdArray [2; 1]%nat [1; 3]%R) = Ok standardized
    ∧ shape standardized = [2; 1]%nat
    ∧ Forall (fun std => (0 < std + 1)%R)
             (std_over_leading 1 (chunks 2 1 [1; 3]%R))
    ∧ mean_over_leading 1 (chunks 2 1 (data standardized)) = repeat 0%R 1.
Proof.
  apply (standardized_patches_zero_mean 1 1%R (NdArray [2; 1]%nat [1; 3]%R)).
  - reflexivity.
  - unfold ndim. simpl. lia.
  - simpl. discriminate.
  - lra.
Defined.

(** ** The contents of the patches *)

Lemma nonzero_within (m : ndarray Z) (iv : list nat * Z) :
  In iv (nonzero m) → Forall2 (fun i n => (i < n)%nat) (fst iv) (shape m).
Proof.
  unfold nonzero. intros Hin. apply List.filter_In in Hin as [Hin _].
  destruct iv as [idx v]. apply List.in_combine_l in Hin.
  apply cartesian_In. exact Hin.
Qed.

Lemma nonzero_empty (m : ndarray Z) (rest : list nat) :
  shape m = 0%nat :: rest → nonzero m = [].
Proof. unfold nonzero. intros ->. reflexivity. Qed.

Section PatchContents.
Context {A : Type} (zero : A).

Lemma kept_windows (in_channels H W : nat) (f : list nat → list A)
      (found : list (list nat * Z)) :
  Forall (fun iv => ∃ x y, fst iv = [x; y] ∧ (x < H)%nat ∧ (y < W)%nat) found →
  let coords := zip_with (fun x y => [x; y])
                         (map (fun iv => nth 0 (fst iv) 0%nat) found)
                         (map (fun iv => nth 1 (fst iv) 0%nat) found) in
  let labels := map (fun iv => snd iv - 1) found in
  let mask := map (fun xyz => forallb (fun cn => (fst cn <? snd cn)%nat)
                                      (combine xyz [H; W; in_channels])) coords in
  flat_map (fun cl : list nat * Z => map (fun o => f (fst cl ++ [o])) (seq 0 1))
           (map snd (List.filter fst (combine mask (combine coords labels))))
  = map (fun iv => f (fst iv ++ [0%nat])) found.
Proof.
  induction 1 as [|[idx v] found (x & y & Hidx & Hx & Hy) _ IH]; [reflexivity|].
  simpl in Hidx. subst idx. cbv zeta in *. simpl.
  apply Nat.ltb_lt in Hx, Hy. rewrite Hx, Hy. simpl. f_equal. exact IH.
Qed.

Lemma patches_of_image_windows (in_channels : nat) (dk : list nat)
      (offs : list (list nat)) (image : ndarray A) (m : ndarray Z)
      (ps : list (list A)) (ls : list Z) :
  length dk = 2%nat → markers_within in_channels (image, m) →
  patches_of_image zero in_channels dk offs image m = Ok (ps, ls) →
  ps = map (fun iv => window_at zero in_channels dk offs (image, fst iv)) (nonzero m).
Proof.
  intros Hdk (H & W & h & w & Himage & Hm & Hh & Hw). simpl in Himage, Hm.
  unfold patches_of_image, coordinate, ndim. rewrite Hdk, Himage, Hm.
  destruct (negb _); [discriminate|].
  destruct (negb (forallb _ _)); [discriminate|].
  simpl. rewrite Nat.sub_diag. intros [= <- _].
  apply (kept_windows in_channels H W
           (fun origin => window zero image (map (fun k => k / 2)%nat dk ++ [0%nat])
                                 origin (offs ++ [seq 0 in_channels]))).
  apply List.Forall_forall. intros [idx v] Hiv. apply nonzero_within in Hiv.
  rewrite Hm in Hiv. simpl in Hiv.
  inversion Hiv as [|x ? idx1 ? Hx H1]; subst.
  inversion H1 as [|y ? idx2 ? Hy H2]; subst.
  inversion H2; subst. exists x, y. split; [reflexivity|lia].
Qed.

Lemma patches_loop_windows (in_channels : nat) (dk : list nat)
      (offs : list (list nat)) (pairs : list (ndarray A * ndarray Z)) :
  length dk = 2%nat → Forall (markers_within in_channels) pairs →
  ∀ acc acc',
    patches_loop zero in_channels dk offs pairs acc = Ok acc' →
    from_option fst [] acc'
    = from_option fst [] acc
      ++ map (window_at zero in_channels dk offs)
             (flat_map (fun pair => map (fun iv => (fst pair, fst iv))
                                        (nonzero (snd pair))) pairs).
Proof.
  intros Hdk. induction 1 as [|[image m] pairs Hpair _ IH]; intros acc acc' H;
    simpl in H.
  - injection H as <-. simpl. rewrite app_nil_r. reflexivity.
  - bind_inv H as n Hn. simpl flat_map. rewrite map_app, map_map. simpl fst.
    destruct (n =? 0)%nat eqn:En.
    + apply Nat.eqb_eq in En. subst n. unfold len in Hn.
      destruct (shape m) as [|n rest] eqn:Hm; [discriminate|].
      injection Hn as ->. rewrite (nonzero_empty m rest Hm). simpl.
      apply IH. exact H.
    + bind_inv H as generated Hgen. destruct generated as [gp gl].
      apply patches_of_image_windows in Hgen; [|exact Hdk|exact Hpair].
      rewrite <- Hgen. apply IH in H. rewrite H.
      destruct acc as [[ps0 ls0]|]; simpl; [rewrite <- app_assoc|]; reflexivity.
Qed.
End PatchContents.

Lemma marked_positions_within {A : Type} (in_channels : nat)
      (images : list (ndarray A)) (markers : list (ndarray Z))
      (image : ndarray A) (x y : nat) :
  Forall (markers_within in_channels) (combine images markers) →
  In (image, [x; y]) (marked_positions images markers) →
  ∃ H W, shape image = [H; W; in_channels] ∧ (x < H)%nat ∧ (y < W)%nat.
Proof.
  intros Hall Hin. unfold marked_positions in Hin.
  apply in_flat_map in Hin as ([image' m] & Hpair & Hin).
  apply List.in_map_iff in Hin as ([idx v] & Heq & Hiv). simpl in Heq.
  injection Heq as -> ->.
  rewrite List.Forall_forall in Hall.
  destruct (Hall _ Hpair) as (H & W & h & w & Himage & Hm & Hh & Hw).
  simpl in Himage, Hm, Hiv. apply nonzero_within in Hiv. rewrite Hm in Hiv.
  simpl in Hiv.
  inversion Hiv as [|? ? ? ? Hx H1]; subst.
  inversion H1 as [|? ? ? ? Hy H2]; subst.
  exists H, W. split; [exact Himage|lia].
Qed.

Lemma pad_get_inside {A : Type} (zero : A) (image : ndarray A)
      (H W C p1 p2 x y c : nat) :
  shape image = [H; W; C] → (x < H)%nat → (y < W)%nat → (c < C)%nat →
  pad_get zero image [p1; p2; 0%nat] [(x + p1)%nat; (y + p2)%nat; c]
  = nd_get zero image [x; y; c].
Proof.
  intros Hshape Hx Hy Hc. unfold pad_get. rewrite Hshape. simpl.
  assert (H1 : (p1 <=? x + p1)%nat = true) by (apply Nat.leb_le; lia).
  assert (H2 : (x + p1 <? p1 + H)%nat = true) by (apply Nat.ltb_lt; lia).
  assert (H3 : (p2 <=? y + p2)%nat = true) by (apply Nat.leb_le; lia).
  assert (H4 : (y + p2 <? p2 + W)%nat = true) by (apply Nat.ltb_lt; lia).
  assert (H5 : (c <? C)%nat = true) by (apply Nat.ltb_lt; lia).
  rewrite H1, H2, H3, H4, H5. simpl.
  rewrite !Nat.add_sub, Nat.sub_0_r. reflexivity.
Qed.

(** X30.  The contents of the patches of [_generate_patches] for 2D images
    without dilation, when no marker map is larger than its image: patch
    [i] belongs to the [i]-th marked pixel [(x, y)] of the batch, its entry
    [(i1, i2, c)] is the entry [(x + i1, y + i2, c)] of the zero-padded
    image, and its entry [(k1 // 2, k2 // 2, c)] is the marked pixel
    itself, [image[x, y, c]]. *)
Theorem patches_centred_on_markers {A : Type} (zero : A)
        (images : list (ndarray A)) (markers : list (ndarray Z))
        (in_channels : nat) (k1 k2 : Z) (patches : ndarray A) (labels : list Z) :
  Forall (markers_within in_channels) (combine images markers) →
  _generate_patches zero images markers in_channels [k1; k2] [1; 1]
    = Ok (patches, labels) →
  let K1 := Z.to_nat k1 in
  let K2 := Z.to_nat k2 in
  let patch_shape := [K1; K2; in_channels] in
  ∀ (i : nat) (image : ndarray A) (x y c : nat),
    nth_error (marked_positions images markers) i = Some (image, [x; y]) →
    (c < in_channels)%nat →
    (∀ i1 i2, (i1 < K1)%nat → (i2 < K2)%nat →
       nth (i * prod_nat patch_shape + flat_index patch_shape [i1; i2; c])
           (data patches) zero
       = pad_get zero image [K1 / 2; K2 / 2; 0]%nat [x + i1; y + i2; c]%nat)
    ∧ nth (i * prod_nat patch_shape
           + flat_index patch_shape [K1 / 2; K2 / 2; c]%nat)
          (data patches) zero
      = nd_get zero image [x; y; c].
Proof.
  intros Hall Hgen K1 K2 patch_shape i image x y c Hi Hc.
  apply generate_patches_inv in Hgen
    as (offs & all_patches & _ & Hk & Hoffs & Hloop & ->).
  change (zip_with (fun k d => k + (d - 1) * (k - 1)) [k1; k2] [1; 1])
    with [k1 + (1 - 1) * (k1 - 1); k2 + (1 - 1) * (k2 - 1)] in *.
  replace (k1 + (1 - 1) * (k1 - 1)) with k1 in * by ring.
  replace (k2 + (1 - 1) * (k2 - 1)) with k2 in * by ring.
  simpl in Hoffs. injection Hoffs as <-. fold K1 K2 in Hloop.
  apply Forall_cons in Hk as [Hk1 Hk2]. apply Forall_cons in Hk2 as [Hk2 _].
  assert (HK1 : (1 <= K1)%nat) by (unfold K1; lia).
  assert (HK2 : (1 <= K2)%nat) by (unfold K2; lia).
  apply patches_loop_windows in Hloop; [|reflexivity|exact Hall].
  simpl in Hloop. fold (marked_positions images markers) in Hloop.
  simpl data. rewrite Hloop, <- flat_map_concat_map.
  assert (Hlen : (i < length (marked_positions images markers))%nat)
    by (apply nth_error_Some; rewrite Hi; discriminate).
  assert (Hnth : nth i (marked_positions images markers) (image, []) = (image, [x; y]))
    by (apply nth_error_nth; exact Hi).
  assert (Hread : ∀ i1 i2, (i1 < K1)%nat → (i2 < K2)%nat →
            nth (i * prod_nat patch_shape + flat_index patch_shape [i1; i2; c])
                (flat_map (window_at zero in_channels [K1; K2] [seq 0 K1; seq 0 K2])
                          (marked_positions images markers)) zero
            = pad_get zero image [K1 / 2; K2 / 2; 0]%nat [x + i1; y + i2; c]%nat).
  { intros i1 i2 H1 H2.
    assert (Hidx : Forall2 (fun i n => (i < n)%nat) [i1; i2; c] patch_shape)
      by (repeat constructor; assumption).
    rewrite (nth_flat_map_const _ (prod_nat patch_shape) _ _ _ (image, [])).
    - rewrite Hnth. unfold window_at, window. simpl fst. simpl snd.
      change ([seq 0 K1; seq 0 K2] ++ [seq 0 in_channels])
        with (map (seq 0) patch_shape).
      rewrite (nth_map_default _ _ _ [])
        by (rewrite cartesian_length, map_length_seq;
            apply flat_index_bound; exact Hidx).
      rewrite cartesian_flat_index by exact Hidx. reflexivity.
    - intros at_pixel. unfold window_at. rewrite window_length.
      change ([seq 0 K1; seq 0 K2] ++ [seq 0 in_channels])
        with (map (seq 0) patch_shape).
      rewrite map_length_seq. reflexivity.
    - exact Hlen.
    - apply flat_index_bound. exact Hidx. }
  split; [exact Hread|].
  rewrite Hread by (apply Nat.div_lt; lia).
  apply nth_error_In in Hi.
  destruct (marked_positions_within in_channels images markers image x y Hall Hi)
    as (H & W & Hshape & Hx & Hy).
  apply (pad_get_inside zero image H W in_channels); assumption.
Qed.

Lemma patches_centred_on_markers_witness :
  (∀ i1 i2, (i1 < 3)%nat → (i2 < 3)%nat →
     nth (0 * prod_nat [3; 3; 1] + flat_index [3; 3; 1] [i1; i2; 0])%nat
         [0; 0; 0; 1; 2; 0; 3; 4; 0] 0
     = pad_get 0 (NdArray [2; 2; 1]%nat [1; 2; 3; 4]) [3 / 2; 3 / 2; 0]%nat
               [0 + i1; 1 + i2; 0]%nat)
  ∧ nth (0 * prod_nat [3; 3; 1] + flat_index [3; 3; 1] [3 / 2; 3 / 2; 0])%nat
        [0; 0; 0; 1; 2; 0; 3; 4; 0] 0
    = nd_get 0 (NdArray [2; 2; 1]%nat [1; 2; 3; 4]) [0; 1; 0]%nat.
Proof.
  apply (patches_centred_on_markers 0 [NdArray [2; 2; 1]%nat [1; 2; 3; 4]]
           [NdArray [2; 2]%nat [0; 1; 0; 0]] 1 3 3
           (NdArray [3; 3]%nat [0; 0; 0; 1; 2; 0; 3; 4; 0]) [0]
           ltac:(repeat constructor; exists 2%nat, 2%nat, 2%nat, 2%nat;
                 repeat split; simpl; lia)
           ltac:(reflexivity) 0%nat (NdArray [2; 2; 1]%nat [1; 2; 3; 4]) 0%nat 1%nat
           0%nat ltac:(reflexivity) ltac:(lia)).
Defined.
